(** * A shallow embedding of the graph database engine (ADBMS/kk.py)

    The development follows the source file top-down: Python string
    primitives used by the query parser, the scalar model, the
    [GraphDatabase] class (indexes, mutations, path search, transactions,
    query) and the file-level operations of [DatabaseManager].

    Conventions.
    - A Python [dict] used as a map is a [gmap]; a [set] is a [gset].
      Iteration over a dict or a set follows the canonical order of the
      map ([map_to_list], [elements]); no statement below depends on it.
    - A method that can raise returns the state reached when the
      exception left the method together with an [outcome].
    - Strings are sequences of ASCII characters. *)

From Stdlib Require Import ZArith String Ascii List Lia DecimalString.
From Stdlib Require Import Floats.SpecFloat.
From stdpp Require Import gmap strings list fin_maps.

Open Scope string_scope.
Open Scope list_scope.

(** ** Exceptions and outcomes *)

Inductive exn := ValueError | KeyError | TypeError | AttributeError.

Inductive outcome (A : Type) :=
| Ok (a : A)
| Raise (e : exn).
Arguments Ok {A} a.
Arguments Raise {A} e.

Definition bind {A B} (x : outcome A) (f : A -> outcome B) : outcome B :=
  match x with
  | Ok a => f a
  | Raise e => Raise e
  end.

Notation "'let*' x ':=' c 'in' k" := (bind c (fun x => k))
  (at level 10, x pattern, c at level 100, k at level 200).

Fixpoint mapM {A B} (f : A -> outcome B) (l : list A) : outcome (list B) :=
  match l with
  | [] => Ok []
  | a :: r => let* b := f a in let* bs := mapM f r in Ok (b :: bs)
  end.

(** ** Python string primitives *)

Definition is_space (c : ascii) : bool :=
  let n := nat_of_ascii c in
  (Nat.leb 9 n && Nat.leb n 13) || (Nat.leb 28 n && Nat.leb n 32).

Definition is_digit (c : ascii) : bool :=
  let n := nat_of_ascii c in Nat.leb 48 n && Nat.leb n 57.

Definition lower_char (c : ascii) : ascii :=
  let n := nat_of_ascii c in
  if Nat.leb 65 n && Nat.leb n 90 then ascii_of_nat (n + 32) else c.

Definition upper_char (c : ascii) : ascii :=
  let n := nat_of_ascii c in
  if Nat.leb 97 n && Nat.leb n 122 then ascii_of_nat (n - 32) else c.

Fixpoint str_map (f : ascii -> ascii) (s : string) : string :=
  match s with
  | EmptyString => EmptyString
  | String c r => String (f c) (str_map f r)
  end.

(** [s.lower()] and [s.upper()] *)
Definition lower : string -> string := str_map lower_char.
Definition upper : string -> string := str_map upper_char.

Definition is_empty (s : string) : bool :=
  match s with EmptyString => true | _ => false end.

Fixpoint lstrip (s : string) : string :=
  match s with
  | EmptyString => EmptyString
  | String c r => if is_space c then lstrip r else s
  end.

Fixpoint rstrip (s : string) : string :=
  match s with
  | EmptyString => EmptyString
  | String c r =>
      let r' := rstrip r in
      if is_space c && is_empty r' then EmptyString else String c r'
  end.

(** [s.strip()] *)
Definition strip (s : string) : string := rstrip (lstrip s).

(** [s.startswith(p)] *)
Fixpoint startswith (s p : string) : bool :=
  match p, s with
  | EmptyString, _ => true
  | String a p', String b s' => Ascii.eqb a b && startswith s' p'
  | String _ _, EmptyString => false
  end.

(** [s[n:]] *)
Fixpoint str_drop (n : nat) (s : string) : string :=
  match n, s with
  | O, _ => s
  | S k, String _ r => str_drop k r
  | S _, EmptyString => EmptyString
  end.

Fixpoint str_rev_app (s acc : string) : string :=
  match s with
  | EmptyString => acc
  | String c r => str_rev_app r (String c acc)
  end.

Definition str_rev (s : string) : string := str_rev_app s EmptyString.

(** [s.endswith(p)] *)
Definition endswith (s p : string) : bool := startswith (str_rev s) (str_rev p).

(** [s[1:-1]] *)
Definition str_inner (s : string) : string :=
  str_rev (str_drop 1 (str_rev (str_drop 1 s))).

(** [s.split(sep, 1)] when [sep] occurs in [s]: the text before and after
    the first occurrence; [None] when [sep] does not occur (Python then
    returns the one-element list [[s]]). *)
Fixpoint split_once (sep s : string) : option (string * string) :=
  if startswith s sep then Some (EmptyString, str_drop (String.length sep) s)
  else
    match s with
    | EmptyString => None
    | String c r =>
        match split_once sep r with
        | Some (a, b) => Some (String c a, b)
        | None => None
        end
    end.

(** [sub in s] *)
Definition str_in (sub s : string) : bool :=
  match split_once sub s with Some _ => true | None => false end.

(** [s.split(",")] for a one-character separator *)
Fixpoint split_char (sep : ascii) (s : string) : list string :=
  match s with
  | EmptyString => [EmptyString]
  | String c r =>
      if Ascii.eqb c sep then EmptyString :: split_char sep r
      else
        match split_char sep r with
        | h :: t => String c h :: t
        | [] => [String c EmptyString]
        end
  end.

(** [s.replace(old, new)] for a non-empty [old]: every non-overlapping
    occurrence, left to right. [skip] counts the characters of an
    occurrence still to be dropped. *)
Fixpoint replace_go (old new s : string) (skip : nat) : string :=
  match s with
  | EmptyString => EmptyString
  | String c r =>
      match skip with
      | S k => replace_go old new r k
      | O =>
          if startswith s old
          then (new ++ replace_go old new r (String.length old - 1))%string
          else String c (replace_go old new r 0)
      end
  end.

Definition replace (s old new : string) : string := replace_go old new s 0.

(** The length of a match of the pattern [\s+KW\s+] (case-insensitive) at
    the start of [s]. The two [\s+] are greedy and [KW] starts with a
    letter, so a match takes the whole run of blanks on either side. *)
Definition match_kw (kw s : string) : option nat :=
  let s1 := lstrip s in
  let n1 := String.length s - String.length s1 in
  if Nat.eqb n1 0 then None
  else if startswith (upper s1) kw then
    let s2 := str_drop (String.length kw) s1 in
    let s3 := lstrip s2 in
    let n2 := String.length s2 - String.length s3 in
    if Nat.eqb n2 0 then None else Some (n1 + String.length kw + n2)
  else None.

(** [re.split(r'\s+KW\s+', s, flags=re.IGNORECASE)]; [cur] is the current
    piece, reversed. *)
Fixpoint re_split_go (kw s : string) (skip : nat) (cur : string) : list string :=
  match s with
  | EmptyString => [str_rev cur]
  | String c r =>
      match skip with
      | S k => re_split_go kw r k cur
      | O =>
          match match_kw kw s with
          | Some n => str_rev cur :: re_split_go kw r (n - 1) EmptyString
          | None => re_split_go kw r 0 (String c cur)
          end
      end
  end.

Definition re_split (kw s : string) : list string := re_split_go kw s 0 EmptyString.

(** [str(n)] for an integer *)
Definition str_of_Z (z : Z) : string := NilZero.string_of_int (Z.to_int z).

(** [int(s)] for a string: optional blanks, an optional sign, decimal digits
    with single underscores allowed between digits. [None] is ValueError. *)
Fixpoint parse_digits (s : string) (acc : Z) (after_digit : bool) : option Z :=
  match s with
  | EmptyString => if after_digit then Some acc else None
  | String c r =>
      if is_digit c
      then parse_digits r (acc * 10 + Z.of_nat (nat_of_ascii c - 48)) true
      else if Ascii.eqb c "_" && after_digit then parse_digits r acc false
      else None
  end.

Definition int_of_str (s : string) : option Z :=
  match strip s with
  | String "-" r => Z.opp <$> parse_digits r 0 false
  | String "+" r => parse_digits r 0 false
  | t => parse_digits t 0 false
  end.

(** ** Scalars

    Attribute values are strings, integers, floats or booleans. Floats are
    IEEE binary64 values. In Python [bool] is a subclass of [int]:
    [isinstance(True, (int, float))] holds and [True == 1]. *)

Inductive scalar :=
| VStr (s : string)
| VInt (z : Z)
| VFloat (f : spec_float)
| VBool (b : bool).

(** [isinstance(v, (int, float))] *)
Definition isinstance_int_float (v : scalar) : bool :=
  match v with
  | VInt _ | VFloat _ | VBool _ => true
  | VStr _ => false
  end.

(** [isinstance(v, bool)] *)
Definition isinstance_bool (v : scalar) : bool :=
  match v with VBool _ => true | _ => false end.

(** [isinstance(v, str)] *)
Definition isinstance_str (v : scalar) : bool :=
  match v with VStr _ => true | _ => false end.

(** The exact value of a number: NaN, an infinity, or [m * 2^e]. Python
    compares integers with floats exactly. *)
Inductive xreal := XNaN | XNegInf | XPosInf | XFin (m e : Z).

Definition xreal_of_float (f : spec_float) : xreal :=
  match f with
  | S754_zero _ => XFin 0 0
  | S754_infinity s => if s then XNegInf else XPosInf
  | S754_nan => XNaN
  | S754_finite s m e => XFin (if s then Z.neg m else Z.pos m) e
  end.

Definition xreal_of_scalar (v : scalar) : option xreal :=
  match v with
  | VInt z => Some (XFin z 0)
  | VBool b => Some (XFin (if b then 1 else 0) 0)
  | VFloat f => Some (xreal_of_float f)
  | VStr _ => None
  end.

Definition xreal_compare (a b : xreal) : option comparison :=
  match a, b with
  | XNaN, _ | _, XNaN => None
  | XNegInf, XNegInf | XPosInf, XPosInf => Some Eq
  | XNegInf, _ | _, XPosInf => Some Lt
  | _, XNegInf | XPosInf, _ => Some Gt
  | XFin m1 e1, XFin m2 e2 =>
      let e := Z.min e1 e2 in
      Some (Z.compare (m1 * 2 ^ (e1 - e)) (m2 * 2 ^ (e2 - e)))
  end.

(** The comparison of two numeric values; [None] when either is not a
    number or is NaN. *)
Definition num_compare (a b : scalar) : option comparison :=
  match xreal_of_scalar a, xreal_of_scalar b with
  | Some x, Some y => xreal_compare x y
  | _, _ => None
  end.

(** [a == b] *)
Definition py_eq (a b : scalar) : bool :=
  match a, b with
  | VStr s, VStr t => String.eqb s t
  | VStr _, _ | _, VStr _ => false
  | _, _ => match num_compare a b with Some Eq => true | _ => false end
  end.

(** [a > b], [a < b], [a >= b], [a <= b] on numbers *)
Definition py_gt (a b : scalar) : bool :=
  match num_compare a b with Some Gt => true | _ => false end.
Definition py_lt (a b : scalar) : bool :=
  match num_compare a b with Some Lt => true | _ => false end.
Definition py_ge (a b : scalar) : bool :=
  match num_compare a b with Some Gt | Some Eq => true | _ => false end.
Definition py_le (a b : scalar) : bool :=
  match num_compare a b with Some Lt | Some Eq => true | _ => false end.

(** The parts of the Python runtime that are taken as given: the text form
    and the parser of floats, and the regular-expression engine. *)
Record Runtime := {
  str_of_float : spec_float -> string;          (* str(x) *)
  float_of_str : string -> option spec_float;   (* float(s); None is ValueError *)
  re_compile : string -> bool;                  (* re.compile(p) succeeds *)
  re_search : string -> string -> bool          (* bool(re.search(p, s)) *)
}.

(** A runtime for evaluating examples whose data hold no float and no
    regular expression: it rejects every float literal and every pattern. *)
Definition plain_runtime : Runtime :=
  {| str_of_float := fun _ => "nan";
     float_of_str := fun _ => None;
     re_compile := fun _ => false;
     re_search := fun _ _ => false |}.

(** [str(v)] *)
Definition str_scalar (rt : Runtime) (v : scalar) : string :=
  match v with
  | VStr s => s
  | VInt z => str_of_Z z
  | VFloat f => str_of_float rt f
  | VBool b => if b then "True" else "False"
  end.

(** [float(value) if '.' in value else int(value)]. On a number the test
    ['.' in value] raises TypeError. *)
Definition to_number (rt : Runtime) (value : scalar) : outcome scalar :=
  match value with
  | VStr s =>
      if str_in "." s
      then match float_of_str rt s with
           | Some f => Ok (VFloat f)
           | None => Raise ValueError
           end
      else match int_of_str s with
           | Some z => Ok (VInt z)
           | None => Raise ValueError
           end
  | _ => Raise TypeError
  end.

(** [value.lower()]; AttributeError on a number. *)
Definition lit_lower (value : scalar) : outcome string :=
  match value with
  | VStr s => Ok (lower s)
  | _ => Raise AttributeError
  end.

(** ** The database state

    [self.db] is [{"nodes": ..., "indexes": ...}]; a node is
    [{"value": attrs, "edges": {neighbour: props}}]; an index maps the text
    form of a value to a set of node ids. [self.transaction] is [None],
    [True] or [False]. *)

Record node := {
  value : gmap string scalar;
  edges : gmap string (gmap string scalar)
}.

Record database := {
  nodes : gmap string node;
  indexes : gmap string (gmap string (gset string))
}.

Record GraphDatabase := {
  db : database;
  transaction : option bool;
  transaction_history : list database
}.

(** A freshly created engine over empty files. *)
Definition empty_database : database := {| nodes := ∅; indexes := ∅ |}.
Definition new_GraphDatabase : GraphDatabase :=
  {| db := empty_database; transaction := None; transaction_history := [] |}.

Definition set_nodes (ns : gmap string node) (d : database) : database :=
  {| nodes := ns; indexes := indexes d |}.
Definition set_indexes (ix : gmap string (gmap string (gset string))) (d : database) : database :=
  {| nodes := nodes d; indexes := ix |}.
Definition set_db (d : database) (g : GraphDatabase) : GraphDatabase :=
  {| db := d; transaction := transaction g; transaction_history := transaction_history g |}.
Definition set_edges (es : gmap string (gmap string scalar)) (n : node) : node :=
  {| value := value n; edges := es |}.
Definition set_value (v : gmap string scalar) (n : node) : node :=
  {| value := v; edges := edges n |}.

(** [if self.transaction: self.transaction_history.append(deepcopy(self.db))] *)
Definition snapshot (g : GraphDatabase) : GraphDatabase :=
  match transaction g with
  | Some true =>
      {| db := db g; transaction := transaction g;
         transaction_history := transaction_history g ++ [db g] |}
  | _ => g
  end.

(** ** Index maintenance *)

Section Engine.
Context (rt : Runtime).

(** [idx[key].discard(node_id)], deleting the key when its set empties;
    nothing happens when the key is absent. *)
Definition index_discard (k node_id : string) (idx : gmap string (gset string))
  : gmap string (gset string) :=
  match idx !! k with
  | Some s =>
      let s' := s ∖ {[node_id]} in
      if decide (s' = ∅) then delete k idx else <[k := s']> idx
  | None => idx
  end.

(** [idx.setdefault(key, set()).add(node_id)] *)
Definition index_add (k node_id : string) (idx : gmap string (gset string))
  : gmap string (gset string) :=
  <[k := default ∅ (idx !! k) ∪ {[node_id]}]> idx.

Definition _update_index (attribute node_id : string) (old_value new_value : option scalar)
    (ix : gmap string (gmap string (gset string))) : gmap string (gmap string (gset string)) :=
  match ix !! attribute with
  | None => ix
  | Some idx =>
      let idx1 :=
        match old_value with
        | Some ov => index_discard (str_scalar rt ov) node_id idx
        | None => idx
        end in
      let idx2 :=
        match new_value with
        | Some nv => index_add (str_scalar rt nv) node_id idx1
        | None => idx1
        end in
      <[attribute := idx2]> ix
  end.

Definition create_index (attribute : string) (g : GraphDatabase) : GraphDatabase * outcome unit :=
  if is_empty attribute then (g, Raise ValueError)
  else if decide (is_Some (indexes (db g) !! attribute)) then (g, Raise ValueError)
  else
    let built :=
      fold_left
        (fun idx '(node_id, data) =>
           match value data !! attribute with
           | Some v => index_add (str_scalar rt v) node_id idx
           | None => idx
           end)
        (map_to_list (nodes (db g))) ∅ in
    (set_db (set_indexes (<[attribute := built]> (indexes (db g))) (db g)) g, Ok tt).

Definition drop_index (attribute : string) (g : GraphDatabase) : GraphDatabase * outcome unit :=
  match indexes (db g) !! attribute with
  | None => (g, Raise ValueError)
  | Some _ => (set_db (set_indexes (delete attribute (indexes (db g))) (db g)) g, Ok tt)
  end.

Definition list_indexes (g : GraphDatabase) : list string :=
  (map_to_list (indexes (db g))).*1.

(** ** Mutations *)

(** [new_id] stands for the result of [uuid.uuid4()]. *)
Definition add_node (attrs : gmap string scalar) (new_id : string) (g : GraphDatabase)
  : GraphDatabase * outcome string :=
  if decide (attrs = ∅) then (g, Raise ValueError)
  else
    let g1 := snapshot g in
    let ns := <[new_id := {| value := attrs; edges := ∅ |}]> (nodes (db g1)) in
    let ix :=
      fold_left
        (fun ix attribute =>
           match attrs !! attribute with
           | Some v => _update_index attribute new_id None (Some v) ix
           | None => ix
           end)
        (map_to_list (indexes (db g1))).*1 (indexes (db g1)) in
    (set_db {| nodes := ns; indexes := ix |} g1, Ok new_id).

(** [isinstance(weight, (int, float))] decides the weight; the snapshot is
    taken before that test. *)
Definition add_edge (key1 key2 : string) (label weight : option scalar) (g : GraphDatabase)
  : GraphDatabase * outcome unit :=
  match nodes (db g) !! key1, nodes (db g) !! key2 with
  | Some n1, Some _ =>
      if decide (key1 = key2) then (g, Raise ValueError)
      else if decide (is_Some (edges n1 !! key2)) then (g, Raise ValueError)
      else
        let g1 := snapshot g in
        let props0 : gmap string scalar :=
          match label with
          | Some l => {[ "label" := VStr (str_scalar rt l) ]}
          | None => ∅
          end in
        let with_weight : outcome (gmap string scalar) :=
          match weight with
          | Some w => if isinstance_int_float w then Ok (<["weight" := w]> props0)
                      else Raise ValueError
          | None => Ok props0
          end in
        match with_weight with
        | Raise e => (g1, Raise e)
        | Ok edge_props =>
            let ns1 := alter (fun n => set_edges (<[key2 := edge_props]> (edges n)) n) key1
                         (nodes (db g1)) in
            let ns2 := alter (fun n => set_edges (<[key1 := edge_props]> (edges n)) n) key2 ns1 in
            (set_db (set_nodes ns2 (db g1)) g1, Ok tt)
        end
  | _, _ => (g, Raise KeyError)
  end.

(** The second [del] raises KeyError when the reverse entry is missing;
    the first deletion has then already happened. *)
Definition delete_edge (key1 key2 : string) (g : GraphDatabase) : GraphDatabase * outcome unit :=
  match nodes (db g) !! key1, nodes (db g) !! key2 with
  | Some n1, Some _ =>
      if decide (is_Some (edges n1 !! key2)) then
        let g1 := snapshot g in
        let ns1 := alter (fun n => set_edges (delete key2 (edges n)) n) key1 (nodes (db g1)) in
        match ns1 !! key2 with
        | Some n2 =>
            if decide (is_Some (edges n2 !! key1)) then
              let ns2 := alter (fun n => set_edges (delete key1 (edges n)) n) key2 ns1 in
              (set_db (set_nodes ns2 (db g1)) g1, Ok tt)
            else (set_db (set_nodes ns1 (db g1)) g1, Raise KeyError)
        | None => (set_db (set_nodes ns1 (db g1)) g1, Raise KeyError)
        end
      else (g, Raise ValueError)
  | _, _ => (g, Raise KeyError)
  end.

Definition get_value (key : string) (g : GraphDatabase) : gmap string scalar :=
  match nodes (db g) !! key with
  | Some n => value n
  | None => ∅
  end.

(** [for target_id in list(edges.keys()): del nodes[target_id]["edges"][key]] *)
Fixpoint unlink_all (key : string) (targets : list string) (ns : gmap string node)
  : gmap string node * outcome unit :=
  match targets with
  | [] => (ns, Ok tt)
  | target_id :: rest =>
      match ns !! target_id with
      | Some nt =>
          if decide (is_Some (edges nt !! key))
          then unlink_all key rest (<[target_id := set_edges (delete key (edges nt)) nt]> ns)
          else (ns, Raise KeyError)
      | None => (ns, Raise KeyError)
      end
  end.

(** The index key removed is [str(value).lower()]. *)
Definition delete_node (key : string) (g : GraphDatabase) : GraphDatabase * outcome unit :=
  match nodes (db g) !! key with
  | None => (g, Raise KeyError)
  | Some node_data =>
      let g1 := snapshot g in
      let ix :=
        fold_left
          (fun ix attribute =>
             match value node_data !! attribute, ix !! attribute with
             | Some v, Some idx =>
                 <[attribute := index_discard (lower (str_scalar rt v)) key idx]> ix
             | _, _ => ix
             end)
          (map_to_list (indexes (db g1))).*1 (indexes (db g1)) in
      match unlink_all key (map_to_list (edges node_data)).*1 (nodes (db g1)) with
      | (ns, Ok _) => (set_db {| nodes := delete key ns; indexes := ix |} g1, Ok tt)
      | (ns, Raise e) => (set_db {| nodes := ns; indexes := ix |} g1, Raise e)
      end
  end.

(** [old_val != new_val] where either side may be [None] *)
Definition py_ne_opt (a b : option scalar) : bool :=
  match a, b with
  | Some x, Some y => negb (py_eq x y)
  | None, None => false
  | _, _ => true
  end.

Definition update_node (key : string) (new_value : gmap string scalar) (g : GraphDatabase)
  : GraphDatabase * outcome unit :=
  match nodes (db g) !! key with
  | None => (g, Raise KeyError)
  | Some n =>
      if decide (new_value = ∅) then (g, Raise ValueError)
      else
        let g1 := snapshot g in
        let current_value := value n in
        let ix :=
          fold_left
            (fun ix attribute =>
               let old_val := current_value !! attribute in
               let new_val := match new_value !! attribute with
                              | Some v => Some v
                              | None => old_val
                              end in
               if py_ne_opt old_val new_val
               then _update_index attribute key old_val new_val ix
               else ix)
            (map_to_list (indexes (db g1))).*1 (indexes (db g1)) in
        let ns := <[key := set_value (new_value ∪ current_value) n]> (nodes (db g1)) in
        (set_db {| nodes := ns; indexes := ix |} g1, Ok tt)
  end.

(** ** Transactions *)

Definition begin_transaction (g : GraphDatabase) : GraphDatabase * outcome unit :=
  match transaction g with
  | Some _ => (g, Raise ValueError)
  | None => ({| db := db g; transaction := Some true; transaction_history := [] |}, Ok tt)
  end.

(** [self.transaction is None or not self.transaction] *)
Definition no_transaction (g : GraphDatabase) : bool :=
  match transaction g with
  | Some true => false
  | _ => true
  end.

Definition commit_transaction (g : GraphDatabase) : GraphDatabase * outcome unit :=
  if no_transaction g then (g, Raise ValueError)
  else ({| db := db g; transaction := transaction g;
           transaction_history := removelast (transaction_history g) |}, Ok tt).

Definition rollback_transaction (g : GraphDatabase) : GraphDatabase * outcome unit :=
  if no_transaction g then (g, Raise ValueError)
  else
    match last (transaction_history g) with
    | None => (g, Ok tt)
    | Some d => ({| db := d; transaction := transaction g;
                    transaction_history := removelast (transaction_history g) |}, Ok tt)
    end.

Definition stop_transaction (g : GraphDatabase) : GraphDatabase * outcome unit :=
  if no_transaction g then (g, Raise ValueError)
  else ({| db := db g; transaction := Some false; transaction_history := [] |}, Ok tt).

(** ** Shortest path

    [find_path] runs a breadth-first search with a FIFO queue of
    [(node, path)] pairs. The [while queue] loop is bounded by [fuel];
    [bfs_fuel] is large enough for the loop to finish ([None] would mean
    that the bound was reached). *)

Fixpoint bfs_loop (fuel : nat) (ns : gmap string node) (end_key : string)
    (visited : gset string) (queue : list (string * list string))
  : option (outcome (option (list string))) :=
  match fuel with
  | O => None
  | S fuel' =>
      match queue with
      | [] => Some (Ok None)
      | (current_key, path) :: rest =>
          if decide (current_key = end_key) then Some (Ok (Some path))
          else if decide (current_key ∈ visited) then bfs_loop fuel' ns end_key visited rest
          else
            match ns !! current_key with
            | None => Some (Raise KeyError)
            | Some data =>
                let visited' := visited ∪ {[current_key]} in
                let fresh :=
                  filter (fun neighbor => neighbor ∉ visited') (map_to_list (edges data)).*1 in
                bfs_loop fuel' ns end_key visited'
                  (rest ++ ((fun neighbor => (neighbor, path ++ [neighbor])) <$> fresh))
            end
      end
  end.

(** The number of queue entries that the nodes outside [visited] can still
    produce, plus one per node. *)
Definition unvisited_weight (ns : gmap string node) (visited : gset string) : nat :=
  sum_list ((fun kv => if decide (kv.1 ∈ visited) then 0 else S (size (edges kv.2)))
              <$> map_to_list ns).

Definition bfs_fuel (ns : gmap string node) : nat := S (S (unvisited_weight ns ∅)).

Definition find_path (start_key end_key : string) (g : GraphDatabase)
  : option (outcome (option (list string))) :=
  let ns := nodes (db g) in
  if decide (is_Some (ns !! start_key) ∧ is_Some (ns !! end_key)) then
    if decide (start_key = end_key) then Some (Ok (Some [start_key]))
    else bfs_loop (bfs_fuel ns) ns end_key ∅ [(start_key, [start_key])]
  else Some (Raise KeyError).

(** ** The query language *)

Inductive cmp_op := OpEq | OpGt | OpLt | OpGe | OpLe | OpNe.

Definition op_text (o : cmp_op) : string :=
  match o with
  | OpEq => "=" | OpGt => ">" | OpLt => "<"
  | OpGe => ">=" | OpLe => "<=" | OpNe => "!="
  end.

(** The order in which the parser tries the operators:
    [for op in ["=", ">", "<", ">=", "<=", "!="]]. *)
Definition op_order : list cmp_op := [OpEq; OpGt; OpLt; OpGe; OpLe; OpNe].

(** A parsed condition [(key, op, value)]. The value of a comparison is
    the literal text, or a number when the key is [edge.weight]. *)
Inductive condition :=
| CCmp (key : string) (op : cmp_op) (lit : scalar)
| CIn (key : string) (lits : list scalar)
| CContains (key lit : string)
| CRegex (key pattern : string).

Definition cond_key (c : condition) : string :=
  match c with
  | CCmp k _ _ | CIn k _ | CContains k _ | CRegex k _ => k
  end.

Definition is_weight_key (key : string) : bool :=
  startswith key "edge." && String.eqb (str_drop 5 key) "weight".

Definition parse_condition (text : string) : outcome condition :=
  let cond := strip text in
  match List.find (fun o => str_in (op_text o) cond) op_order with
  | Some o =>
      match split_once (op_text o) cond with
      | Some (k, v) =>
          let key := strip k in
          let lit := strip v in
          if is_weight_key key then
            match to_number rt (VStr lit) with
            | Ok n => Ok (CCmp key o n)
            | Raise _ => Raise ValueError
            end
          else Ok (CCmp key o (VStr lit))
      | None => Raise ValueError
      end
  | None =>
      if str_in " IN " (upper cond) then
        match split_once " IN " cond with
        | None => Raise ValueError
        | Some (k, v) =>
            let key := strip k in
            let lit := strip v in
            if negb (startswith lit "(" && endswith lit ")") then Raise ValueError
            else
              let value_list :=
                List.filter (fun v => negb (is_empty v))
                  (List.map strip (split_char "," (str_inner lit))) in
              if decide (value_list = []) then Raise ValueError
              else if is_weight_key key then
                let* nums := mapM (fun v => to_number rt (VStr v)) value_list in
                Ok (CIn key nums)
              else Ok (CIn key (List.map VStr value_list))
        end
      else if str_in " CONTAINS " (upper cond) then
        match split_once " CONTAINS " cond with
        | None => Raise ValueError
        | Some (k, v) => Ok (CContains (strip k) (strip v))
        end
      else if str_in " REGEX " (upper cond) then
        match split_once " REGEX " cond with
        | None => Raise ValueError
        | Some (k, v) =>
            if re_compile rt (strip v) then Ok (CRegex (strip k) (strip v))
            else Raise ValueError
        end
      else Raise ValueError
  end.

(** The parsed query: OR-groups of AND-conditions. *)
Definition parse_query (query_string : string) : outcome (list (list condition)) :=
  if negb (startswith (lower query_string) "where") then Raise ValueError
  else
    let conditions_str := strip (str_drop 5 query_string) in
    if is_empty conditions_str then Raise ValueError
    else
      mapM (fun or_group => mapM parse_condition (re_split "AND" or_group))
        (re_split "OR" conditions_str).

(** *** Evaluation of one condition on a vertex attribute *)

(** The two operands of [node_val == value] after coercion of the literal
    by the runtime type of the stored value (operator [=] and [!=]). *)
Definition coerce_eq (case_sensitive : bool) (node_val lit : scalar) : outcome (scalar * scalar) :=
  if isinstance_int_float node_val then
    let* v := to_number rt lit in Ok (node_val, v)
  else if isinstance_bool node_val then
    let* s := lit_lower lit in Ok (node_val, VBool (String.eqb s "true"))
  else if case_sensitive then Ok (node_val, lit)
  else
    let* s := lit_lower lit in Ok (VStr (lower (str_scalar rt node_val)), VStr s).

(** The operands of [node_val in value] (operator [IN]). *)
Definition coerce_in (case_sensitive : bool) (node_val : scalar) (lits : list scalar)
  : outcome (scalar * list scalar) :=
  if isinstance_int_float node_val then
    let* vs := mapM (to_number rt) lits in Ok (node_val, vs)
  else if isinstance_bool node_val then
    let* vs := mapM (fun v => let* s := lit_lower v in Ok (VBool (String.eqb s "true"))) lits in
    Ok (node_val, vs)
  else if case_sensitive then Ok (node_val, lits)
  else
    let* vs := mapM (fun v => let* s := lit_lower v in Ok (VStr s)) lits in
    Ok (VStr (lower (str_scalar rt node_val)), vs).

Definition eval_eq (case_sensitive : bool) (node_val lit : scalar) : outcome bool :=
  let* (a, b) := coerce_eq case_sensitive node_val lit in Ok (py_eq a b).

Definition eval_in (case_sensitive : bool) (node_val : scalar) (lits : list scalar) : outcome bool :=
  let* (a, vs) := coerce_in case_sensitive node_val lits in Ok (existsb (py_eq a) vs).

(** An order comparison: false on a value that is not [isinstance(.., (int, float))]. *)
Definition eval_order (cmp : scalar -> scalar -> bool) (node_val lit : scalar) : outcome bool :=
  if negb (isinstance_int_float node_val) then Ok false
  else let* n := to_number rt lit in Ok (cmp node_val n).

Definition eval_contains (cast_non_strings case_sensitive : bool) (val : scalar) (lit : string) : bool :=
  let val_str := if cast_non_strings then VStr (str_scalar rt val) else val in
  match val_str with
  | VStr s => if case_sensitive then str_in lit s else str_in (lower lit) (lower s)
  | _ => false
  end.

(** The full-scan evaluation of a condition on the attribute map of a node. *)
Definition eval_node_cond (cast_non_strings case_sensitive : bool)
    (node_value : gmap string scalar) (c : condition) : outcome bool :=
  match node_value !! cond_key c with
  | None => Ok false
  | Some node_val =>
      match c with
      | CCmp _ OpEq lit => eval_eq case_sensitive node_val lit
      | CCmp _ OpGt lit => eval_order py_gt node_val lit
      | CCmp _ OpLt lit => eval_order py_lt node_val lit
      | CCmp _ OpGe lit => eval_order py_ge node_val lit
      | CCmp _ OpLe lit => eval_order py_le node_val lit
      | CCmp _ OpNe lit => let* m := eval_eq case_sensitive node_val lit in Ok (negb m)
      | CIn _ lits => eval_in case_sensitive node_val lits
      | CContains _ lit => Ok (eval_contains cast_non_strings case_sensitive node_val lit)
      | CRegex _ pattern =>
          match node_val with
          | VStr s => Ok (re_search rt pattern s)
          | _ => Ok false
          end
      end
  end.

(** The evaluation on a candidate of an index probe: only [=] and [IN] are
    handled there; any other operator leaves [matches_and] true. *)
Definition eval_indexed_cond (case_sensitive : bool)
    (node_value : gmap string scalar) (c : condition) : outcome bool :=
  match node_value !! cond_key c with
  | None => Ok false
  | Some node_val =>
      match c with
      | CCmp _ OpEq lit => eval_eq case_sensitive node_val lit
      | CIn _ lits => eval_in case_sensitive node_val lits
      | _ => Ok true
      end
  end.

(** *** Evaluation of a condition on the incident edges

    The loop over [edges.values()] stops at the first edge that matches.
    The string branches rebind [value] to its lowercase form, which later
    iterations then see. *)

Definition edge_eq_step (case_sensitive : bool) (edge_val lit : scalar) : outcome (bool * scalar) :=
  if isinstance_int_float edge_val then
    match to_number rt lit with
    | Ok n => Ok (py_eq edge_val n, lit)
    | Raise ValueError => Ok (false, lit)
    | Raise e => Raise e
    end
  else if case_sensitive then Ok (py_eq edge_val lit, lit)
  else
    let* s := lit_lower lit in
    Ok (py_eq (VStr (lower (str_scalar rt edge_val))) (VStr s), VStr s).

Definition edge_ne_step (case_sensitive : bool) (edge_val lit : scalar) : outcome (bool * scalar) :=
  if isinstance_int_float edge_val then
    match to_number rt lit with
    | Ok n => Ok (negb (py_eq edge_val n), lit)
    | Raise ValueError => Ok (false, lit)
    | Raise e => Raise e
    end
  else if case_sensitive then Ok (negb (py_eq edge_val lit), lit)
  else
    let* s := lit_lower lit in
    Ok (negb (py_eq (VStr (lower (str_scalar rt edge_val))) (VStr s)), VStr s).

Definition edge_order_step (cmp : scalar -> scalar -> bool) (edge_val lit : scalar)
  : outcome (bool * scalar) :=
  if isinstance_int_float edge_val then
    let* n := to_number rt lit in Ok (cmp edge_val n, lit)
  else Ok (false, lit).

Definition edge_cmp_step (case_sensitive : bool) (op : cmp_op) (edge_val lit : scalar)
  : outcome (bool * scalar) :=
  match op with
  | OpEq => edge_eq_step case_sensitive edge_val lit
  | OpNe => edge_ne_step case_sensitive edge_val lit
  | OpGt => edge_order_step py_gt edge_val lit
  | OpLt => edge_order_step py_lt edge_val lit
  | OpGe => edge_order_step py_ge edge_val lit
  | OpLe => edge_order_step py_le edge_val lit
  end.

Fixpoint edge_cmp_loop (case_sensitive : bool) (edge_prop : string) (op : cmp_op)
    (lit : scalar) (es : list (gmap string scalar)) : outcome bool :=
  match es with
  | [] => Ok false
  | edge_data :: rest =>
      match edge_data !! edge_prop with
      | None => edge_cmp_loop case_sensitive edge_prop op lit rest
      | Some edge_val =>
          let* (m, lit') := edge_cmp_step case_sensitive op edge_val lit in
          if m then Ok true else edge_cmp_loop case_sensitive edge_prop op lit' rest
      end
  end.

Definition edge_in_step (case_sensitive : bool) (edge_val : scalar) (lits : list scalar)
  : outcome (bool * list scalar) :=
  if isinstance_int_float edge_val then
    let* nums := mapM (to_number rt) lits in Ok (existsb (py_eq edge_val) nums, lits)
  else if case_sensitive then Ok (existsb (py_eq edge_val) lits, lits)
  else
    let* vs := mapM (fun v => let* s := lit_lower v in Ok (VStr s)) lits in
    Ok (existsb (py_eq (VStr (lower (str_scalar rt edge_val)))) vs, vs).

Fixpoint edge_in_loop (case_sensitive : bool) (edge_prop : string)
    (lits : list scalar) (es : list (gmap string scalar)) : outcome bool :=
  match es with
  | [] => Ok false
  | edge_data :: rest =>
      match edge_data !! edge_prop with
      | None => edge_in_loop case_sensitive edge_prop lits rest
      | Some edge_val =>
          let* (m, lits') := edge_in_step case_sensitive edge_val lits in
          if m then Ok true else edge_in_loop case_sensitive edge_prop lits' rest
      end
  end.

(** [CONTAINS] leaves the loop with no match at the first value that is
    not a string. *)
Fixpoint edge_contains_loop (cast_non_strings case_sensitive : bool) (edge_prop lit : string)
    (es : list (gmap string scalar)) : bool :=
  match es with
  | [] => false
  | edge_data :: rest =>
      match edge_data !! edge_prop with
      | None => edge_contains_loop cast_non_strings case_sensitive edge_prop lit rest
      | Some edge_val =>
          if negb cast_non_strings && negb (isinstance_str edge_val) then false
          else if eval_contains cast_non_strings case_sensitive edge_val lit then true
          else edge_contains_loop cast_non_strings case_sensitive edge_prop lit rest
      end
  end.

Definition edge_regex_loop (edge_prop pattern : string) (es : list (gmap string scalar)) : bool :=
  existsb
    (fun edge_data =>
       match edge_data !! edge_prop with
       | Some (VStr s) => re_search rt pattern s
       | _ => false
       end) es.

Definition eval_edge_cond (cast_non_strings case_sensitive : bool)
    (node_edges : gmap string (gmap string scalar)) (c : condition) : outcome bool :=
  let edge_prop := str_drop 5 (cond_key c) in
  let es := (map_to_list node_edges).*2 in
  if decide (node_edges = ∅) then Ok false
  else
    match c with
    | CCmp _ op lit => edge_cmp_loop case_sensitive edge_prop op lit es
    | CIn _ lits => edge_in_loop case_sensitive edge_prop lits es
    | CContains _ lit => Ok (edge_contains_loop cast_non_strings case_sensitive edge_prop lit es)
    | CRegex _ pattern => Ok (edge_regex_loop edge_prop pattern es)
    end.

(** [for key, op, value in conditions: ...; if not matches_and: break] *)
Fixpoint eval_all (f : condition -> outcome bool) (conditions : list condition) : outcome bool :=
  match conditions with
  | [] => Ok true
  | c :: rest => let* m := f c in if m then eval_all f rest else Ok false
  end.

Definition eval_scan_cond (cast_non_strings case_sensitive : bool) (data : node) (c : condition)
  : outcome bool :=
  if startswith (cond_key c) "edge."
  then eval_edge_cond cast_non_strings case_sensitive (edges data) c
  else eval_node_cond cast_non_strings case_sensitive (value data) c.

(** *** Planning and execution *)

(** [str(value) if case_sensitive else str(value).lower()] *)
Definition probe_key (case_sensitive : bool) (lit : scalar) : string :=
  if case_sensitive then str_scalar rt lit else lower (str_scalar rt lit).

(** The candidate set of an AND-group; [None] when the first loop ends by
    [break] (an edge key, an operator other than [=] and [IN], or a key
    without an index) or when the group is empty: the full scan follows. *)
Fixpoint plan (case_sensitive : bool) (ix : gmap string (gmap string (gset string)))
    (conditions : list condition) (candidate_nodes : option (gset string))
  : option (gset string) :=
  match conditions with
  | [] => candidate_nodes
  | c :: rest =>
      if startswith (cond_key c) "edge." then None
      else
        match ix !! cond_key c with
        | None => None
        | Some idx =>
            let narrow (found : gset string) :=
              plan case_sensitive ix rest
                (Some (match candidate_nodes with
                       | None => found
                       | Some cand => cand ∩ found
                       end)) in
            match c with
            | CCmp _ OpEq lit => narrow (default ∅ (idx !! probe_key case_sensitive lit))
            | CIn _ lits =>
                narrow (fold_left
                          (fun acc v => acc ∪ default ∅ (idx !! probe_key case_sensitive v))
                          lits ∅)
            | _ => None
            end
        end
  end.

Definition result_row : Type := string * gmap string scalar.

(** [results] and [seen_ids] *)
Definition acc_t : Type := list result_row * gset string.

Fixpoint run_indexed (case_sensitive : bool) (ns : gmap string node)
    (conditions : list condition) (cands : list string) (acc : acc_t) : outcome acc_t :=
  match cands with
  | [] => Ok acc
  | node_id :: rest =>
      if decide (node_id ∈ acc.2) then run_indexed case_sensitive ns conditions rest acc
      else
        match ns !! node_id with
        | None => Raise KeyError
        | Some data =>
            let* m := eval_all (eval_indexed_cond case_sensitive (value data)) conditions in
            run_indexed case_sensitive ns conditions rest
              (if m then (acc.1 ++ [(node_id, value data)], acc.2 ∪ {[node_id]}) else acc)
        end
  end.

Fixpoint run_scan (cast_non_strings case_sensitive : bool)
    (conditions : list condition) (items : list (string * node)) (acc : acc_t) : outcome acc_t :=
  match items with
  | [] => Ok acc
  | (node_id, data) :: rest =>
      if decide (node_id ∈ acc.2)
      then run_scan cast_non_strings case_sensitive conditions rest acc
      else
        let* m := eval_all (eval_scan_cond cast_non_strings case_sensitive data) conditions in
        run_scan cast_non_strings case_sensitive conditions rest
          (if m then (acc.1 ++ [(node_id, value data)], acc.2 ∪ {[node_id]}) else acc)
  end.

Fixpoint run_groups (cast_non_strings case_sensitive : bool) (d : database)
    (or_conditions : list (list condition)) (acc : acc_t) : outcome acc_t :=
  match or_conditions with
  | [] => Ok acc
  | conditions :: rest =>
      let* acc' :=
        match plan case_sensitive (indexes d) conditions None with
        | Some cands =>
            run_indexed case_sensitive (nodes d) conditions (elements cands) acc
        | None =>
            run_scan cast_non_strings case_sensitive conditions (map_to_list (nodes d)) acc
        end in
      run_groups cast_non_strings case_sensitive d rest acc'
  end.

Definition query (query_string : string) (cast_non_strings case_sensitive : bool)
    (g : GraphDatabase) : outcome (list result_row) :=
  let* or_conditions := parse_query query_string in
  let* acc := run_groups cast_non_strings case_sensitive (db g) or_conditions ([], ∅) in
  Ok acc.1.

End Engine.

(** ** Merge import

    [DatabaseManager.import_database(..., merge=True)] works on the parsed
    content of the import files and on the engine state stored in the
    database files (every mutation saves, so that is the current state).
    Afterwards the active instance is re-opened: no transaction, no
    snapshot. *)

Section MergeImport.
Context (rt : Runtime).

(** The pruning of the edge properties of an imported node: [label] is
    kept as a string, [weight] when it is a number. *)
Definition prune_props (props : gmap string scalar) : gmap string scalar :=
  let with_label : gmap string scalar :=
    match props !! "label" with
    | Some l => {[ "label" := VStr (str_scalar rt l) ]}
    | None => ∅
    end in
  match props !! "weight" with
  | Some w => if isinstance_int_float w then <["weight" := w]> with_label else with_label
  | None => with_label
  end.

Definition validate_import (import_nodes_data : gmap string node) : gmap string node :=
  (fun nd => set_edges (prune_props <$> edges nd) nd) <$> import_nodes_data.

Definition merge_node (ns : gmap string node) (item : string * node) : gmap string node :=
  let '(node_id, node_data) := item in
  match ns !! node_id with
  | None => <[node_id := {| value := value node_data; edges := ∅ |}]> ns
  | Some n => <[node_id := set_value (value node_data ∪ value n) n]> ns
  end.

(** [nodes[node_id]["edges"][target_id] = props] and the reverse entry,
    when the target exists. *)
Definition merge_edge (node_id : string) (ns : gmap string node)
    (e : string * gmap string scalar) : gmap string node :=
  let '(target_id, edge_props) := e in
  match ns !! target_id with
  | None => ns
  | Some _ =>
      let ns1 := alter (fun n => set_edges (<[target_id := edge_props]> (edges n)) n) node_id ns in
      alter (fun n => set_edges (<[node_id := edge_props]> (edges n)) n) target_id ns1
  end.

Definition merge_edges_of (ns : gmap string node) (item : string * node) : gmap string node :=
  fold_left (merge_edge item.1) (map_to_list (edges item.2)) ns.

Definition merge_index (ix : gmap string (gmap string (gset string)))
    (item : string * gmap string (list string)) : gmap string (gmap string (gset string)) :=
  let '(attr, value_dict) := item in
  let idx0 := default ∅ (ix !! attr) in
  <[attr := fold_left
              (fun idx '(value_key, node_ids) =>
                 <[value_key := default ∅ (idx !! value_key) ∪ list_to_set node_ids]> idx)
              (map_to_list value_dict) idx0]> ix.

Definition import_merge (import_nodes_data : gmap string node)
    (import_indexes_data : gmap string (gmap string (list string)))
    (g : GraphDatabase) : GraphDatabase :=
  let items := map_to_list (validate_import import_nodes_data) in
  let ns1 := fold_left merge_node items (nodes (db g)) in
  let ns2 := fold_left merge_edges_of items ns1 in
  let ix := fold_left merge_index (map_to_list import_indexes_data) (indexes (db g)) in
  {| db := {| nodes := ns2; indexes := ix |}; transaction := None; transaction_history := [] |}.

End MergeImport.

(** ** Commands: the public mutating operations of an engine *)

Inductive command :=
| AddNode (attrs : gmap string scalar) (new_id : string)
| UpdateNode (key : string) (new_value : gmap string scalar)
| DeleteNode (key : string)
| AddEdge (key1 key2 : string) (label weight : option scalar)
| DeleteEdge (key1 key2 : string)
| CreateIndex (attribute : string)
| DropIndex (attribute : string)
| Begin
| Commit
| Rollback
| Stop.

Definition void {A} (r : GraphDatabase * outcome A) : GraphDatabase * outcome unit :=
  (r.1, match r.2 with Ok _ => Ok tt | Raise e => Raise e end).

Definition exec (rt : Runtime) (c : command) (g : GraphDatabase) : GraphDatabase * outcome unit :=
  match c with
  | AddNode attrs new_id => void (add_node rt attrs new_id g)
  | UpdateNode key new_value => update_node rt key new_value g
  | DeleteNode key => delete_node rt key g
  | AddEdge key1 key2 label weight => add_edge rt key1 key2 label weight g
  | DeleteEdge key1 key2 => delete_edge key1 key2 g
  | CreateIndex attribute => create_index rt attribute g
  | DropIndex attribute => drop_index attribute g
  | Begin => begin_transaction g
  | Commit => commit_transaction g
  | Rollback => rollback_transaction g
  | Stop => stop_transaction g
  end.

(** The state after a sequence of commands; a command that raises leaves
    the state it reached. *)
Definition run (rt : Runtime) (cs : list command) (g : GraphDatabase) : GraphDatabase :=
  fold_left (fun g c => (exec rt c g).1) cs g.

(** The vertex and edge mutations, which take a snapshot. *)
Definition is_data_mutation (c : command) : bool :=
  match c with
  | AddNode _ _ | UpdateNode _ _ | DeleteNode _ | AddEdge _ _ _ _ | DeleteEdge _ _ => true
  | _ => false
  end.

(** The states of an engine created over empty files. [uuid.uuid4()] gives
    an id that no node of the database has. A merge import reads the
    database files, which hold the database of the last state that was
    saved: a state of this set. *)
Inductive reachable (rt : Runtime) : GraphDatabase -> Prop :=
| reach_new : reachable rt new_GraphDatabase
| reach_add_node g attrs new_id :
    reachable rt g -> nodes (db g) !! new_id = None ->
    reachable rt (add_node rt attrs new_id g).1
| reach_exec g c :
    reachable rt g -> (forall attrs new_id, c <> AddNode attrs new_id) ->
    reachable rt (exec rt c g).1
| reach_import g import_nodes_data import_indexes_data :
    reachable rt g ->
    reachable rt (import_merge rt import_nodes_data import_indexes_data g).

(** ** Backup and export (DatabaseManager)

    The file system is a map from paths to contents; [registry] maps a
    database name to its base file name. [reformat] stands for
    [json.dump(json.load(text), indent=4)], [None] when the text is not
    JSON. An operation returns the file system it leaves behind. *)

Definition nodes_path (file : string) : string := replace file ".json" "_nodes.json".
Definition indexes_path (file : string) : string := replace file ".json" "_indexes.json".

Section Files.
Context (reformat : string -> option string).

Definition backup_database (registry : gmap string string) (db_name backup_file : string)
    (fs : gmap string string) : gmap string string * outcome unit :=
  match registry !! db_name with
  | None => (fs, Raise ValueError)
  | Some db_file =>
      let nodes_file := nodes_path db_file in
      let indexes_file := indexes_path db_file in
      match fs !! nodes_file with
      | None => (fs, Raise ValueError)
      | Some nodes_text =>
          let backup_nodes := nodes_path backup_file in
          let backup_indexes := indexes_path backup_file in
          if decide (is_Some (fs !! backup_nodes) ∨ is_Some (fs !! backup_indexes))
          then (fs, Raise ValueError)
          else
            let fs1 := <[backup_nodes := nodes_text]> fs in
            match fs1 !! indexes_file with
            | Some indexes_text => (<[backup_indexes := indexes_text]> fs1, Ok tt)
            | None => (fs1, Ok tt)
            end
      end
  end.

Definition export_database (registry : gmap string string) (db_name export_file : string)
    (fs : gmap string string) : gmap string string * outcome unit :=
  match registry !! db_name with
  | None => (fs, Raise ValueError)
  | Some db_file =>
      let nodes_file := nodes_path db_file in
      let indexes_file := indexes_path db_file in
      match fs !! nodes_file with
      | None => (fs, Raise ValueError)
      | Some nodes_text =>
          let export_nodes := nodes_path export_file in
          let export_indexes := indexes_path export_file in
          if decide (is_Some (fs !! export_nodes) ∨ is_Some (fs !! export_indexes))
          then (fs, Raise ValueError)
          else
            match reformat nodes_text with
            | None => (fs, Raise ValueError)
            | Some nodes_json =>
                let fs1 := <[export_nodes := nodes_json]> fs in
                match fs1 !! indexes_file with
                | Some indexes_text =>
                    match reformat indexes_text with
                    | None => (fs1, Raise ValueError)
                    | Some indexes_json => (<[export_indexes := indexes_json]> fs1, Ok tt)
                    end
                | None => (fs1, Ok tt)
                end
            end
      end
  end.

End Files.

(** ** Name search and listing *)

(** The truth value of a scalar: [if node_name]. *)
Definition truthy (v : scalar) : bool :=
  match v with
  | VStr s => negb (is_empty s)
  | VInt z => negb (Z.eqb z 0)
  | VFloat (S754_zero _) => false
  | VFloat _ => true
  | VBool b => b
  end.

(** The linear search of [find_by_name]: a name that is true but not a
    string has no [lower] and raises AttributeError. *)
Fixpoint find_by_name_scan (name : string) (items : list (string * node))
  : outcome (list string) :=
  match items with
  | [] => Ok []
  | (node_id, data) :: rest =>
      match value data !! "name" with
      | Some node_name =>
          if truthy node_name then
            match node_name with
            | VStr s =>
                let* matches := find_by_name_scan name rest in
                Ok (if str_in (lower name) (lower s) then node_id :: matches else matches)
            | _ => Raise AttributeError
            end
          else find_by_name_scan name rest
      | None => find_by_name_scan name rest
      end
  end.

Definition find_by_name (name : string) (g : GraphDatabase) : outcome (list string) :=
  match indexes (db g) !! "name" with
  | Some idx => Ok (elements (default ∅ (idx !! lower name)))
  | None => find_by_name_scan name (map_to_list (nodes (db g)))
  end.

Definition list_all_nodes (g : GraphDatabase) : gmap string (gmap string scalar) :=
  value <$> nodes (db g).


(** ** The query command of the shell

    [run_cli] joins the arguments with blanks, checks that the text starts
    with [where] and holds an operator, strips a trailing [CAST] or
    [CASE_SENSITIVE] word and calls [query]. *)

(** [s.split()]: the words between runs of blanks; [cur] is the current
    word, reversed. *)
Fixpoint split_words_go (s cur : string) : list string :=
  match s with
  | EmptyString => if is_empty cur then [] else [str_rev cur]
  | String c r =>
      if is_space c
      then (if is_empty cur then split_words_go r EmptyString
            else str_rev cur :: split_words_go r EmptyString)
      else split_words_go r (String c cur)
  end.

Definition split_words (s : string) : list string := split_words_go s EmptyString.

(** [" ".join(l)] *)
Definition join_words (l : list string) : string := String.concat " " l.

(** [re.search(r'(=|>|<|>=|<=|!=| IN | CONTAINS | REGEX )', s, re.IGNORECASE)] *)
Definition has_operator (s : string) : bool :=
  str_in "=" s || str_in ">" s || str_in "<" s || str_in ">=" s || str_in "<=" s
  || str_in "!=" s || str_in " IN " (upper s) || str_in " CONTAINS " (upper s)
  || str_in " REGEX " (upper s).

(** The query text and the flags [cast_non_strings], [case_sensitive]
    that the shell passes on. *)
Definition cli_query_flags (query_str : string) : outcome (string * bool * bool) :=
  if negb (startswith (lower query_str) "where") then Raise ValueError
  else if negb (has_operator query_str) then Raise ValueError
  else
    let query_parts := split_words query_str in
    match reverse query_parts with
    | [] => Raise ValueError (* no word: excluded by the [where] test *)
    | last_word :: before =>
        if String.eqb (upper last_word) "CAST"
        then Ok (join_words (reverse before), true, false)
        else if String.eqb (upper last_word) "CASE_SENSITIVE"
        then Ok (join_words (reverse before), false, true)
        else
          match before with
          | second_last :: before2 =>
              if String.eqb (upper second_last) "CAST"
                 && String.eqb (upper last_word) "CASE_SENSITIVE"
              then Ok (join_words (reverse before2), true, true)
              else Ok (query_str, false, false)
          | [] => Ok (query_str, false, false)
          end
    end.

Definition cli_query (rt : Runtime) (query_str : string) (g : GraphDatabase)
  : outcome (list result_row) :=
  let* (q, cast_non_strings, case_sensitive) := cli_query_flags query_str in
  query rt q cast_non_strings case_sensitive g.


(** ** The catalogue of databases

    [DatabaseManager] keeps a registry from database names to file names
    in a JSON file, and creates, opens, deletes and restores the two store
    files of a database. The file system is a map from paths to texts, as
    for [backup_database]. The JSON reader is a parameter: [json_ok text]
    tells whether [json.load] accepts the text; [index_shape text] is the
    exception, if any, raised when the lists of a parsed index file are
    turned into sets; [dump_registry] is [json.dump] of the registry and
    [load_registry] is [json.load] of the registry text, the items of the
    object in their order, as [_save_registry] wrote them. The engine
    object kept in [active_db_instance] is the state of the first part;
    here only the files that its constructor touches are followed. *)

Inductive io_exn := IOError | Py (e : exn).

Inductive io_outcome := Returns | Raises (e : io_exn).

Definition io_of {A} (r : outcome A) : io_outcome :=
  match r with
  | Ok _ => Returns
  | Raise e => Raises (Py e)
  end.

Record DatabaseManager := {
  registry_file : string;
  registry : gmap string string;
  current_db : option string
}.

Definition set_registry (r : gmap string string) (m : DatabaseManager) : DatabaseManager :=
  {| registry_file := registry_file m; registry := r; current_db := current_db m |}.

Definition set_current_db (c : option string) (m : DatabaseManager) : DatabaseManager :=
  {| registry_file := registry_file m; registry := registry m; current_db := c |}.

(** [os.path.exists(p) and os.path.getsize(p) > 0], with the text. *)
Definition nonempty_file (fs : gmap string string) (p : string) : option string :=
  match fs !! p with
  | Some text => if is_empty text then None else Some text
  | None => None
  end.

(** [if os.path.exists(p): os.remove(p)] *)
Definition remove_if_exists (p : string) (fs : gmap string string) : gmap string string :=
  match fs !! p with
  | Some _ => delete p fs
  | None => fs
  end.

(** [shutil.copy2(src, dst)]: fails on a missing source and when both
    paths are the same file. *)
Definition copy2 (src dst : string) (fs : gmap string string) : option (gmap string string) :=
  if decide (src = dst) then None
  else match fs !! src with
       | Some text => Some (<[dst := text]> fs)
       | None => None
       end.

Section Catalogue.
Context (json_ok : string -> bool) (index_shape : string -> option exn).
Context (dump_registry : gmap string string -> string).
Context (load_registry : string -> option (list (string * string))).

(** [GraphDatabase.__init__], on the files: a missing, empty or unreadable
    store file is replaced by the text of the empty object. *)
Definition GraphDatabase_init (file : string) (fs : gmap string string)
  : gmap string string * outcome unit :=
  let nodes_file := nodes_path file in
  let indexes_file := indexes_path file in
  let fs1 :=
    match nonempty_file fs nodes_file with
    | Some text => if json_ok text then fs else <[nodes_file := "{}"]> fs
    | None => <[nodes_file := "{}"]> fs
    end in
  match nonempty_file fs1 indexes_file with
  | Some text =>
      if json_ok text
      then match index_shape text with
           | Some e => (fs1, Raise e)
           | None => (fs1, Ok tt)
           end
      else (<[indexes_file := "{}"]> fs1, Ok tt)
  | None => (<[indexes_file := "{}"]> fs1, Ok tt)
  end.

Definition _load_registry (file : string) (fs : gmap string string) : list (string * string) :=
  match nonempty_file fs file with
  | Some text => default [] (load_registry text)
  | None => []
  end.

Definition _save_registry (m : DatabaseManager) (fs : gmap string string) : gmap string string :=
  <[registry_file m := dump_registry (registry m)]> fs.

(** The loop of [DatabaseManager.__init__]: the names to remove. A
    [ValueError] of the constructor is caught, any other exception ends
    the loop. *)
Fixpoint validate_databases (items : list (string * string)) (fs : gmap string string)
  : gmap string string * outcome (list string) :=
  match items with
  | [] => (fs, Ok [])
  | (db_name, db_file) :: rest =>
      if decide (is_Some (fs !! nodes_path db_file) \/ is_Some (fs !! indexes_path db_file))
      then
        match GraphDatabase_init db_file fs with
        | (fs1, Ok _) => validate_databases rest fs1
        | (fs1, Raise ValueError) =>
            let (fs2, r) := validate_databases rest fs1 in
            (fs2, let* invalid_dbs := r in Ok (db_name :: invalid_dbs))
        | (fs1, Raise e) => (fs1, Raise e)
        end
      else
        let (fs2, r) := validate_databases rest fs in
        (fs2, let* invalid_dbs := r in Ok (db_name :: invalid_dbs))
  end.

Definition DatabaseManager_init (file : string) (fs : gmap string string)
  : gmap string string * outcome DatabaseManager :=
  let items := _load_registry file fs in
  match validate_databases items fs with
  | (fs1, Raise e) => (fs1, Raise e)
  | (fs1, Ok invalid_dbs) =>
      let m := {| registry_file := file;
                  registry := foldr delete (list_to_map items) invalid_dbs;
                  current_db := None |} in
      match invalid_dbs with
      | [] => (fs1, Ok m)
      | _ :: _ => (_save_registry m fs1, Ok m)
      end
  end.

Definition create_database (db_name : string) (m : DatabaseManager) (fs : gmap string string)
  : DatabaseManager * gmap string string * io_outcome :=
  match registry m !! db_name with
  | Some _ => (m, fs, Raises (Py ValueError))
  | None =>
      let file_name := (db_name ++ ".json")%string in
      let m1 := set_registry (<[db_name := file_name]> (registry m)) m in
      let fs1 := _save_registry m1 fs in
      let (fs2, r) := GraphDatabase_init file_name fs1 in
      (m1, fs2, io_of r)
  end.

Definition delete_database (db_name : string) (m : DatabaseManager) (fs : gmap string string)
  : DatabaseManager * gmap string string * io_outcome :=
  match registry m !! db_name with
  | None => (m, fs, Raises (Py ValueError))
  | Some file_name =>
      let nodes_file := nodes_path file_name in
      let indexes_file := indexes_path file_name in
      let fs1 := remove_if_exists nodes_file fs in
      let fs2 := remove_if_exists indexes_file fs1 in
      let m1 := set_registry (delete db_name (registry m)) m in
      let fs3 := _save_registry m1 fs2 in
      (if decide (current_db m = Some db_name) then set_current_db None m1 else m1,
       fs3, Returns)
  end.

Definition use_database (db_name : string) (m : DatabaseManager) (fs : gmap string string)
  : DatabaseManager * gmap string string * io_outcome :=
  match registry m !! db_name with
  | None => (m, fs, Raises (Py ValueError))
  | Some db_file =>
      let m1 := set_current_db (Some db_name) m in
      let (fs1, r) := GraphDatabase_init db_file fs in
      (m1, fs1, io_of r)
  end.

Definition restore_database (db_name backup_file : string) (m : DatabaseManager)
    (fs : gmap string string) : DatabaseManager * gmap string string * io_outcome :=
  match registry m !! db_name with
  | None => (m, fs, Raises (Py ValueError))
  | Some db_file =>
      let backup_nodes := nodes_path backup_file in
      let backup_indexes := indexes_path backup_file in
      match fs !! backup_nodes with
      | None => (m, fs, Raises (Py ValueError))
      | Some nodes_text =>
          let nodes_file := nodes_path db_file in
          let indexes_file := indexes_path db_file in
          let reopen (fs2 : gmap string string) :=
            if decide (current_db m = Some db_name)
            then let (fs3, r) := GraphDatabase_init db_file fs2 in (m, fs3, io_of r)
            else (m, fs2, Returns) in
          if negb (json_ok nodes_text) then (m, fs, Raises (Py ValueError))
          else if match fs !! backup_indexes with
                  | Some indexes_text => negb (json_ok indexes_text)
                  | None => false
                  end
          then (m, fs, Raises (Py ValueError))
          else
            match copy2 backup_nodes nodes_file fs with
            | None => (m, fs, Raises IOError)
            | Some fs1 =>
                match fs1 !! backup_indexes with
                | Some _ =>
                    match copy2 backup_indexes indexes_file fs1 with
                    | None => (m, fs1, Raises IOError)
                    | Some fs2 => reopen fs2
                    end
                | None => reopen (remove_if_exists indexes_file fs1)
                end
            end
      end
  end.

End Catalogue.

(** * Specification

    The vocabulary of the statements: symmetry of the adjacency, paths,
    the invariant of the search loop, and the sample data on which the
    engine is evaluated. *)

(** ** Symmetric adjacency *)

(** The property record stored at [a] for the neighbour [b]. *)
Definition edge_at (ns : gmap string node) (a b : string) : option (gmap string scalar) :=
  match ns !! a with
  | Some n => edges n !! b
  | None => None
  end.

Definition adjacency_symmetric (ns : gmap string node) : Prop :=
  forall a b, edge_at ns a b = edge_at ns b a.

(** Every database held by an engine, live or snapshot, is symmetric. *)
Definition symmetric_state (g : GraphDatabase) : Prop :=
  adjacency_symmetric (nodes (db g))
  /\ Forall (fun d => adjacency_symmetric (nodes d)) (transaction_history g).

(** ** Paths *)

(** [v] is a neighbour of [u]. *)
Definition adjacent (ns : gmap string node) (u v : string) : Prop :=
  exists n, ns !! u = Some n /\ is_Some (edges n !! v).

(** Every neighbour is a vertex of the database. *)
Definition neighbours_exist (ns : gmap string node) : Prop :=
  forall u v, adjacent ns u v -> is_Some (ns !! v).

(** [p] starts at [a], ends at [b], and consecutive vertices are adjacent. *)
Definition is_path (ns : gmap string node) (a b : string) (p : list string) : Prop :=
  head p = Some a /\ last p = Some b
  /\ forall i x y, p !! i = Some x -> p !! S i = Some y -> adjacent ns x y.

(** The paths as the search builds them, one vertex appended at a time. *)
Inductive walk (ns : gmap string node) (a : string) : string -> list string -> Prop :=
| walk_start : walk ns a a [a]
| walk_step u v p : walk ns a u p -> adjacent ns u v -> walk ns a v (p ++ [v]).

(** [L] is the length of the paths at the front of the queue. *)
Record bfs_inv (ns : gmap string node) (a b : string) (L : nat) (V : gset string) (Q : list (string * list string)) : Prop := {
  inv_pos : 1 <= L;
  inv_walks : forall k p, (k, p) ∈ Q -> walk ns a k p /\ is_Some (ns !! k);
  inv_sorted : exists Q1 Q2, Q = Q1 ++ Q2
                 /\ (forall k p, (k, p) ∈ Q1 -> length p = L)
                 /\ (forall k p, (k, p) ∈ Q2 -> length p = S L);
  inv_end : b ∉ V;
  inv_near : forall x p, walk ns a x p -> length p < L -> x ∈ V;
  inv_level : forall x p, walk ns a x p -> length p = L ->
                x ∈ V \/ exists q, (x, q) ∈ Q /\ length q = L;
  inv_frontier : forall u v, u ∈ V -> adjacent ns u v -> v ∈ V \/ exists q, (v, q) ∈ Q
}.

(** ** Sample data *)

Definition tx_open : GraphDatabase := (begin_transaction new_GraphDatabase).1.

Definition add_d : command := AddNode {[ "name" := VStr "D" ]} "d".

Definition v1_attrs : gmap string scalar :=
  {[ "name" := VStr "Alice"; "age" := VInt 30; "flag" := VBool true ]}.

(** One vertex [v1], no index. *)
Definition one_vertex (rt : Runtime) : GraphDatabase :=
  (add_node rt v1_attrs "v1" new_GraphDatabase).1.

(** The same vertex, added after [create_index("name")]. *)
Definition one_vertex_indexed (rt : Runtime) : GraphDatabase :=
  (add_node rt v1_attrs "v1" (create_index rt "name" new_GraphDatabase).1).1.

(** The ids of the rows of a query result. *)
Definition result_ids (r : outcome (list result_row)) : outcome (list string) :=
  match r with
  | Ok rows => Ok rows.*1
  | Raise e => Raise e
  end.

(** Alice knows Bob; Carol is on her own. *)
Definition demo_graph : GraphDatabase :=
  (exec plain_runtime (AddEdge "a" "b" (Some (VStr "knows")) (Some (VInt 1)))
     (add_node plain_runtime {[ "name" := VStr "Carol" ]} "c"
        (add_node plain_runtime {[ "name" := VStr "Bob"; "age" := VInt 25 ]} "b"
           (add_node plain_runtime {[ "name" := VStr "Alice"; "age" := VInt 30 ]} "a"
              new_GraphDatabase).1).1).1).1.

Definition demo_registry : gmap string string := {[ "x" := "x.json" ]}.
Definition demo_files : gmap string string :=
  {[ "x_nodes.json" := "{}"; "x_indexes.json" := "{}"; "bak_indexes.json" := "{}" ]}.

(** ** Exact indexes *)

(** The ids listed by an index under a key. *)
Definition index_ids (idx : gmap string (gset string)) (k : string) : gset string :=
  default ∅ (idx !! k).

(** A vertex carries the attribute [a] with a value whose text is [k]. *)
Definition has_text (rt : Runtime) (ns : gmap string node) (a k id : string) : Prop :=
  exists n v, ns !! id = Some n /\ value n !! a = Some v /\ str_scalar rt v = k.

(** The index on [a], when there is one, lists a vertex under a key
    exactly when the vertex carries [a] with that text. *)
Definition index_exact (rt : Runtime) (d : database) (a : string) : Prop :=
  forall idx, indexes d !! a = Some idx ->
    forall k id, id ∈ index_ids idx k <-> has_text rt (nodes d) a k id.

Definition indexes_exact (rt : Runtime) (d : database) : Prop :=
  forall a, index_exact rt d a.

(** One vertex with an integer attribute, added after [create_index("age")]. *)
Definition indexed_ages : GraphDatabase :=
  (add_node plain_runtime {[ "age" := VInt 30 ]} "n1"
     (create_index plain_runtime "age" new_GraphDatabase).1).1.

(** ** Self-loops *)

(** No vertex lists itself as a neighbour. *)
Definition no_self_loops (ns : gmap string node) : Prop :=
  forall a, edge_at ns a a = None.

Definition loop_free_state (g : GraphDatabase) : Prop :=
  no_self_loops (nodes (db g))
  /\ Forall (fun d => no_self_loops (nodes d)) (transaction_history g).

(** ** Query results *)

(** The rows found so far are distinct vertices of the database, paired
    with their attribute maps, and [seen_ids] holds exactly their ids. *)
Definition rows_ok (ns : gmap string node) (acc : acc_t) : Prop :=
  NoDup acc.1.*1
  /\ (forall id, id ∈ acc.2 <-> id ∈ acc.1.*1)
  /\ (forall id row, (id, row) ∈ acc.1 -> exists n, ns !! id = Some n /\ value n = row).

Definition alice_attrs : gmap string scalar :=
  {[ "name" := VStr "Alice"; "age" := VInt 30 ]}.

(** A store file after the constructor looked at it: kept when it holds
    acceptable text, otherwise reset to the empty object. *)
Definition kept_or_reset (json_ok : string -> bool) (p : string) (fs : gmap string string)
  : gmap string string :=
  match nonempty_file fs p with
  | Some text => if json_ok text then fs else <[p := "{}"]> fs
  | None => <[p := "{}"]> fs
  end.

(** A JSON reader, a registry writer and a manager for the examples. *)
Definition braces_ok (text : string) : bool := startswith text "{".

Definition no_shape_error (text : string) : option exn := None.

Definition names_of (r : gmap string string) : string :=
  ("{" ++ String.concat "," (map fst (map_to_list r)) ++ "}")%string.

Definition two_names (text : string) : option (list (string * string)) :=
  if String.eqb text "{x,y}" then Some [("x", "x.json"); ("y", "y.json")]
  else if braces_ok text then Some [] else None.

Definition demo_manager : DatabaseManager :=
  {| registry_file := "registry.json"; registry := demo_registry; current_db := None |}.

(** * Properties *)

(** ** The string primitives and the parser on examples *)

Example re_split_or :
  re_split "OR" "age > 3  or name = x OR y" = ["age > 3"; "name = x"; "y"].
Proof. reflexivity. Qed.

Example replace_json : replace "x.json" ".json" "_nodes.json" = "x_nodes.json".
Proof. reflexivity. Qed.

Example int_of_str_ex : int_of_str " -1_000 " = Some (-1000)%Z /\ int_of_str "true" = None
                        /\ str_of_Z (-42) = "-42" /\ str_of_Z 0 = "0".
Proof. repeat split. Qed.

Example py_eq_true_one : py_eq (VBool true) (VInt 1) = true.
Proof. reflexivity. Qed.

Example py_gt_true_zero : py_gt (VBool true) (VInt 0) = true.
Proof. reflexivity. Qed.

Example py_eq_half :
  py_eq (VFloat (S754_finite false 3 (-1))) (VInt 1) = false
  /\ py_lt (VInt 1) (VFloat (S754_finite false 3 (-1))) = true
  /\ py_eq (VFloat (S754_finite false 4 (-1))) (VInt 2) = true.
Proof. repeat split. Qed.

Example parse_simple :
  parse_query plain_runtime "WHERE age > 28 or name = Bob AND  city IN (a, b)"
  = Ok [[CCmp "age" OpGt (VStr "28")];
        [CCmp "name" OpEq (VStr "Bob"); CIn "city" [VStr "a"; VStr "b"]]].
Proof. reflexivity. Qed.

(** ** Adjacency is symmetric *)

Lemma edge_at_alter (f : gmap string (gmap string scalar) -> gmap string (gmap string scalar))
    (k : string) (ns : gmap string node) (a b : string) :
  edge_at (alter (fun n => set_edges (f (edges n)) n) k ns) a b
  = if decide (a = k)
    then match ns !! k with Some n => f (edges n) !! b | None => None end
    else edge_at ns a b.
Proof.
  unfold edge_at. rewrite lookup_alter.
  destruct (decide (a = k)) as [->|Hne]; destruct (decide _); try congruence.
  all: destruct (ns !! _); reflexivity.
Qed.

Lemma edge_at_insert_value (k : string) (n : node) (v : gmap string scalar)
    (ns : gmap string node) (a b : string) :
  ns !! k = Some n ->
  edge_at (<[k := set_value v n]> ns) a b = edge_at ns a b.
Proof.
  intros Hk. unfold edge_at. rewrite lookup_insert.
  destruct (decide (k = a)) as [->|Hne]; [now rewrite Hk | reflexivity].
Qed.

Lemma edge_at_closed (ns : gmap string node) (a b : string) :
  adjacency_symmetric ns -> ns !! b = None -> edge_at ns a b = None.
Proof. intros Hs Hb. rewrite Hs. unfold edge_at. now rewrite Hb. Qed.

Lemma symmetric_snapshot (g : GraphDatabase) :
  symmetric_state g -> symmetric_state (snapshot g).
Proof.
  intros [Hd Hh]. unfold snapshot.
  destruct (transaction g) as [[]|]; split; simpl; auto.
  apply Forall_app; split; auto.
Qed.

Lemma snapshot_db (g : GraphDatabase) : db (snapshot g) = db g.
Proof. unfold snapshot. now destruct (transaction g) as [[]|]. Qed.

(** Writing both directions of an edge keeps the adjacency symmetric. *)
Lemma symmetric_write_pair (ns : gmap string node) (x y : string) (p : gmap string scalar) :
  is_Some (ns !! x) -> is_Some (ns !! y) -> adjacency_symmetric ns ->
  adjacency_symmetric
    (alter (fun n => set_edges (<[x := p]> (edges n)) n) y
       (alter (fun n => set_edges (<[y := p]> (edges n)) n) x ns)).
Proof.
  intros [nx Hx] [ny Hy] Hs a b.
  rewrite !(edge_at_alter (fun es => <[x := p]> es)).
  rewrite !lookup_alter, !(edge_at_alter (fun es => <[y := p]> es)).
  specialize (Hs a b) as Hab. unfold edge_at in *.
  repeat (case_decide; subst; simpl in * );
    rewrite ?Hx, ?Hy in *; simpl;
    rewrite ?lookup_insert; repeat (case_decide; subst; simpl in * );
    try congruence; auto.
  all: try (specialize (Hs a x); unfold edge_at in Hs; rewrite ?Hx, ?Hy in Hs; destruct (ns !! a); simpl in *; congruence).
Qed.

Lemma elem_of_keys {A} (m : gmap string A) (k : string) :
  k ∈ (map_to_list m).*1 <-> is_Some (m !! k).
Proof.
  rewrite list_elem_of_fmap. split.
  - intros [[k' v] [-> Hin]]. apply elem_of_map_to_list in Hin. eauto.
  - intros [v Hv]. exists (k, v). split; [reflexivity|]. now apply elem_of_map_to_list.
Qed.

(** Under symmetry the loop of [delete_node] over the neighbours never
    raises, and removes exactly the entries that point to [key]. *)
Lemma unlink_all_ok (key : string) (targets : list string) (ns : gmap string node) :
  NoDup targets ->
  (forall t, t ∈ targets -> is_Some (edge_at ns t key)) ->
  exists ns', unlink_all key targets ns = (ns', Ok tt)
    /\ (forall a b, edge_at ns' a b
                    = if decide (a ∈ targets /\ b = key) then None else edge_at ns a b).
Proof.
  revert ns. induction targets as [|t rest IH]; intros ns Hnd Hall; simpl.
  - exists ns. split; [reflexivity|]. intros a b.
    destruct (decide (a ∈ [] /\ b = key)) as [[H _]|_]; [inversion H|reflexivity].
  - apply NoDup_cons in Hnd as [Hnotin Hnd].
    assert (Ht : is_Some (edge_at ns t key)) by (apply Hall; left).
    unfold edge_at in Ht. destruct (ns !! t) as [nt|] eqn:Hnt; [|now destruct Ht as [? ?]].
    destruct (decide (is_Some (edges nt !! key))) as [_|Hno]; [|contradiction].
    set (ns1 := <[t := set_edges (delete key (edges nt)) nt]> ns).
    assert (Hat1 : forall a b, edge_at ns1 a b
               = if decide (a = t /\ b = key) then None else edge_at ns a b).
    { intros a b. unfold edge_at, ns1. rewrite lookup_insert.
      destruct (decide (t = a)) as [<-|Hne]; simpl.
      - rewrite Hnt, lookup_delete.
        destruct (decide (key = b)) as [<-|Hkb]; case_decide as H; try reflexivity.
        + exfalso. apply H. auto.
        + destruct H as [_ ->]. contradiction.
      - case_decide as H; [destruct H as [-> _]; contradiction | reflexivity]. }
    destruct (IH ns1 Hnd) as (ns' & Hrun & Hat).
    { intros u Hu. rewrite Hat1. case_decide as H.
      - destruct H as [-> _]. contradiction.
      - apply Hall. now right. }
    exists ns'. split; [exact Hrun|].
    intros a b. rewrite Hat, Hat1.
    destruct (decide (a ∈ rest /\ b = key)) as [H1|H1],
      (decide (a = t /\ b = key)) as [H2|H2],
      (decide (a ∈ t :: rest /\ b = key)) as [H3|H3]; try reflexivity; exfalso.
    all: rewrite elem_of_cons in H3; tauto.
Qed.

Lemma edge_at_delete (k : string) (ns : gmap string node) (a b : string) :
  edge_at (delete k ns) a b = if decide (a = k) then None else edge_at ns a b.
Proof.
  unfold edge_at. rewrite lookup_delete.
  destruct (decide (k = a)) as [->|Hne]; case_decide; congruence.
Qed.

Lemma symmetric_add_node (rt : Runtime) (attrs : gmap string scalar) (new_id : string)
    (g : GraphDatabase) :
  nodes (db g) !! new_id = None -> symmetric_state g ->
  symmetric_state (add_node rt attrs new_id g).1.
Proof.
  intros Hfresh Hg. unfold add_node.
  case_decide; [exact Hg|]. simpl.
  apply symmetric_snapshot in Hg as [Hd Hh].
  rewrite snapshot_db in *. split; [|exact Hh]. simpl.
  intros a b. unfold edge_at. rewrite !lookup_insert.
  repeat case_decide; subst; simpl; try reflexivity.
  - rewrite lookup_empty. symmetry.
    apply (edge_at_closed _ b a Hd Hfresh).
  - rewrite lookup_empty. apply (edge_at_closed _ a b Hd Hfresh).
  - apply Hd.
Qed.

Lemma symmetric_update_node (rt : Runtime) (key : string) (new_value : gmap string scalar)
    (g : GraphDatabase) :
  symmetric_state g -> symmetric_state (update_node rt key new_value g).1.
Proof.
  intros Hg. unfold update_node.
  destruct (nodes (db g) !! key) as [n|] eqn:Hn; [|exact Hg].
  case_decide; [exact Hg|]. simpl.
  apply symmetric_snapshot in Hg as [Hd Hh].
  rewrite snapshot_db in *. split; [|exact Hh]. simpl.
  intros a b. rewrite !(edge_at_insert_value _ _ _ _ _ _ Hn). apply Hd.
Qed.

Lemma symmetric_delete_node (rt : Runtime) (key : string) (g : GraphDatabase) :
  symmetric_state g -> symmetric_state (delete_node rt key g).1.
Proof.
  intros Hg. unfold delete_node.
  destruct (nodes (db g) !! key) as [nd|] eqn:Hn; [|exact Hg].
  apply symmetric_snapshot in Hg as [Hd Hh].
  rewrite snapshot_db in *.
  destruct (unlink_all_ok key (map_to_list (edges nd)).*1 (nodes (db g))) as (ns' & Hrun & Hat).
  { apply NoDup_fst_map_to_list. }
  { intros t Ht. apply elem_of_keys in Ht. rewrite <- Hd. unfold edge_at. now rewrite Hn. }
  rewrite Hrun. simpl. split; [|exact Hh]. simpl.
  assert (Hnb : forall x, x ∉ (map_to_list (edges nd)).*1 -> edge_at (nodes (db g)) x key = None).
  { intros x Hx. rewrite Hd. unfold edge_at. rewrite Hn.
    destruct (edges nd !! x) eqn:E; [|reflexivity].
    exfalso. apply Hx, elem_of_keys. eauto. }
  intros a b. rewrite !edge_at_delete, !Hat.
  repeat case_decide; subst; try reflexivity; try tauto.
  - symmetry. apply Hnb. tauto.
  - apply Hnb. tauto.
  - apply Hd.
Qed.

Lemma symmetric_add_edge (rt : Runtime) (key1 key2 : string) (label weight : option scalar)
    (g : GraphDatabase) :
  symmetric_state g -> symmetric_state (add_edge rt key1 key2 label weight g).1.
Proof.
  intros Hg. unfold add_edge.
  destruct (nodes (db g) !! key1) as [n1|] eqn:H1; [|exact Hg].
  destruct (nodes (db g) !! key2) as [n2|] eqn:H2; [|exact Hg].
  case_decide; [exact Hg|]. case_decide; [exact Hg|].
  pose proof (symmetric_snapshot g Hg) as [Hd Hh].
  rewrite snapshot_db in *.
  destruct weight as [w|]; [destruct (isinstance_int_float w)|]; simpl;
    try (split; [|exact Hh]; simpl; rewrite ?snapshot_db;
         apply symmetric_write_pair; eauto).
  split; [now rewrite snapshot_db | exact Hh].
Qed.

Lemma symmetric_delete_edge (key1 key2 : string) (g : GraphDatabase) :
  symmetric_state g -> symmetric_state (delete_edge key1 key2 g).1.
Proof.
  intros Hg. unfold delete_edge.
  destruct (nodes (db g) !! key1) as [n1|] eqn:H1; [|exact Hg].
  destruct (nodes (db g) !! key2) as [n2|] eqn:H2; [|exact Hg].
  destruct (decide (is_Some (edges n1 !! key2))) as [He|]; [|exact Hg].
  pose proof (symmetric_snapshot g Hg) as [Hd Hh].
  rewrite snapshot_db in *.
  set (ns1 := alter (fun n => set_edges (delete key2 (edges n)) n) key1 (nodes (db g))).
  assert (Hat1 : forall a b, edge_at ns1 a b
             = if decide (a = key1 /\ b = key2) then None else edge_at (nodes (db g)) a b).
  { intros a b. unfold ns1. rewrite (edge_at_alter (fun es => delete key2 es)).
    unfold edge_at. rewrite H1, lookup_delete.
    destruct (decide (a = key1)) as [->|], (decide (key2 = b)) as [->|];
      destruct (decide (_ /\ _)) as [[? ?]|Hn]; subst; try congruence; try tauto.
    now rewrite H1. }
  destruct (ns1 !! key2) as [m2|] eqn:Hm2.
  - destruct (decide (is_Some (edges m2 !! key1))) as [He2|He2]; simpl.
    + split; [|exact Hh]. simpl. intros a b.
      rewrite !(edge_at_alter (fun es => delete key1 es)), !Hm2.
      assert (Hk : forall x, edges m2 !! x = edge_at ns1 key2 x).
      { intros x. unfold edge_at. now rewrite Hm2. }
      rewrite !lookup_delete, !Hk, !Hat1.
      pose proof (Hd a b) as Hab. pose proof (Hd key1 key2) as H12.
      repeat (destruct (decide _) as [?|?]); subst; try tauto; try congruence.
      all: try (destruct a0; congruence). all: try (destruct a; congruence).
    + split; [|exact Hh]. simpl. intros a b. rewrite !Hat1.
      assert (Hk : edges m2 !! key1 = edge_at ns1 key2 key1).
      { unfold edge_at. now rewrite Hm2. }
      rewrite Hk, Hat1 in He2.
      assert (Hs : is_Some (edge_at (nodes (db g)) key2 key1)).
      { rewrite <- Hd. unfold edge_at. now rewrite H1. }
      destruct (decide (key2 = key1 /\ key1 = key2)) as [[E _]|Hn]; [|contradiction].
      subst key2. pose proof (Hd a b) as Hab.
      destruct (decide (a = key1 /\ b = key1)) as [[Ea Eb]|Hn1],
        (decide (b = key1 /\ a = key1)) as [[Eb' Ea']|Hn2]; subst; tauto || congruence.
  - exfalso. unfold ns1 in Hm2. rewrite lookup_alter in Hm2.
    destruct (decide (key1 = key2)); subst; rewrite ?H1, ?H2 in Hm2; discriminate.
Qed.

Lemma symmetric_exec (rt : Runtime) (c : command) (g : GraphDatabase) :
  (forall attrs new_id, c <> AddNode attrs new_id) ->
  symmetric_state g -> symmetric_state (exec rt c g).1.
Proof.
  intros Hc Hg. destruct c; simpl.
  - now destruct (Hc attrs new_id).
  - now apply symmetric_update_node.
  - now apply symmetric_delete_node.
  - now apply symmetric_add_edge.
  - now apply symmetric_delete_edge.
  - unfold create_index. repeat case_match; exact Hg.
  - unfold drop_index. repeat case_match; exact Hg.
  - unfold begin_transaction. destruct Hg. case_match; split; simpl; auto.
  - unfold commit_transaction. destruct Hg as [Hd Hh]. case_match; split; simpl; auto.
    destruct (transaction_history g) as [|d l] using rev_ind; [constructor|].
    rewrite removelast_last. apply Forall_app in Hh. tauto.
  - unfold rollback_transaction. destruct Hg as [Hd Hh].
    case_match; [split; auto|].
    destruct (last (transaction_history g)) as [d|] eqn:Hl; [|split; auto].
    apply last_Some in Hl as [l Hl]. rewrite Hl in *. rewrite removelast_last.
    apply Forall_app in Hh as [Hh Hlast]. inversion Hlast; subst. split; auto.
  - unfold stop_transaction. destruct Hg. case_match; split; simpl; auto.
Qed.

Lemma merge_node_spec (ns : gmap string node) (item : string * node) :
  adjacency_symmetric ns ->
  adjacency_symmetric (merge_node ns item)
  /\ is_Some (merge_node ns item !! item.1)
  /\ (forall k, is_Some (ns !! k) -> is_Some (merge_node ns item !! k)).
Proof.
  intros Hs. destruct item as [node_id node_data]. unfold merge_node. simpl.
  destruct (ns !! node_id) as [n|] eqn:Hn.
  - split; [|split].
    + intros a b. rewrite !(edge_at_insert_value _ _ _ _ _ _ Hn). apply Hs.
    + rewrite lookup_insert_eq. eauto.
    + intros k Hk. rewrite lookup_insert. case_decide; eauto.
  - split; [|split].
    + intros a b. unfold edge_at. rewrite !lookup_insert.
      destruct (decide (node_id = a)) as [<-|Ha], (decide (node_id = b)) as [<-|Hb];
        simpl; rewrite ?lookup_empty; try reflexivity.
      * symmetry. apply (edge_at_closed _ b node_id Hs Hn).
      * apply (edge_at_closed _ a node_id Hs Hn).
      * apply Hs.
    + rewrite lookup_insert_eq. eauto.
    + intros k Hk. rewrite lookup_insert. case_decide; eauto.
Qed.

Lemma merge_nodes_spec (items : list (string * node)) (ns : gmap string node) :
  adjacency_symmetric ns ->
  adjacency_symmetric (fold_left merge_node items ns)
  /\ (forall k, (k ∈ items.*1 \/ is_Some (ns !! k)) ->
                is_Some (fold_left merge_node items ns !! k)).
Proof.
  revert ns. induction items as [|item rest IH]; intros ns Hs; simpl.
  - split; [exact Hs|]. intros k [Hk|Hk]; [inversion Hk | exact Hk].
  - destruct (merge_node_spec ns item Hs) as (Hs1 & Hid & Hkeep).
    destruct (IH _ Hs1) as [Hs2 Hdom]. split; [exact Hs2|].
    intros k [Hk|Hk]; apply Hdom.
    + apply elem_of_cons in Hk as [->|Hk]; [right; exact Hid | left; exact Hk].
    + right. now apply Hkeep.
Qed.

Lemma merge_edge_spec (node_id : string) (ns : gmap string node)
    (e : string * gmap string scalar) :
  is_Some (ns !! node_id) -> adjacency_symmetric ns ->
  adjacency_symmetric (merge_edge node_id ns e)
  /\ (forall k, is_Some (ns !! k) -> is_Some (merge_edge node_id ns e !! k)).
Proof.
  intros Hid Hs. destruct e as [target_id props]. unfold merge_edge.
  destruct (ns !! target_id) as [nt|] eqn:Ht; [|auto].
  split.
  - apply symmetric_write_pair; eauto.
  - intros k [n Hk]. rewrite !lookup_alter.
    repeat case_decide; subst; rewrite ?Hk; simpl; eauto.
Qed.

Lemma merge_edges_of_spec (ns : gmap string node) (item : string * node) :
  is_Some (ns !! item.1) -> adjacency_symmetric ns ->
  adjacency_symmetric (merge_edges_of ns item)
  /\ (forall k, is_Some (ns !! k) -> is_Some (merge_edges_of ns item !! k)).
Proof.
  unfold merge_edges_of. generalize (map_to_list (edges item.2)). intros es.
  revert ns. induction es as [|e rest IH]; intros ns Hid Hs; simpl; [auto|].
  destruct (merge_edge_spec item.1 ns e Hid Hs) as [Hs1 Hdom1].
  destruct (IH _ (Hdom1 _ Hid) Hs1) as [Hs2 Hdom2]. auto.
Qed.

Lemma merge_all_edges_spec (items : list (string * node)) (ns : gmap string node) :
  (forall k, k ∈ items.*1 -> is_Some (ns !! k)) -> adjacency_symmetric ns ->
  adjacency_symmetric (fold_left merge_edges_of items ns).
Proof.
  revert ns. induction items as [|item rest IH]; intros ns Hids Hs; simpl; [exact Hs|].
  destruct (merge_edges_of_spec ns item) as [Hs1 Hdom1]; [apply Hids; left | exact Hs |].
  apply IH; [|exact Hs1]. intros k Hk. apply Hdom1, Hids. now right.
Qed.

Lemma symmetric_import (rt : Runtime) (import_nodes_data : gmap string node)
    (import_indexes_data : gmap string (gmap string (list string))) (g : GraphDatabase) :
  symmetric_state g ->
  symmetric_state (import_merge rt import_nodes_data import_indexes_data g).
Proof.
  intros [Hd _]. unfold import_merge. split; [simpl|constructor].
  destruct (merge_nodes_spec (map_to_list (validate_import rt import_nodes_data)) _ Hd)
    as [Hs1 Hdom].
  apply merge_all_edges_spec; [|exact Hs1]. intros k Hk. apply Hdom. now left.
Qed.

Lemma reachable_symmetric_state (rt : Runtime) (g : GraphDatabase) :
  reachable rt g -> symmetric_state g.
Proof.
  induction 1.
  - split; [|constructor]. intros a b. reflexivity.
  - now apply symmetric_add_node.
  - now apply symmetric_exec.
  - now apply symmetric_import.
Qed.

(** C4. In every state that the public mutating operations (node, edge,
    index and transaction operations, merge import) can reach from a new
    engine, [b] is a neighbour of [a] exactly when [a] is a neighbour of
    [b], the two stored property records are equal, and every neighbour
    is a vertex of the database. *)
Theorem adjacency_symmetric_reachable (rt : Runtime) (g : GraphDatabase) :
  reachable rt g ->
  forall a b : string,
    (forall na, nodes (db g) !! a = Some na -> is_Some (edges na !! b) ->
       exists nb, nodes (db g) !! b = Some nb /\ edges nb !! a = edges na !! b)
    /\ ((exists na, nodes (db g) !! a = Some na /\ is_Some (edges na !! b))
        <-> (exists nb, nodes (db g) !! b = Some nb /\ is_Some (edges nb !! a))).
Proof.
  intros Hr a b. destruct (reachable_symmetric_state rt g Hr) as [Hs _].
  assert (Hone : forall x y nx, nodes (db g) !! x = Some nx -> is_Some (edges nx !! y) ->
            exists ny, nodes (db g) !! y = Some ny /\ edges ny !! x = edges nx !! y).
  { intros x y nx Hx Hxy. specialize (Hs x y). unfold edge_at in Hs. rewrite Hx in Hs.
    destruct (nodes (db g) !! y) as [ny|]; [eauto|].
    rewrite Hs in Hxy. now destruct Hxy. }
  split; [apply Hone|].
  split; intros (n & Hn & Hsome); destruct (Hone _ _ _ Hn Hsome) as (m & Hm & He);
    exists m; (split; [exact Hm | now rewrite He]).
Qed.

(** ** Transactions *)

Lemma snapshot_transaction (g : GraphDatabase) : transaction (snapshot g) = transaction g.
Proof. unfold snapshot. now destruct (transaction g) as [[]|] eqn:E. Qed.

Lemma snapshot_active (g : GraphDatabase) :
  transaction g = Some true ->
  snapshot g = {| db := db g; transaction := Some true;
                  transaction_history := transaction_history g ++ [db g] |}.
Proof. intros H. unfold snapshot. now rewrite H. Qed.

(** A command that returns normally leaves the state [set_db d (snapshot g)]
    when it is a vertex or edge mutation. *)
Lemma data_mutation_shape (rt : Runtime) (c : command) (g g' : GraphDatabase) :
  is_data_mutation c = true -> exec rt c g = (g', Ok tt) ->
  exists d, g' = set_db d (snapshot g).
Proof.
  intros Hc Hex. destruct c; try discriminate Hc; simpl in Hex;
    unfold void, add_node, update_node, delete_node, add_edge, delete_edge in Hex;
    repeat case_match; simplify_eq; simpl in *; simplify_eq; eauto.
Qed.

Lemma exec_transaction_flag (rt : Runtime) (c : command) (g : GraphDatabase) :
  transaction g = Some false -> transaction (exec rt c g).1 = Some false.
Proof.
  intros H. destruct c; simpl;
    unfold void, add_node, update_node, delete_node, add_edge, delete_edge,
      create_index, drop_index, begin_transaction, commit_transaction,
      rollback_transaction, stop_transaction, no_transaction;
    rewrite ?H; repeat case_match; simpl; rewrite ?snapshot_transaction; auto.
Qed.

Lemma run_transaction_flag (rt : Runtime) (cs : list command) (g : GraphDatabase) :
  transaction g = Some false -> transaction (run rt cs g) = Some false.
Proof.
  revert g. induction cs as [|c cs IH]; intros g H; simpl; [exact H|].
  apply IH. now apply exec_transaction_flag.
Qed.

(** C9. Once [stop_transaction] has succeeded, after any further commands
    on the same engine the flag is still [False] (not [None]):
    [begin_transaction], [commit_transaction], [rollback_transaction] and
    [stop_transaction] all raise and leave the state as it is. *)
Theorem stopped_engine_rejects_transactions (rt : Runtime) (g g' : GraphDatabase)
    (cs : list command) :
  stop_transaction g = (g', Ok tt) ->
  transaction (run rt cs g') = Some false
  /\ begin_transaction (run rt cs g') = (run rt cs g', Raise ValueError)
  /\ commit_transaction (run rt cs g') = (run rt cs g', Raise ValueError)
  /\ rollback_transaction (run rt cs g') = (run rt cs g', Raise ValueError)
  /\ stop_transaction (run rt cs g') = (run rt cs g', Raise ValueError).
Proof.
  intros Hstop.
  assert (H0 : transaction g' = Some false).
  { unfold stop_transaction in Hstop. destruct (no_transaction g); now simplify_eq. }
  pose proof (run_transaction_flag rt cs g' H0) as H.
  unfold begin_transaction, commit_transaction, rollback_transaction, stop_transaction,
    no_transaction.
  rewrite H. auto.
Qed.






Lemma stopped_engine_witness :
  stop_transaction tx_open = ((stop_transaction tx_open).1, Ok tt)
  /\ begin_transaction (run plain_runtime [add_d; Begin] (stop_transaction tx_open).1)
     = (run plain_runtime [add_d; Begin] (stop_transaction tx_open).1, Raise ValueError).
Proof.
  split; [reflexivity|].
  apply (stopped_engine_rejects_transactions plain_runtime tx_open
           (stop_transaction tx_open).1 [add_d; Begin]).
  reflexivity.
Defined.

(** ** The query parser and the comparison operators *)

Lemma str_in_cons (sep : string) (c : ascii) (r : string) :
  str_in sep (String c r) = startswith (String c r) sep || str_in sep r.
Proof.
  unfold str_in. cbn [split_once].
  destruct (startswith (String c r) sep); [reflexivity|].
  now destruct (split_once sep r) as [[? ?]|].
Qed.

(** A text that contains a two-character operator contains its second
    character. *)
Lemma str_in_second (a b : ascii) (s : string) :
  str_in (String a (String b EmptyString)) s = true ->
  str_in (String b EmptyString) s = true.
Proof.
  induction s as [|c r IH]; [discriminate|].
  rewrite !str_in_cons. intros H. apply orb_true_iff in H as [H|H].
  - apply orb_true_iff. right. simpl in H. apply andb_true_iff in H as [_ H].
    destruct r as [|c' r']; [discriminate|].
    rewrite str_in_cons. apply orb_true_iff. left.
    simpl in *. apply andb_true_iff in H as [H _]. rewrite H. now destruct r'.
  - apply orb_true_iff. right. now apply IH.
Qed.

(** The operator loop never selects [>=], [<=] or [!=]: each of them
    contains [=], which is tried first. *)
Lemma parser_never_yields_ge_le_ne (rt : Runtime) (text : string) :
  match parse_condition rt text with
  | Ok (CCmp _ op _) => op = OpEq \/ op = OpGt \/ op = OpLt
  | _ => True
  end.
Proof.
  unfold parse_condition.
  destruct (List.find _ op_order) as [o|] eqn:Hfind.
  - assert (Ho : o = OpEq \/ o = OpGt \/ o = OpLt).
    { unfold op_order in Hfind. simpl in Hfind.
      destruct (str_in "=" (strip text)) eqn:Heq; [left; congruence|].
      destruct (str_in ">" (strip text)); [right; left; congruence|].
      destruct (str_in "<" (strip text)); [right; right; congruence|].
      destruct (str_in ">=" (strip text)) eqn:H1;
        [apply str_in_second in H1; congruence|].
      destruct (str_in "<=" (strip text)) eqn:H2;
        [apply str_in_second in H2; congruence|].
      destruct (str_in "!=" (strip text)) eqn:H3;
        [apply str_in_second in H3; congruence|discriminate]. }
    repeat case_match; auto; simplify_eq; auto.
  - repeat case_match; auto; unfold bind in *; repeat case_match; simplify_eq.
Qed.

(** C1 (the code departs from it). [age >= 30] is parsed as the condition
    [("age >", "=", "30")], and the query finds nothing although [v1] has
    age 30; [!=] and [<=] are split on [=] in the same way. *)
Theorem ge_is_parsed_as_eq (rt : Runtime) :
  parse_query rt "WHERE age >= 30" = Ok [[CCmp "age >" OpEq (VStr "30")]]
  /\ parse_query rt "WHERE age != 31" = Ok [[CCmp "age !" OpEq (VStr "31")]]
  /\ parse_query rt "WHERE age <= 30" = Ok [[CCmp "age <" OpEq (VStr "30")]]
  /\ query rt "WHERE age >= 30" false false (one_vertex rt) = Ok []
  /\ query rt "WHERE age != 31" false false (one_vertex rt) = Ok []
  /\ query rt "WHERE age <= 30" false false (one_vertex rt) = Ok []
  /\ result_ids (query rt "WHERE age > 29" false false (one_vertex rt)) = Ok ["v1"].
Proof. repeat split; vm_compute; reflexivity. Qed.

(** The literal of an [edge.weight] condition is turned into a number by
    the parser; the evaluator then tests ['.' in value] on that number,
    which raises TypeError as soon as an edge with a weight is examined.
    A condition on [edge.label] is evaluated on both end points. *)
Example edge_conditions (rt : Runtime) :
  parse_query rt "WHERE edge.weight > 0" = Ok [[CCmp "edge.weight" OpGt (VInt 0)]]
  /\ query rt "WHERE edge.weight > 0" false false demo_graph = Raise TypeError
  /\ result_ids (query rt "WHERE edge.label = KNOWS" false false demo_graph) = Ok ["a"; "b"].
Proof. repeat split; vm_compute; reflexivity. Qed.

(** ** Indexes *)

(** C2 (the code departs from it). With an index on [name], adding the
    vertex [v1] named Alice and deleting it again succeeds, and the index
    still lists [v1] under the key Alice: [delete_node] looked for the key
    alice. *)
Theorem delete_node_leaves_index_entry (rt : Runtime) :
  (delete_node rt "v1" (one_vertex_indexed rt)).2 = Ok tt
  /\ nodes (db (delete_node rt "v1" (one_vertex_indexed rt)).1) = ∅
  /\ indexes (db (one_vertex_indexed rt)) !! "name" = Some {[ "Alice" := {[ "v1" ]} ]}
  /\ indexes (db (delete_node rt "v1" (one_vertex_indexed rt)).1) !! "name"
     = Some {[ "Alice" := {[ "v1" ]} ]}.
Proof. repeat split; vm_compute; reflexivity. Qed.

(** C3 (the code departs from it). The same vertex and the same query
    [WHERE name = Alice]: the full scan returns [v1], the plan through the
    index on [name] returns nothing, because the probe key is lowercased
    and the index key is not. *)
Theorem index_probe_misses_match (rt : Runtime) :
  result_ids (query rt "WHERE name = Alice" false false (one_vertex rt)) = Ok ["v1"]
  /\ query rt "WHERE name = Alice" false false (one_vertex_indexed rt) = Ok []
  /\ nodes (db (one_vertex_indexed rt)) = nodes (db (one_vertex rt)).
Proof. repeat split; vm_compute; reflexivity. Qed.

(** The stale index entry of C2 makes the indexed plan raise KeyError. *)
Lemma stale_index_entry_raises (rt : Runtime) :
  query rt "WHERE name = Alice" false true (delete_node rt "v1" (one_vertex_indexed rt)).1
  = Raise KeyError.
Proof. vm_compute. reflexivity. Qed.

(** ** Comparisons on stored booleans *)

(** C7 (the code departs from it). A stored boolean passes the test
    [isinstance(node_val, (int, float))]: [flag > 0] holds for the boolean
    true, and [flag > abc] raises ValueError. *)
Theorem order_comparison_on_boolean (rt : Runtime) :
  eval_node_cond rt false false v1_attrs (CCmp "flag" OpGt (VStr "0")) = Ok true
  /\ result_ids (query rt "WHERE flag > 0" false false (one_vertex rt)) = Ok ["v1"]
  /\ query rt "WHERE flag > abc" false false (one_vertex rt) = Raise ValueError.
Proof. repeat split; vm_compute; reflexivity. Qed.

(** On a stored string every order comparison is false and does not raise. *)
Lemma order_comparison_on_string (rt : Runtime) (cast cs : bool)
    (attrs : gmap string scalar) (key s : string) (op : cmp_op) (lit : scalar) :
  attrs !! key = Some (VStr s) ->
  op = OpGt \/ op = OpLt \/ op = OpGe \/ op = OpLe ->
  eval_node_cond rt cast cs attrs (CCmp key op lit) = Ok false.
Proof.
  intros Hk Hop. unfold eval_node_cond. simpl. rewrite Hk.
  destruct Hop as [-> | [-> | [-> | ->]]]; reflexivity.
Qed.

(** C8 (the code departs from it). [WHERE flag = true] on a stored boolean
    raises ValueError: the literal goes through [int("true")], the branch
    for booleans is never reached. The literal [1] matches the boolean
    true. *)
Theorem eq_on_boolean_raises (rt : Runtime) :
  eval_node_cond rt false false v1_attrs (CCmp "flag" OpEq (VStr "true")) = Raise ValueError
  /\ query rt "WHERE flag = true" false false (one_vertex rt) = Raise ValueError
  /\ result_ids (query rt "WHERE flag = 1" false false (one_vertex rt)) = Ok ["v1"].
Proof. repeat split; vm_compute; reflexivity. Qed.

(** ** Backup and export never overwrite *)

(** C10. When either companion file of the destination exists, backup and
    export raise an error and the file system is left exactly as it was:
    nothing is created, changed or removed. *)
Theorem backup_export_never_overwrite (reformat : string -> option string)
    (registry : gmap string string) (db_name dest : string) (fs : gmap string string) :
  is_Some (fs !! nodes_path dest) \/ is_Some (fs !! indexes_path dest) ->
  backup_database registry db_name dest fs = (fs, Raise ValueError)
  /\ export_database reformat registry db_name dest fs = (fs, Raise ValueError).
Proof.
  intros Hdest. unfold backup_database, export_database.
  destruct (registry !! db_name) as [db_file|]; [|auto].
  destruct (fs !! nodes_path db_file) as [text|]; [|auto].
  destruct (decide (is_Some (fs !! nodes_path dest) \/ is_Some (fs !! indexes_path dest)));
    [auto | contradiction].
Qed.

Lemma backup_export_never_overwrite_witness :
  (is_Some (demo_files !! nodes_path "bak.json")
   \/ is_Some (demo_files !! indexes_path "bak.json"))
  /\ backup_database demo_registry "x" "bak.json" demo_files = (demo_files, Raise ValueError)
  /\ export_database Some demo_registry "x" "bak.json" demo_files
     = (demo_files, Raise ValueError).
Proof.
  assert (H : is_Some (demo_files !! nodes_path "bak.json")
              \/ is_Some (demo_files !! indexes_path "bak.json")).
  { right. vm_compute. eauto. }
  split; [exact H|].
  apply (backup_export_never_overwrite Some demo_registry "x" "bak.json" demo_files H).
Defined.

(** Without an existing destination the backup copies both files. *)
Example backup_copies :
  (backup_database demo_registry "x" "new.json" demo_files).2 = Ok tt
  /\ (backup_database demo_registry "x" "new.json" demo_files).1 !! "new_nodes.json" = Some "{}"
  /\ (backup_database demo_registry "x" "new.json" demo_files).1 !! "new_indexes.json" = Some "{}".
Proof. repeat split; vm_compute; reflexivity. Qed.

(** ** Shortest paths *)

Lemma walk_length (ns : gmap string node) (a b : string) (p : list string) :
  walk ns a b p -> 1 <= length p.
Proof. destruct 1; [simpl; lia | rewrite length_app; simpl; lia]. Qed.

Lemma walk_length_one (ns : gmap string node) (a b : string) (p : list string) :
  walk ns a b p -> length p = 1 -> b = a.
Proof.
  destruct 1 as [|u v p Hw Hadj]; [reflexivity|].
  rewrite length_app. simpl. apply walk_length in Hw. lia.
Qed.

Lemma walk_is_path (ns : gmap string node) (a b : string) (p : list string) :
  walk ns a b p -> is_path ns a b p.
Proof.
  induction 1 as [|u v p Hw (Hh & Hl & Hc) Hadj].
  - repeat split. intros i x y _ Hy. destruct i; discriminate.
  - split; [|split].
    + destruct p; [discriminate|exact Hh].
    + apply last_snoc.
    + intros i x y Hx Hy.
      apply lookup_snoc_Some in Hy as [[Hlt Hy]|[Hlen ->]].
      * rewrite lookup_app_l in Hx by lia. eauto.
      * rewrite lookup_app_l in Hx by lia.
        rewrite last_lookup in Hl. rewrite <- Hlen in Hl. simpl in Hl.
        rewrite Hl in Hx. now simplify_eq.
Qed.

Lemma path_is_walk (ns : gmap string node) (a b : string) (p : list string) :
  is_path ns a b p -> walk ns a b p.
Proof.
  revert b. induction p as [|x l IH] using rev_ind; intros b (Hh & Hl & Hc).
  - discriminate.
  - rewrite last_snoc in Hl. simplify_eq.
    destruct (last l) as [u|] eqn:Hu.
    + apply walk_step with u.
      * apply IH. split; [|split; [exact Hu|]].
        -- destruct l; [discriminate|exact Hh].
        -- intros i y z Hy Hz. apply (Hc i).
           ++ rewrite lookup_app_l; [exact Hy|]. apply lookup_lt_Some in Hy. lia.
           ++ rewrite lookup_app_l; [exact Hz|]. now apply lookup_lt_Some in Hz.
      * rewrite last_lookup in Hu. apply (Hc (pred (length l))).
        -- rewrite lookup_app_l; [exact Hu|]. apply lookup_lt_Some in Hu. lia.
        -- assert (S (pred (length l)) = length l) as ->
             by (apply lookup_lt_Some in Hu; lia).
           rewrite lookup_app_r by lia. now rewrite Nat.sub_diag.
    + apply last_None in Hu. subst l. simpl in Hh. simplify_eq. constructor.
Qed.

(** *** The bound on the number of iterations *)

Lemma sum_weight_le (f g : string * node -> nat) (l : list (string * node)) :
  (forall x, f x <= g x) -> sum_list (f <$> l) <= sum_list (g <$> l).
Proof.
  intros Hfg. induction l as [|x l IH]; csimpl; [lia|]. specialize (Hfg x). lia.
Qed.

Lemma sum_weight_drop (f g : string * node -> nat) (l : list (string * node))
    (x : string * node) (w : nat) :
  (forall y, f y <= g y) -> x ∈ l -> f x + w <= g x ->
  sum_list (f <$> l) + w <= sum_list (g <$> l).
Proof.
  intros Hfg Hin Hx. induction l as [|y l IH]; [inversion Hin|].
  csimpl. apply elem_of_cons in Hin as [<-|Hin].
  - pose proof (sum_weight_le f g l Hfg). lia.
  - specialize (IH Hin). specialize (Hfg y). lia.
Qed.

(** Marking [u] visited lowers the weight by more than the number of its
    neighbours. *)
Lemma unvisited_weight_visit (ns : gmap string node) (visited : gset string)
    (u : string) (data : node) :
  ns !! u = Some data -> u ∉ visited ->
  unvisited_weight ns (visited ∪ {[u]}) + S (size (edges data)) <= unvisited_weight ns visited.
Proof.
  intros Hu Hnot. unfold unvisited_weight.
  apply sum_weight_drop with (x := (u, data)).
  - intros [k nd]. simpl. repeat case_decide; try lia. set_solver.
  - now apply elem_of_map_to_list.
  - simpl. repeat case_decide; try lia; set_solver.
Qed.

(** *** The invariant of the search loop *)

Section Search.
Context (ns : gmap string node) (a b : string).
Hypothesis Hclosed : neighbours_exist ns.

Lemma inv_shift (L : nat) (V : gset string) (Q : list (string * list string)) :
  bfs_inv ns a b L V Q -> (forall k p, (k, p) ∈ Q -> length p = S L) -> bfs_inv ns a b (S L) V Q.
Proof.
  intros Hinv Hall. pose proof Hinv as [Hpos Hw Hs He Hn Hl Hf].
  assert (Hn' : forall x p, walk ns a x p -> length p < S L -> x ∈ V).
  { intros x p Hwalk Hlen. destruct (decide (length p = L)) as [E|E].
    - destruct (Hl x p Hwalk E) as [?|(q & Hq & Hlq)]; [assumption|].
      apply Hall in Hq. lia.
    - apply (Hn x p Hwalk). lia. }
  split; auto.
  - exists Q, []. rewrite app_nil_r. repeat split; auto. intros k p Hin. inversion Hin.
  - intros x p Hwalk Hlen. destruct Hwalk as [|u v p Hwalk Hadj].
    + simpl in Hlen. lia.
    + rewrite length_app in Hlen. simpl in Hlen.
      assert (Hu : u ∈ V) by (apply (Hn' u p Hwalk); lia).
      destruct (Hf u v Hu Hadj) as [?|(q & Hq)]; [now left|].
      right. exists q. split; [exact Hq|]. now apply Hall in Hq.
Qed.

(** The invariant can be stated at the length of the path at the front. *)
Lemma inv_head (L : nat) (V : gset string) (u : string) (p : list string)
    (rest : list (string * list string)) :
  bfs_inv ns a b L V ((u, p) :: rest) -> bfs_inv ns a b (length p) V ((u, p) :: rest).
Proof.
  intros Hinv. pose proof Hinv as [_ _ (Q1 & Q2 & HQ & H1 & H2) _ _ _ _].
  destruct Q1 as [|x Q1].
  - simpl in HQ. subst Q2.
    assert (Hp : length p = S L) by (apply (H2 u); left).
    rewrite Hp. apply inv_shift; [exact Hinv | exact H2].
  - simpl in HQ. inversion HQ; subst.
    assert (Hp : length p = L) by (apply (H1 u); left).
    now rewrite Hp.
Qed.

Lemma inv_skip (V : gset string) (u : string) (p : list string)
    (rest : list (string * list string)) :
  bfs_inv ns a b (length p) V ((u, p) :: rest) -> u ∈ V -> bfs_inv ns a b (length p) V rest.
Proof.
  intros [Hpos Hw (Q1 & Q2 & HQ & H1 & H2) He Hn Hl Hf] Hu. split; auto.
  - intros k q Hin. apply Hw. now right.
  - destruct Q1 as [|x Q1]; simpl in HQ.
    + subst Q2. assert (length p = S (length p)) by (apply (H2 u); left). lia.
    + inversion HQ; subst. exists Q1, Q2. repeat split; auto.
      intros k q Hin. apply (H1 k). now right.
  - intros x q Hwalk Hlen. destruct (Hl x q Hwalk Hlen) as [?|(q' & Hq' & Hlq)]; [now left|].
    apply elem_of_cons in Hq' as [E|Hq']; [simplify_eq; now left | right; eauto].
  - intros x v Hx Hadj. destruct (Hf x v Hx Hadj) as [?|(q' & Hq')]; [now left|].
    apply elem_of_cons in Hq' as [E|Hq']; [simplify_eq; now left | right; eauto].
Qed.

Lemma inv_visit (V : gset string) (u : string) (p : list string)
    (rest : list (string * list string)) (data : node) :
  bfs_inv ns a b (length p) V ((u, p) :: rest) -> u ≠ b -> ns !! u = Some data ->
  bfs_inv ns a b (length p) (V ∪ {[u]})
    (rest ++ ((fun neighbor => (neighbor, p ++ [neighbor]))
                <$> filter (fun neighbor => neighbor ∉ V ∪ {[u]}) (map_to_list (edges data)).*1)).
Proof.
  intros [Hpos Hw (Q1 & Q2 & HQ & H1 & H2) He Hn Hl Hf] Hub Hdata.
  assert (Hwu : walk ns a u p) by (apply Hw; left).
  assert (Hnew : forall k q,
            (k, q) ∈ (fun neighbor => (neighbor, p ++ [neighbor]))
                       <$> filter (fun neighbor => neighbor ∉ V ∪ {[u]})
                             (map_to_list (edges data)).*1 ->
            q = p ++ [k] /\ adjacent ns u k).
  { intros k q Hin. apply list_elem_of_fmap in Hin as (n & E & Hin). simplify_eq.
    apply list_elem_of_filter in Hin as [_ Hin]. apply elem_of_keys in Hin.
    split; [reflexivity|]. exists data. auto. }
  split; auto.
  - intros k q Hin. apply elem_of_app in Hin as [Hin|Hin].
    + apply Hw. now right.
    + apply Hnew in Hin as [-> Hadj]. split; [now apply walk_step with u | eauto].
  - destruct Q1 as [|x Q1]; simpl in HQ.
    + subst Q2. assert (length p = S (length p)) by (apply (H2 u); left). lia.
    + inversion HQ; subst. eexists Q1, (Q2 ++ _). rewrite app_assoc.
      split; [reflexivity|]. split.
      * intros k q Hin. apply (H1 k). now right.
      * intros k q Hin. apply elem_of_app in Hin as [Hin|Hin]; [eauto|].
        apply Hnew in Hin as [-> _]. rewrite length_app. simpl. lia.
  - intros Hb. apply elem_of_union in Hb as [Hb|Hb]; [auto|].
    apply elem_of_singleton in Hb. congruence.
  - intros x q Hwalk Hlen. apply elem_of_union. left. eauto.
  - intros x q Hwalk Hlen. destruct (Hl x q Hwalk Hlen) as [?|(q' & Hq' & Hlq)];
      [left; apply elem_of_union; now left|].
    apply elem_of_cons in Hq' as [E|Hq'].
    + simplify_eq. left. apply elem_of_union. right. now apply elem_of_singleton.
    + right. exists q'. split; [|exact Hlq]. apply elem_of_app. now left.
  - intros x v Hx Hadj. apply elem_of_union in Hx as [Hx|Hx].
    + destruct (Hf x v Hx Hadj) as [?|(q' & Hq')]; [left; apply elem_of_union; now left|].
      apply elem_of_cons in Hq' as [E|Hq'].
      * simplify_eq. left. apply elem_of_union. right. now apply elem_of_singleton.
      * right. exists q'. apply elem_of_app. now left.
    + apply elem_of_singleton in Hx. subst x.
      destruct (decide (v ∈ V ∪ {[u]})) as [?|Hv]; [now left|].
      right. exists (p ++ [v]). apply elem_of_app. right.
      apply list_elem_of_fmap. exists v. split; [reflexivity|].
      apply list_elem_of_filter. split; [exact Hv|].
      destruct Hadj as (n & Hn' & Hsome). apply elem_of_keys. congruence.
Qed.

(** With the invariant and enough fuel the loop returns a shortest path to
    [b], or returns none when no path to [b] exists; it never reaches the
    fuel bound and never raises. *)
Lemma bfs_loop_correct (fuel : nat) :
  forall L V Q, bfs_inv ns a b L V Q -> length Q + unvisited_weight ns V < fuel ->
    (exists p, bfs_loop fuel ns b V Q = Some (Ok (Some p))
               /\ walk ns a b p /\ forall q, walk ns a b q -> length p <= length q)
    \/ (bfs_loop fuel ns b V Q = Some (Ok None) /\ forall q, ~ walk ns a b q).
Proof.
  induction fuel as [|fuel IH]; intros L V Q Hinv Hfuel; [lia|].
  destruct Q as [|[u p] rest]; simpl.
  - right. split; [reflexivity|].
    assert (Hall : forall x q, walk ns a x q -> x ∈ V).
    { induction 1 as [|x y q Hw IHw Hadj].
      - destruct (decide (1 < L)) as [H1|H1].
        + apply (inv_near _ _ _ _ _ _ Hinv a [a]); [constructor | simpl; lia].
        + destruct (inv_level _ _ _ _ _ _ Hinv a [a]) as [?|(q & Hq & _)];
            [constructor | pose proof (inv_pos _ _ _ _ _ _ Hinv); simpl; lia | assumption
            | inversion Hq].
      - destruct (inv_frontier _ _ _ _ _ _ Hinv x y IHw Hadj) as [?|(q' & Hq')];
          [assumption | inversion Hq']. }
    intros q Hq. apply Hall in Hq. now apply (inv_end _ _ _ _ _ _ Hinv).
  - apply inv_head in Hinv.
    destruct (decide (u = b)) as [->|Hub].
    + left. exists p. split; [reflexivity|].
      split; [apply (inv_walks _ _ _ _ _ _ Hinv); left|].
      intros q Hq. destruct (decide (length q < length p)) as [Hlt|]; [|lia].
      exfalso. apply (inv_end _ _ _ _ _ _ Hinv). apply (inv_near _ _ _ _ _ _ Hinv b q Hq Hlt).
    + destruct (decide (u ∈ V)) as [Hu|Hu].
      * apply (IH (length p)); [now apply (inv_skip V u p rest) | simpl in Hfuel; lia].
      * destruct (inv_walks _ _ _ _ _ _ Hinv u p) as [_ [data Hdata]]; [left|].
        rewrite Hdata. apply (IH (length p)); [now apply (inv_visit V u p rest data)|].
        rewrite length_app, length_fmap.
        pose proof (length_filter (fun neighbor => neighbor ∉ V ∪ {[u]})
                      (map_to_list (edges data)).*1) as Hf.
        rewrite length_fmap, length_map_to_list in Hf.
        pose proof (unvisited_weight_visit ns V u data Hdata Hu).
        simpl in Hfuel. lia.
Qed.

End Search.

Lemma bfs_inv_initial (ns : gmap string node) (a b : string) :
  is_Some (ns !! a) -> bfs_inv ns a b 1 ∅ [(a, [a])].
Proof.
  intros Ha. split.
  - lia.
  - intros k p Hin. apply list_elem_of_singleton in Hin. simplify_eq.
    split; [constructor | exact Ha].
  - exists [(a, [a])], []. repeat split.
    + intros k p Hin. apply list_elem_of_singleton in Hin. now simplify_eq.
    + intros k p Hin. inversion Hin.
  - apply not_elem_of_empty.
  - intros x p Hw Hlen. apply walk_length in Hw. lia.
  - intros x p Hw Hlen. right. exists [a].
    rewrite (walk_length_one ns a x p Hw Hlen). split; [left | reflexivity].
  - intros u v Hu. now apply not_elem_of_empty in Hu.
Qed.

(** The search on existing vertices: it ends with a shortest path, or with
    none when there is no path. *)
Lemma find_path_search (g : GraphDatabase) (a b : string) :
  neighbours_exist (nodes (db g)) ->
  is_Some (nodes (db g) !! a) -> is_Some (nodes (db g) !! b) ->
  (exists p, find_path a b g = Some (Ok (Some p))
             /\ is_path (nodes (db g)) a b p
             /\ forall q, is_path (nodes (db g)) a b q -> length p <= length q)
  \/ (find_path a b g = Some (Ok None) /\ forall q, ~ is_path (nodes (db g)) a b q).
Proof.
  intros Hclosed Ha Hb. unfold find_path. rewrite decide_True by auto.
  destruct (decide (a = b)) as [<-|Hab].
  - left. exists [a]. split; [reflexivity|]. split.
    + apply walk_is_path. constructor.
    + intros q Hq. apply path_is_walk, walk_length in Hq. simpl. lia.
  - destruct (bfs_loop_correct (nodes (db g)) a b Hclosed (bfs_fuel (nodes (db g)))
                1 ∅ [(a, [a])]) as [(p & Hrun & Hw & Hmin)|[Hrun Hnone]].
    + now apply bfs_inv_initial.
    + unfold bfs_fuel. simpl. lia.
    + left. exists p. split; [exact Hrun|]. split; [now apply walk_is_path|].
      intros q Hq. apply Hmin. now apply path_is_walk.
    + right. split; [exact Hrun|]. intros q Hq. apply (Hnone q). now apply path_is_walk.
Qed.

(** C6. In a database whose neighbours are all vertices, for existing
    vertices [a] and [b]: [find_path(a, a)] is [[a]]; [find_path(a, b)]
    returns, within the bound of the loop, either a path from [a] to [b]
    than which no path is shorter, or none, and then no path from [a] to
    [b] exists. So a returned path starts at [a], ends at [b], has
    consecutive vertices adjacent and is a shortest one; whenever some
    path from [a] to [b] exists a path is returned, and it is not longer;
    when [b] cannot be reached from [a] the result is none. When either
    id is missing the call raises KeyError. *)
Theorem find_path_shortest (g : GraphDatabase) (a b : string) :
  neighbours_exist (nodes (db g)) ->
  (is_Some (nodes (db g) !! a) -> is_Some (nodes (db g) !! b) ->
     find_path a a g = Some (Ok (Some [a]))
     /\ ((exists p, find_path a b g = Some (Ok (Some p))
                    /\ is_path (nodes (db g)) a b p
                    /\ forall q, is_path (nodes (db g)) a b q -> length p <= length q)
         \/ (find_path a b g = Some (Ok None)
             /\ forall q, ~ is_path (nodes (db g)) a b q))
     /\ (forall p, find_path a b g = Some (Ok (Some p)) ->
           is_path (nodes (db g)) a b p
           /\ forall q, is_path (nodes (db g)) a b q -> length p <= length q)
     /\ (forall q, is_path (nodes (db g)) a b q ->
           exists p, find_path a b g = Some (Ok (Some p)) /\ length p <= length q)
     /\ ((forall q, ~ is_path (nodes (db g)) a b q) -> find_path a b g = Some (Ok None)))
  /\ (nodes (db g) !! a = None \/ nodes (db g) !! b = None ->
      find_path a b g = Some (Raise KeyError)).
Proof.
  intros Hclosed. split.
  - intros Ha Hb. split; [|split; [|split; [|split]]].
    + unfold find_path. rewrite decide_True by auto. now rewrite decide_True.
    + exact (find_path_search g a b Hclosed Ha Hb).
    + intros p Hp.
      destruct (find_path_search g a b Hclosed Ha Hb) as [(p' & Hrun & Hpath & Hmin)|[Hrun _]];
        rewrite Hrun in Hp; simplify_eq. auto.
    + intros q Hq.
      destruct (find_path_search g a b Hclosed Ha Hb) as [(p & Hrun & _ & Hmin)|[_ Hnone]];
        [eauto | now destruct (Hnone q)].
    + intros Hnone.
      destruct (find_path_search g a b Hclosed Ha Hb) as [(p & _ & Hpath & _)|[Hrun _]];
        [now destruct (Hnone p) | exact Hrun].
  - intros Hmiss. unfold find_path. rewrite decide_False; [reflexivity|].
    intros [[x Hx] [y Hy]]. destruct Hmiss; congruence.
Qed.

(** The states of C4 satisfy the premise of C6. *)
Lemma reachable_neighbours_exist (rt : Runtime) (g : GraphDatabase) :
  reachable rt g -> neighbours_exist (nodes (db g)).
Proof.
  intros Hr u v (n & Hn & Hv).
  destruct (reachable_symmetric_state rt g Hr) as [Hs _].
  specialize (Hs u v). unfold edge_at in Hs. rewrite Hn in Hs.
  destruct (nodes (db g) !! v); [eauto|].
  rewrite Hs in Hv. now destruct Hv.
Qed.

Lemma demo_graph_reachable : reachable plain_runtime demo_graph.
Proof.
  unfold demo_graph. apply reach_exec; [|discriminate].
  repeat (apply reach_add_node; [|reflexivity]). apply reach_new.
Qed.

Example demo_paths :
  find_path "a" "b" demo_graph = Some (Ok (Some ["a"; "b"]))
  /\ find_path "b" "a" demo_graph = Some (Ok (Some ["b"; "a"]))
  /\ find_path "a" "c" demo_graph = Some (Ok None)
  /\ find_path "a" "zz" demo_graph = Some (Raise KeyError).
Proof. repeat split; vm_compute; reflexivity. Qed.

(** The edge from Alice to Bob is a path of the sample graph. *)
Lemma demo_graph_edge_path : is_path (nodes (db demo_graph)) "a" "b" ["a"; "b"].
Proof.
  split; [reflexivity|]. split; [reflexivity|].
  intros i x y Hx Hy. destruct i as [|[|i]]; simpl in Hx, Hy; simplify_eq.
  eexists. split; [vm_compute; reflexivity|]. vm_compute. eauto.
Qed.

Lemma find_path_shortest_witness :
  neighbours_exist (nodes (db demo_graph))
  /\ is_Some (nodes (db demo_graph) !! "a") /\ is_Some (nodes (db demo_graph) !! "b")
  /\ find_path "a" "a" demo_graph = Some (Ok (Some ["a"]))
  /\ (exists p, find_path "a" "b" demo_graph = Some (Ok (Some p))
                /\ length p <= length ["a"; "b"])
  /\ (forall p, find_path "a" "b" demo_graph = Some (Ok (Some p)) ->
        is_path (nodes (db demo_graph)) "a" "b" p
        /\ forall q, is_path (nodes (db demo_graph)) "a" "b" q -> length p <= length q).
Proof.
  assert (H : neighbours_exist (nodes (db demo_graph)))
    by apply (reachable_neighbours_exist plain_runtime), demo_graph_reachable.
  assert (Ha : is_Some (nodes (db demo_graph) !! "a")) by (vm_compute; eauto).
  assert (Hb : is_Some (nodes (db demo_graph) !! "b")) by (vm_compute; eauto).
  pose proof (find_path_shortest demo_graph "a" "b" H) as [Hfound _].
  destruct (Hfound Ha Hb) as (Haa & _ & Hret & Hreach & _).
  split; [exact H|]. split; [exact Ha|]. split; [exact Hb|]. split; [exact Haa|].
  split; [exact (Hreach ["a"; "b"] demo_graph_edge_path) | exact Hret].
Defined.

Lemma adjacency_symmetric_witness :
  reachable plain_runtime demo_graph
  /\ ((exists na, nodes (db demo_graph) !! "a" = Some na /\ is_Some (edges na !! "b"))
      <-> (exists nb, nodes (db demo_graph) !! "b" = Some nb /\ is_Some (edges nb !! "a"))).
Proof.
  assert (H : reachable plain_runtime demo_graph).
  { unfold demo_graph. apply reach_exec; [|discriminate].
    repeat (apply reach_add_node; [|reflexivity]). apply reach_new. }
  split; [exact H|].
  apply (adjacency_symmetric_reachable plain_runtime demo_graph H "a" "b").
Defined.

(** ** Index maintenance *)

Lemma index_ids_add (k node_id : string) (idx : gmap string (gset string)) (k' id : string) :
  id ∈ index_ids (index_add k node_id idx) k'
  <-> (k' = k /\ id = node_id) \/ id ∈ index_ids idx k'.
Proof.
  unfold index_ids, index_add. rewrite lookup_insert.
  destruct (decide (k = k')) as [->|Hne]; simpl.
  - rewrite elem_of_union, elem_of_singleton. tauto.
  - split; [auto|]. intros [[E _]|H]; [congruence|exact H].
Qed.

Lemma index_ids_discard (k node_id : string) (idx : gmap string (gset string)) (k' id : string) :
  id ∈ index_ids (index_discard k node_id idx) k'
  <-> id ∈ index_ids idx k' /\ ~ (k' = k /\ id = node_id).
Proof.
  unfold index_ids, index_discard.
  destruct (idx !! k) as [s|] eqn:Hk.
  - destruct (decide (s ∖ {[node_id]} = ∅)) as [He|He].
    + rewrite lookup_delete. destruct (decide (k = k')) as [<-|Hne]; simpl.
      * rewrite Hk. simpl. split; [intros H; now apply not_elem_of_empty in H|].
        intros [Hin Hn]. exfalso. assert (id ∈ s ∖ {[node_id]}) as H; [|rewrite He in H; now apply not_elem_of_empty in H].
        apply elem_of_difference. split; [exact Hin|]. rewrite elem_of_singleton. tauto.
      * split; [intros H; split; [exact H|]; intros [E _]; congruence | tauto].
    + rewrite lookup_insert. destruct (decide (k = k')) as [<-|Hne]; simpl.
      * rewrite Hk. simpl. rewrite elem_of_difference, elem_of_singleton. tauto.
      * split; [intros H; split; [exact H|]; intros [E _]; congruence | tauto].
  - split; [|tauto]. intros H. split; [exact H|]. intros [-> ->].
    rewrite Hk in H. simpl in H. now apply not_elem_of_empty in H.
Qed.

Lemma backfill_ids (rt : Runtime) (a : string) (l : list (string * node))
    (idx0 : gmap string (gset string)) (k id : string) :
  id ∈ index_ids
         (fold_left
            (fun idx '(node_id, data) =>
               match value data !! a with
               | Some v => index_add (str_scalar rt v) node_id idx
               | None => idx
               end) l idx0) k
  <-> id ∈ index_ids idx0 k
      \/ exists data v, (id, data) ∈ l /\ value data !! a = Some v /\ str_scalar rt v = k.
Proof.
  revert idx0. induction l as [|[node_id data] l IH]; intros idx0; simpl.
  - split; [auto|]. intros [H|(data & v & Hin & _)]; [exact H|inversion Hin].
  - rewrite IH. destruct (value data !! a) as [v|] eqn:Hv.
    + rewrite index_ids_add. split.
      * intros [[[Ek Ei]|H]|(d & w & Hin & Hw & Hk)]; [right|left|right]; eauto.
        -- subst. exists data, v. split; [left|auto].
        -- exists d, w. split; [now right|auto].
      * intros [H|(d & w & Hin & Hw & Hk)]; [auto|].
        apply elem_of_cons in Hin as [E|Hin].
        -- simplify_eq. left. left. auto.
        -- right. eauto.
    + split.
      * intros [H|(d & w & Hin & Hw & Hk)]; [auto|]. right. exists d, w. split; [now right|auto].
      * intros [H|(d & w & Hin & Hw & Hk)]; [auto|].
        apply elem_of_cons in Hin as [E|Hin]; [simplify_eq|]. right. eauto.
Qed.

(** X1. A successful [create_index(a)] leaves the vertices, the other
    indexes and the transaction state as they are, and builds an index on
    [a] that lists a vertex under a key exactly when the vertex carries
    [a] with that text (the back-fill is exact). *)
Theorem create_index_backfill_exact (rt : Runtime) (a : string) (g g' : GraphDatabase) :
  create_index rt a g = (g', Ok tt) ->
  nodes (db g') = nodes (db g)
  /\ transaction g' = transaction g
  /\ transaction_history g' = transaction_history g
  /\ (forall a', a' <> a -> indexes (db g') !! a' = indexes (db g) !! a')
  /\ is_Some (indexes (db g') !! a)
  /\ index_exact rt (db g') a.
Proof.
  unfold create_index. intros H.
  destruct (is_empty a); [discriminate|].
  destruct (decide (is_Some (indexes (db g) !! a))); [discriminate|].
  simplify_eq. simpl. do 3 (split; [reflexivity|]). split; [|split].
  - intros a' Hne. now rewrite lookup_insert_ne.
  - rewrite lookup_insert_eq. eauto.
  - intros built Hidx k id. simpl in Hidx. rewrite lookup_insert_eq in Hidx. simplify_eq.
    rewrite backfill_ids. unfold index_ids, has_text. simpl.
    rewrite lookup_empty. simpl. split.
    + intros [H|(data & v & Hin & Hv & Hk)]; [now apply not_elem_of_empty in H|].
      apply elem_of_map_to_list in Hin. eauto.
    + intros (nd & v & Hn & Hv & Hk). right. exists nd, v.
      split; [now apply elem_of_map_to_list|auto].
Qed.

Lemma create_index_backfill_exact_witness :
  create_index plain_runtime "age" demo_graph
  = ((create_index plain_runtime "age" demo_graph).1, Ok tt)
  /\ index_exact plain_runtime (db (create_index plain_runtime "age" demo_graph).1) "age".
Proof.
  split; [reflexivity|].
  apply (create_index_backfill_exact plain_runtime "age" demo_graph
           (create_index plain_runtime "age" demo_graph).1).
  reflexivity.
Defined.

(** X2. After a successful [create_index(a)]: creating the index again
    raises ValueError and changes nothing, and [drop_index(a)] returns the
    engine to exactly the state before the creation, in which
    [drop_index(a)] raised ValueError. *)
Theorem create_index_then_drop (rt : Runtime) (a : string) (g g' : GraphDatabase) :
  create_index rt a g = (g', Ok tt) ->
  create_index rt a g' = (g', Raise ValueError)
  /\ drop_index a g' = (g, Ok tt)
  /\ drop_index a g = (g, Raise ValueError).
Proof.
  unfold create_index. intros H.
  destruct (is_empty a) eqn:Ha; [discriminate|].
  destruct (decide (is_Some (indexes (db g) !! a))) as [|Hno]; [discriminate|].
  simplify_eq. simpl. rewrite lookup_insert_eq.
  assert (Hnone : indexes (db g) !! a = None).
  { destruct (indexes (db g) !! a); [exfalso; apply Hno; eauto | reflexivity]. }
  split; [|split].
  - rewrite decide_True by eauto. reflexivity.
  - unfold drop_index. simpl. rewrite lookup_insert_eq.
    unfold set_db, set_indexes. simpl. rewrite delete_insert_eq, delete_id by exact Hnone.
    destruct g as [[ns ix] t h]. reflexivity.
  - unfold drop_index. now rewrite Hnone.
Qed.

Lemma create_index_then_drop_witness :
  create_index plain_runtime "age" demo_graph
  = ((create_index plain_runtime "age" demo_graph).1, Ok tt)
  /\ drop_index "age" (create_index plain_runtime "age" demo_graph).1 = (demo_graph, Ok tt).
Proof.
  split; [reflexivity|].
  apply (create_index_then_drop plain_runtime "age" demo_graph
           (create_index plain_runtime "age" demo_graph).1).
  reflexivity.
Defined.

(** The loops [for attribute in self.db["indexes"]] change each index on
    its own. *)
Lemma fold_step_lookup (step : gmap string (gmap string (gset string)) -> string ->
                               gmap string (gmap string (gset string)))
    (h : string -> gmap string (gset string) -> gmap string (gset string)) :
  (forall ix a a', step ix a !! a' = if decide (a' = a) then h a <$> ix !! a else ix !! a') ->
  forall keys, NoDup keys ->
  forall ix a', fold_left step keys ix !! a'
                = if decide (a' ∈ keys) then h a' <$> ix !! a' else ix !! a'.
Proof.
  intros Hstep keys. induction keys as [|k keys IH]; intros Hnd ix a'; simpl.
  - destruct (decide (a' ∈ [])) as [H|_]; [inversion H|reflexivity].
  - apply NoDup_cons in Hnd as [Hk Hnd]. rewrite (IH Hnd), !Hstep.
    destruct (decide (a' = k)) as [->|Hne].
    + rewrite decide_False by exact Hk. rewrite decide_True by left. reflexivity.
    + destruct (decide (a' ∈ keys)) as [Hin|Hin].
      * rewrite decide_True by now right. reflexivity.
      * rewrite decide_False; [reflexivity|]. intros H. apply elem_of_cons in H. tauto.
Qed.

Lemma fold_all_keys_lookup (step : gmap string (gmap string (gset string)) -> string ->
                                   gmap string (gmap string (gset string)))
    (h : string -> gmap string (gset string) -> gmap string (gset string))
    (ix : gmap string (gmap string (gset string))) (a' : string) :
  (forall ix a a', step ix a !! a' = if decide (a' = a) then h a <$> ix !! a else ix !! a') ->
  fold_left step (map_to_list ix).*1 ix !! a' = h a' <$> ix !! a'.
Proof.
  intros Hstep. rewrite (fold_step_lookup step h Hstep) by apply NoDup_fst_map_to_list.
  destruct (decide (a' ∈ (map_to_list ix).*1)) as [_|Hn]; [reflexivity|].
  destruct (ix !! a') eqn:E; [|reflexivity].
  exfalso. apply Hn, elem_of_keys. eauto.
Qed.

Lemma update_index_lookup (rt : Runtime) (a node_id : string) (old new : option scalar)
    (ix : gmap string (gmap string (gset string))) (a' : string) :
  _update_index rt a node_id old new ix !! a'
  = if decide (a' = a)
    then (fun idx =>
            let idx1 := match old with
                        | Some ov => index_discard (str_scalar rt ov) node_id idx
                        | None => idx
                        end in
            match new with
            | Some nv => index_add (str_scalar rt nv) node_id idx1
            | None => idx1
            end) <$> ix !! a
    else ix !! a'.
Proof.
  unfold _update_index. destruct (ix !! a) as [idx|] eqn:Ha.
  - rewrite lookup_insert. destruct (decide (a = a')) as [->|Hne].
    + now rewrite decide_True.
    + rewrite decide_False by congruence. reflexivity.
  - destruct (decide (a' = a)) as [->|]; [now rewrite Ha|reflexivity].
Qed.

Lemma has_text_insert_fresh (rt : Runtime) (ns : gmap string node) (new_id : string)
    (nd : node) (a k id : string) :
  ns !! new_id = None ->
  has_text rt (<[new_id := nd]> ns) a k id
  <-> (id = new_id /\ exists v, value nd !! a = Some v /\ str_scalar rt v = k)
      \/ has_text rt ns a k id.
Proof.
  intros Hfresh. unfold has_text. split.
  - intros (n & v & Hn & Hv & Hk). rewrite lookup_insert in Hn.
    destruct (decide (new_id = id)) as [->|Hne]; simplify_eq; [left|right]; eauto.
  - intros [[-> (v & Hv & Hk)]|(n & v & Hn & Hv & Hk)].
    + exists nd, v. rewrite lookup_insert_eq. auto.
    + exists n, v. rewrite lookup_insert_ne; [auto|]. intros ->. congruence.
Qed.

Lemma add_node_spec (rt : Runtime) (attrs : gmap string scalar)
    (new_id : string) (g : GraphDatabase) :
  attrs <> ∅ ->
  nodes (db g) !! new_id = None ->
  indexes_exact rt (db g) ->
  (add_node rt attrs new_id g).2 = Ok new_id
  /\ nodes (db (add_node rt attrs new_id g).1)
     = <[new_id := {| value := attrs; edges := ∅ |}]> (nodes (db g))
  /\ indexes_exact rt (db (add_node rt attrs new_id g).1).
Proof.
  intros Hne Hfresh Hex. unfold add_node. rewrite decide_False by exact Hne.
  simpl. rewrite !snapshot_db. split; [reflexivity|]. split; [reflexivity|].
  intros a idx' Hidx' k id. simpl in Hidx'. simpl.
  rewrite (fold_all_keys_lookup _
             (fun a idx => match attrs !! a with
                           | Some v => index_add (str_scalar rt v) new_id idx
                           | None => idx
                           end)) in Hidx'.
  2:{ intros ix b b'. destruct (attrs !! b) as [v|].
      - rewrite update_index_lookup. reflexivity.
      - destruct (decide (b' = b)) as [->|]; [|reflexivity].
        destruct (ix !! b); reflexivity. }
  destruct (indexes (db g) !! a) as [idx|] eqn:Hidx; [|discriminate]. simpl in Hidx'.
  simplify_eq. rewrite has_text_insert_fresh by exact Hfresh. simpl.
  specialize (Hex a idx Hidx k id).
  destruct (attrs !! a) as [v|] eqn:Hv.
  - rewrite index_ids_add, Hex. split.
    + intros [[-> ->]|H]; [left|right]; eauto.
    + intros [[-> (w & Hw & Hk)]|H]; [left|right]; simplify_eq; auto.
  - rewrite Hex. split; [auto|]. intros [[_ (w & Hw & _)]|H]; [discriminate|exact H].
Qed.

Lemma new_engine_indexes_exact (rt : Runtime) : indexes_exact rt (db new_GraphDatabase).
Proof. intros a idx H. simpl in H. now rewrite lookup_empty in H. Qed.

Lemma create_index_keeps_exact (rt : Runtime) (a : string) (g g' : GraphDatabase) :
  create_index rt a g = (g', Ok tt) -> indexes_exact rt (db g) -> indexes_exact rt (db g').
Proof.
  unfold create_index. intros H Hex.
  destruct (is_empty a); [discriminate|].
  destruct (decide (is_Some (indexes (db g) !! a))); [discriminate|].
  simplify_eq. intros a' idx' Hidx' k id. simpl in *.
  rewrite lookup_insert in Hidx'. destruct (decide (a = a')) as [<-|Hne].
  - simplify_eq. rewrite backfill_ids. unfold index_ids, has_text.
    rewrite lookup_empty. simpl. split.
    + intros [H|(data & v & Hin & Hv & Hk)]; [now apply not_elem_of_empty in H|].
      apply elem_of_map_to_list in Hin. eauto.
    + intros (nd & v & Hn & Hv & Hk). right. exists nd, v.
      split; [now apply elem_of_map_to_list|auto].
  - apply (Hex a' idx' Hidx').
Qed.

(** X3. When every index is exact and the new id is not yet a vertex,
    [add_node] succeeds for a non-empty attribute map, stores the vertex
    with no edges, and leaves every index exact: the new vertex is listed
    under the text of each indexed attribute it carries, and nowhere
    else. *)
Theorem add_node_keeps_indexes_exact (rt : Runtime) (attrs : gmap string scalar)
    (new_id : string) (g : GraphDatabase) :
  attrs <> ∅ ->
  nodes (db g) !! new_id = None ->
  indexes_exact rt (db g) ->
  (add_node rt attrs new_id g).2 = Ok new_id
  /\ nodes (db (add_node rt attrs new_id g).1)
     = <[new_id := {| value := attrs; edges := ∅ |}]> (nodes (db g))
  /\ indexes_exact rt (db (add_node rt attrs new_id g).1).
Proof. apply add_node_spec. Qed.

Lemma add_node_keeps_indexes_exact_witness :
  ({[ "name" := VStr "Dora" ]} : gmap string scalar) <> ∅
  /\ nodes (db (create_index plain_runtime "name" demo_graph).1) !! "d" = None
  /\ indexes_exact plain_runtime (db (create_index plain_runtime "name" demo_graph).1)
  /\ indexes_exact plain_runtime
       (db (add_node plain_runtime {[ "name" := VStr "Dora" ]} "d"
              (create_index plain_runtime "name" demo_graph).1).1).
Proof.
  assert (H1 : ({[ "name" := VStr "Dora" ]} : gmap string scalar) <> ∅)
    by apply insert_non_empty.
  assert (H2 : nodes (db (create_index plain_runtime "name" demo_graph).1) !! "d" = None)
    by reflexivity.
  assert (H3 : indexes_exact plain_runtime (db (create_index plain_runtime "name" demo_graph).1)).
  { apply (create_index_keeps_exact plain_runtime "name" demo_graph); [reflexivity|].
    intros a idx H. vm_compute in H. discriminate. }
  split; [exact H1|]. split; [exact H2|]. split; [exact H3|].
  apply (add_node_keeps_indexes_exact plain_runtime {[ "name" := VStr "Dora" ]} "d"
           (create_index plain_runtime "name" demo_graph).1 H1 H2 H3).
Defined.

(** [unlink_all] touches edges only. *)
Lemma unlink_all_values (key : string) (targets : list string) (ns : gmap string node) (id : string) :
  value <$> (unlink_all key targets ns).1 !! id = value <$> ns !! id.
Proof.
  revert ns. induction targets as [|t rest IH]; intros ns; simpl; [reflexivity|].
  destruct (ns !! t) as [nt|] eqn:Ht; [|reflexivity].
  destruct (decide (is_Some (edges nt !! key))); [|reflexivity].
  rewrite IH, lookup_insert. destruct (decide (t = id)) as [->|]; [now rewrite Ht|reflexivity].
Qed.

(** What [delete_node] does to a symmetric database. *)
Lemma delete_node_spec (rt : Runtime) (key : string) (nd : node) (g : GraphDatabase) :
  nodes (db g) !! key = Some nd ->
  adjacency_symmetric (nodes (db g)) ->
  let g' := (delete_node rt key g).1 in
  (delete_node rt key g).2 = Ok tt
  /\ nodes (db g') !! key = None
  /\ (forall id, id <> key -> value <$> nodes (db g') !! id = value <$> nodes (db g) !! id)
  /\ (forall a b, edge_at (nodes (db g')) a b
                  = if decide (a = key \/ b = key) then None else edge_at (nodes (db g)) a b)
  /\ (forall a, indexes (db g') !! a
                = (fun idx => match value nd !! a with
                              | Some v => index_discard (lower (str_scalar rt v)) key idx
                              | None => idx
                              end) <$> indexes (db g) !! a).
Proof.
  intros Hn Hd. unfold delete_node. rewrite Hn. rewrite !snapshot_db.
  destruct (unlink_all_ok key (map_to_list (edges nd)).*1 (nodes (db g))) as (ns' & Hrun & Hat).
  { apply NoDup_fst_map_to_list. }
  { intros t Ht. apply elem_of_keys in Ht. rewrite <- Hd. unfold edge_at. now rewrite Hn. }
  pose proof (unlink_all_values key (map_to_list (edges nd)).*1 (nodes (db g))) as Hval.
  rewrite Hrun in *. simpl in *. split; [reflexivity|]. split; [apply lookup_delete_eq|].
  split; [|split].
  - intros id Hid. rewrite lookup_delete_ne by congruence. apply Hval.
  - intros a b. rewrite edge_at_delete, Hat.
    destruct (decide (a = key)) as [->|Ha].
    + rewrite decide_True by now left. reflexivity.
    + destruct (decide (b = key)) as [->|Hb].
      * rewrite (decide_True (P := a = key \/ key = key)) by now right.
        destruct (decide (a ∈ (map_to_list (edges nd)).*1 /\ key = key)) as [_|Hnot];
          [reflexivity|].
        rewrite Hd. unfold edge_at. rewrite Hn.
        destruct (edges nd !! a) eqn:E; [|reflexivity].
        exfalso. apply Hnot. split; [|reflexivity]. apply elem_of_keys. eauto.
      * rewrite (decide_False (P := a = key \/ b = key)) by tauto.
        rewrite decide_False by tauto. reflexivity.
  - intros a.
    apply (fold_all_keys_lookup _
             (fun a idx => match value nd !! a with
                           | Some v => index_discard (lower (str_scalar rt v)) key idx
                           | None => idx
                           end)).
    intros ix b b'.
    destruct (decide (b' = b)) as [->|Hne].
    + destruct (value nd !! b); destruct (ix !! b) eqn:E; simpl;
        rewrite ?lookup_insert_eq, ?E; reflexivity.
    + destruct (value nd !! b); destruct (ix !! b) eqn:E; simpl;
        rewrite ?lookup_insert_ne by congruence; reflexivity.
Qed.

(** X4. [delete_node] on a missing id raises KeyError and changes
    nothing. On a vertex of a database with symmetric adjacency it
    succeeds: the vertex is gone, no remaining vertex lists it as a
    neighbour, every other adjacency entry and every other attribute map
    is unchanged, and the adjacency is still symmetric. *)
Theorem delete_node_removes_vertex_and_edges (rt : Runtime) (key : string) (g : GraphDatabase) :
  (nodes (db g) !! key = None -> delete_node rt key g = (g, Raise KeyError))
  /\ (is_Some (nodes (db g) !! key) -> adjacency_symmetric (nodes (db g)) ->
      (delete_node rt key g).2 = Ok tt
      /\ nodes (db (delete_node rt key g).1) !! key = None
      /\ (forall a n, nodes (db (delete_node rt key g).1) !! a = Some n -> edges n !! key = None)
      /\ (forall a b, a <> key -> b <> key ->
            edge_at (nodes (db (delete_node rt key g).1)) a b = edge_at (nodes (db g)) a b)
      /\ (forall id, id <> key ->
            value <$> nodes (db (delete_node rt key g).1) !! id = value <$> nodes (db g) !! id)
      /\ adjacency_symmetric (nodes (db (delete_node rt key g).1))).
Proof.
  split.
  - intros Hn. unfold delete_node. now rewrite Hn.
  - intros [nd Hn] Hd.
    destruct (delete_node_spec rt key nd g Hn Hd) as (Hok & Hgone & Hval & Hat & _).
    split; [exact Hok|]. split; [exact Hgone|]. split; [|split; [|split; [exact Hval|]]].
    + intros a n Ha. specialize (Hat a key). unfold edge_at in Hat at 1. rewrite Ha in Hat.
      rewrite Hat. rewrite decide_True by now right. reflexivity.
    + intros a b Ha Hb. rewrite Hat. rewrite decide_False by tauto. reflexivity.
    + intros a b. rewrite !Hat.
      destruct (decide (a = key \/ b = key)) as [H|H].
      * rewrite decide_True by tauto. reflexivity.
      * rewrite decide_False by tauto. apply Hd.
Qed.

Lemma delete_node_removes_vertex_and_edges_witness :
  is_Some (nodes (db demo_graph) !! "a")
  /\ adjacency_symmetric (nodes (db demo_graph))
  /\ (delete_node plain_runtime "a" demo_graph).2 = Ok tt
  /\ nodes (db (delete_node plain_runtime "a" demo_graph).1) !! "a" = None.
Proof.
  assert (H1 : is_Some (nodes (db demo_graph) !! "a")) by (vm_compute; eauto).
  assert (H2 : adjacency_symmetric (nodes (db demo_graph)))
    by apply (reachable_symmetric_state plain_runtime), demo_graph_reachable.
  split; [exact H1|]. split; [exact H2|].
  pose proof (delete_node_removes_vertex_and_edges plain_runtime "a" demo_graph) as [_ H].
  destruct (H H1 H2) as (Hok & Hgone & _). auto.
Defined.

Lemma has_text_values (rt : Runtime) (ns ns' : gmap string node) (a k id : string) :
  value <$> ns' !! id = value <$> ns !! id ->
  has_text rt ns' a k id <-> has_text rt ns a k id.
Proof.
  intros H. unfold has_text. split; intros (n & v & Hn & Hv & Hk).
  - rewrite Hn in H. destruct (ns !! id) as [m|]; [|discriminate]. simpl in H.
    exists m, v. simplify_eq. rewrite <- H. auto.
  - rewrite Hn in H. destruct (ns' !! id) as [m|]; [|discriminate]. simpl in H.
    exists m, v. simplify_eq. rewrite H. auto.
Qed.

(** X5. [delete_node] keeps every index exact when the text of each
    indexed attribute value of the deleted vertex is its own lowercase
    form (an integer, a lowercase string): the entry it removes is then
    the entry that was stored. *)
Theorem delete_node_keeps_indexes_exact (rt : Runtime) (key : string) (nd : node)
    (g : GraphDatabase) :
  nodes (db g) !! key = Some nd ->
  adjacency_symmetric (nodes (db g)) ->
  indexes_exact rt (db g) ->
  (forall a v, is_Some (indexes (db g) !! a) -> value nd !! a = Some v ->
     lower (str_scalar rt v) = str_scalar rt v) ->
  (delete_node rt key g).2 = Ok tt
  /\ indexes_exact rt (db (delete_node rt key g).1).
Proof.
  intros Hn Hd Hex Hlow.
  destruct (delete_node_spec rt key nd g Hn Hd) as (Hok & Hgone & Hval & _ & Hix).
  split; [exact Hok|].
  intros a idx' Hidx' k id. rewrite Hix in Hidx'.
  destruct (indexes (db g) !! a) as [idx|] eqn:Hidx; [|discriminate]. simpl in Hidx'.
  simplify_eq. specialize (Hex a idx Hidx k).
  destruct (decide (id = key)) as [->|Hid].
  - assert (Hnot : ~ has_text rt (nodes (db (delete_node rt key g).1)) a k key).
    { intros (n & v & Hn' & _). rewrite Hgone in Hn'. discriminate. }
    split; [|tauto]. intros Hin. exfalso.
    destruct (value nd !! a) as [v|] eqn:Hv.
    + apply index_ids_discard in Hin as [Hin Hne]. apply Hex in Hin.
      destruct Hin as (n & w & Hn' & Hw & Hk). simplify_eq.
      apply Hne. split; [|reflexivity]. symmetry. apply (Hlow a); eauto.
    + apply Hex in Hin. destruct Hin as (n & w & Hn' & Hw & Hk). simplify_eq.
  - rewrite (has_text_values rt (nodes (db g))) by (apply Hval; exact Hid).
    rewrite <- Hex. destruct (value nd !! a) as [v|].
    + rewrite index_ids_discard. tauto.
    + reflexivity.
Qed.

Lemma indexed_ages_reachable : reachable plain_runtime indexed_ages.
Proof.
  unfold indexed_ages. apply reach_add_node; [|reflexivity].
  apply (reach_exec plain_runtime new_GraphDatabase (CreateIndex "age")); [|discriminate].
  apply reach_new.
Qed.

Lemma indexed_ages_exact : indexes_exact plain_runtime (db indexed_ages).
Proof.
  unfold indexed_ages. apply add_node_spec; [apply insert_non_empty | reflexivity |].
  apply (create_index_keeps_exact plain_runtime "age" new_GraphDatabase); [reflexivity|].
  apply new_engine_indexes_exact.
Qed.

Lemma delete_node_keeps_indexes_exact_witness :
  nodes (db indexed_ages) !! "n1" = Some {| value := {[ "age" := VInt 30 ]}; edges := ∅ |}
  /\ adjacency_symmetric (nodes (db indexed_ages))
  /\ indexes_exact plain_runtime (db indexed_ages)
  /\ indexes_exact plain_runtime (db (delete_node plain_runtime "n1" indexed_ages).1).
Proof.
  assert (H1 : nodes (db indexed_ages) !! "n1"
               = Some {| value := {[ "age" := VInt 30 ]}; edges := ∅ |}) by reflexivity.
  assert (H2 : adjacency_symmetric (nodes (db indexed_ages)))
    by apply (reachable_symmetric_state plain_runtime), indexed_ages_reachable.
  split; [exact H1|]. split; [exact H2|]. split; [exact indexed_ages_exact|].
  apply (delete_node_keeps_indexes_exact plain_runtime "n1" _ indexed_ages H1 H2
           indexed_ages_exact).
  intros a v _ Hv. simpl in Hv. apply lookup_singleton_Some in Hv as [_ <-]. reflexivity.
Defined.

Lemma update_node_spec (rt : Runtime) (key : string) (new_value : gmap string scalar)
    (n : node) (g : GraphDatabase) :
  nodes (db g) !! key = Some n -> new_value <> ∅ ->
  (update_node rt key new_value g).2 = Ok tt
  /\ nodes (db (update_node rt key new_value g).1)
     = <[key := set_value (new_value ∪ value n) n]> (nodes (db g))
  /\ (forall a, indexes (db (update_node rt key new_value g).1) !! a
                = (fun idx =>
                     let old_val := value n !! a in
                     let new_val := match new_value !! a with
                                    | Some v => Some v
                                    | None => old_val
                                    end in
                     if py_ne_opt old_val new_val then
                       let idx1 := match old_val with
                                   | Some ov => index_discard (str_scalar rt ov) key idx
                                   | None => idx
                                   end in
                       match new_val with
                       | Some nv => index_add (str_scalar rt nv) key idx1
                       | None => idx1
                       end
                     else idx) <$> indexes (db g) !! a).
Proof.
  intros Hn Hne. unfold update_node. rewrite Hn, decide_False by exact Hne.
  simpl. rewrite !snapshot_db. split; [reflexivity|]. split; [reflexivity|].
  intros a.
  apply (fold_all_keys_lookup _
           (fun a idx =>
              let old_val := value n !! a in
              let new_val := match new_value !! a with
                             | Some v => Some v
                             | None => old_val
                             end in
              if py_ne_opt old_val new_val then
                let idx1 := match old_val with
                            | Some ov => index_discard (str_scalar rt ov) key idx
                            | None => idx
                            end in
                match new_val with
                | Some nv => index_add (str_scalar rt nv) key idx1
                | None => idx1
                end
              else idx)).
  intros ix b b'. cbv zeta.
  destruct (py_ne_opt _ _).
  - apply update_index_lookup.
  - destruct (decide (b' = b)) as [->|]; [|reflexivity]. now destruct (ix !! b).
Qed.

Lemma has_text_update (rt : Runtime) (ns : gmap string node) (key : string) (n : node)
    (vals : gmap string scalar) (a k id : string) :
  ns !! key = Some n ->
  has_text rt (<[key := set_value vals n]> ns) a k id
  <-> (id = key /\ exists v, vals !! a = Some v /\ str_scalar rt v = k)
      \/ (id <> key /\ has_text rt ns a k id).
Proof.
  intros Hn. unfold has_text. split.
  - intros (m & v & Hm & Hv & Hk). rewrite lookup_insert in Hm.
    destruct (decide (key = id)) as [->|Hne]; simplify_eq; [left|right]; eauto.
    split; [congruence|eauto].
  - intros [[-> (v & Hv & Hk)]|[Hne (m & v & Hm & Hv & Hk)]].
    + exists (set_value vals n), v. rewrite lookup_insert_eq. auto.
    + exists m, v. rewrite lookup_insert_ne by congruence. auto.
Qed.

(** X6. [update_node] keeps every index exact provided that, for each
    indexed attribute it overwrites, an old and a new value that Python
    holds equal ([1 == 1.0 == True]) have the same text; the index is only
    touched when [old_val != new_val]. *)
Theorem update_node_keeps_indexes_exact (rt : Runtime) (key : string)
    (new_value : gmap string scalar) (n : node) (g : GraphDatabase) :
  nodes (db g) !! key = Some n ->
  new_value <> ∅ ->
  indexes_exact rt (db g) ->
  (forall a o v, is_Some (indexes (db g) !! a) -> value n !! a = Some o ->
     new_value !! a = Some v -> py_eq o v = true -> str_scalar rt o = str_scalar rt v) ->
  (update_node rt key new_value g).2 = Ok tt
  /\ indexes_exact rt (db (update_node rt key new_value g).1).
Proof.
  intros Hn Hne Hex Hsame.
  destruct (update_node_spec rt key new_value n g Hn Hne) as (Hok & Hns & Hix).
  split; [exact Hok|].
  intros a idx' Hidx' k id. rewrite Hix in Hidx'. rewrite Hns.
  destruct (indexes (db g) !! a) as [idx|] eqn:Hidx; [|discriminate]. simpl in Hidx'.
  simplify_eq. rewrite (has_text_update rt _ key n _ a k id Hn).
  pose proof (Hex a idx Hidx k id) as Hid. pose proof (Hex a idx Hidx) as Hall.
  assert (Hkey : forall k', key ∈ index_ids idx k'
                   <-> exists o, value n !! a = Some o /\ str_scalar rt o = k').
  { intros k'. rewrite (Hall k' key). unfold has_text. split.
    - intros (m & v & Hm & Hv & Hk). simplify_eq. eauto.
    - intros (o & Ho & Hk). eauto. }
  specialize (Hsame a).
  destruct (new_value !! a) as [v|] eqn:Hv; destruct (value n !! a) as [o|] eqn:Ho; simpl.
  - destruct (py_eq o v) eqn:Heq; simpl.
    + assert (Hs : str_scalar rt o = str_scalar rt v) by (apply (Hsame o v); eauto).
      split.
      * intros Hin. destruct (decide (id = key)) as [->|Hne'].
        -- left. split; [reflexivity|]. apply Hkey in Hin as (o' & Ho' & Hk). simplify_eq.
           exists v. split; [|congruence]. apply lookup_union_Some_raw. now left.
        -- right. split; [exact Hne'|]. now apply Hid.
      * intros [[-> (w & Hw & Hk)]|[Hne' Ht]]; [|now apply Hid].
        apply lookup_union_Some_raw in Hw as [Hw|[Hw _]]; [|congruence]. simplify_eq.
        apply Hkey. exists o. split; [reflexivity|exact Hs].
    + rewrite index_ids_add, index_ids_discard. split.
      * intros [[-> ->]|[Hin Hnot]].
        -- left. split; [reflexivity|]. exists v. split; [|reflexivity].
           apply lookup_union_Some_raw. now left.
        -- right. destruct (decide (id = key)) as [->|Hne']; [|split; [exact Hne'|now apply Hid]].
           exfalso. apply Hnot. split; [|reflexivity].
           apply Hkey in Hin as (o' & Ho' & Hk). now simplify_eq.
      * intros [[-> (w & Hw & Hk)]|[Hne' Ht]].
        -- left. apply lookup_union_Some_raw in Hw as [Hw|[Hw _]]; [|congruence].
           simplify_eq. auto.
        -- right. split; [now apply Hid|]. intros [_ E]. contradiction.
  - rewrite index_ids_add. split.
    + intros [[-> ->]|Hin].
      * left. split; [reflexivity|]. exists v. split; [|reflexivity].
        apply lookup_union_Some_raw. now left.
      * right. destruct (decide (id = key)) as [->|Hne']; [|split; [exact Hne'|now apply Hid]].
        apply Hkey in Hin as (o' & Ho' & _). discriminate.
    + intros [[-> (w & Hw & Hk)]|[Hne' Ht]].
      * left. apply lookup_union_Some_raw in Hw as [Hw|[Hw _]]; [|congruence].
        simplify_eq. auto.
      * right. now apply Hid.
  - assert (Hun : forall w, (new_value ∪ value n) !! a = Some w <-> w = o).
    { intros w. rewrite lookup_union_Some_raw, Hv, Ho. split; [intros [?|[_ ?]]|]; [congruence..|].
      intros ->. auto. }
    destruct (py_eq o o) eqn:Heq; simpl.
    + split.
      * intros Hin. destruct (decide (id = key)) as [->|Hne'].
        -- left. split; [reflexivity|]. apply Hkey in Hin as (o' & Ho' & Hk). simplify_eq.
           exists o'. split; [now apply Hun|reflexivity].
        -- right. split; [exact Hne'|now apply Hid].
      * intros [[-> (w & Hw & Hk)]|[Hne' Ht]]; [|now apply Hid].
        apply Hun in Hw. subst w. apply Hkey. eauto.
    + rewrite index_ids_add, index_ids_discard. split.
      * intros [[-> ->]|[Hin Hnot]].
        -- left. split; [reflexivity|]. exists o. split; [now apply Hun|reflexivity].
        -- right. destruct (decide (id = key)) as [->|Hne']; [|split; [exact Hne'|now apply Hid]].
           exfalso. apply Hnot. split; [|reflexivity].
           apply Hkey in Hin as (o' & Ho' & Hk). now simplify_eq.
      * intros [[-> (w & Hw & Hk)]|[Hne' Ht]].
        -- left. apply Hun in Hw. subst w. auto.
        -- right. split; [now apply Hid|]. intros [_ E]. contradiction.
  - split.
    + intros Hin. right. destruct (decide (id = key)) as [->|Hne']; [|split; [exact Hne'|now apply Hid]].
      apply Hkey in Hin as (o' & Ho' & _). discriminate.
    + intros [[-> (w & Hw & Hk)]|[Hne' Ht]]; [|now apply Hid].
      apply lookup_union_Some_raw in Hw as [Hw|[_ Hw]]; congruence.
Qed.

Lemma update_node_keeps_indexes_exact_witness :
  nodes (db indexed_ages) !! "n1" = Some {| value := {[ "age" := VInt 30 ]}; edges := ∅ |}
  /\ ({[ "age" := VInt 31 ]} : gmap string scalar) <> ∅
  /\ indexes_exact plain_runtime (db indexed_ages)
  /\ indexes_exact plain_runtime
       (db (update_node plain_runtime "n1" {[ "age" := VInt 31 ]} indexed_ages).1).
Proof.
  assert (H1 : nodes (db indexed_ages) !! "n1"
               = Some {| value := {[ "age" := VInt 30 ]}; edges := ∅ |}) by reflexivity.
  assert (H2 : ({[ "age" := VInt 31 ]} : gmap string scalar) <> ∅) by apply insert_non_empty.
  split; [exact H1|]. split; [exact H2|]. split; [exact indexed_ages_exact|].
  apply (update_node_keeps_indexes_exact plain_runtime "n1" _ _ indexed_ages H1 H2
           indexed_ages_exact).
  intros a o v _ Ho Hv Heq. simpl in Ho.
  apply lookup_singleton_Some in Ho as [<- <-].
  apply lookup_singleton_Some in Hv as [_ <-]. discriminate Heq.
Defined.

(** The proviso of X6 is needed: replacing the integer 1 by the boolean
    true leaves the vertex under the key 1. *)
Example update_to_equal_value_keeps_old_key :
  indexes (db (update_node plain_runtime "n1" {[ "age" := VBool true ]}
                 (add_node plain_runtime {[ "age" := VInt 1 ]} "n1"
                    (create_index plain_runtime "age" new_GraphDatabase).1).1).1) !! "age"
  = Some {[ "1" := {[ "n1" ]} ]}.
Proof. vm_compute. reflexivity. Qed.

(** ** Edges *)

(** The two lookups after both directions of an edge were written. *)
Lemma write_pair_lookup (ns : gmap string node) (key1 key2 : string) (n1 n2 : node)
    (p : gmap string scalar) :
  ns !! key1 = Some n1 -> ns !! key2 = Some n2 -> key1 <> key2 ->
  let ns' := alter (fun n => set_edges (<[key1 := p]> (edges n)) n) key2
               (alter (fun n => set_edges (<[key2 := p]> (edges n)) n) key1 ns) in
  ns' !! key1 = Some (set_edges (<[key2 := p]> (edges n1)) n1)
  /\ ns' !! key2 = Some (set_edges (<[key1 := p]> (edges n2)) n2)
  /\ (forall k, k <> key1 -> k <> key2 -> ns' !! k = ns !! k).
Proof.
  intros H1 H2 Hne. cbv zeta. split; [|split].
  - rewrite lookup_alter_ne by congruence. rewrite lookup_alter_eq, H1. reflexivity.
  - rewrite lookup_alter_eq, lookup_alter_ne by congruence. now rewrite H2.
  - intros k Hk1 Hk2. rewrite !lookup_alter_ne by congruence. reflexivity.
Qed.

(** X7. After [add_edge(a, b)] has succeeded, adding the edge again fails
    with ValueError in either direction, whatever label and weight are
    given, and leaves the engine as it is. *)
Theorem add_edge_twice_fails (rt : Runtime) (key1 key2 : string) (label weight : option scalar)
    (g g' : GraphDatabase) :
  add_edge rt key1 key2 label weight g = (g', Ok tt) ->
  forall label' weight',
    add_edge rt key1 key2 label' weight' g' = (g', Raise ValueError)
    /\ add_edge rt key2 key1 label' weight' g' = (g', Raise ValueError).
Proof.
  intros Hadd label' weight'. unfold add_edge in Hadd.
  destruct (nodes (db g) !! key1) as [n1|] eqn:H1; [|discriminate].
  destruct (nodes (db g) !! key2) as [n2|] eqn:H2; [|discriminate].
  destruct (decide (key1 = key2)) as [|Hne]; [discriminate|].
  destruct (decide (is_Some (edges n1 !! key2))); [discriminate|].
  assert (Hshape : exists p, g' = set_db (set_nodes
            (alter (fun n => set_edges (<[key1 := p]> (edges n)) n) key2
               (alter (fun n => set_edges (<[key2 := p]> (edges n)) n) key1
                  (nodes (db (snapshot g))))) (db (snapshot g))) (snapshot g)).
  { destruct weight as [w|]; [destruct (isinstance_int_float w)|]; simplify_eq; eauto. }
  destruct Hshape as [p ->]. rewrite !snapshot_db.
  destruct (write_pair_lookup (nodes (db g)) key1 key2 n1 n2 p H1 H2 Hne) as (L1 & L2 & _).
  unfold add_edge. simpl. rewrite L1, L2. simpl.
  rewrite (decide_False (P := key1 = key2)) by exact Hne.
  rewrite (decide_False (P := key2 = key1)) by congruence.
  rewrite !lookup_insert_eq. rewrite !decide_True by eauto. auto.
Qed.

Lemma add_edge_twice_fails_witness :
  add_edge plain_runtime "a" "c" None None demo_graph
  = ((add_edge plain_runtime "a" "c" None None demo_graph).1, Ok tt)
  /\ add_edge plain_runtime "c" "a" (Some (VStr "again")) None
       (add_edge plain_runtime "a" "c" None None demo_graph).1
     = ((add_edge plain_runtime "a" "c" None None demo_graph).1, Raise ValueError).
Proof.
  split; [reflexivity|].
  apply (add_edge_twice_fails plain_runtime "a" "c" None None demo_graph
           (add_edge plain_runtime "a" "c" None None demo_graph).1).
  reflexivity.
Defined.

(** X8. For two distinct vertices with no edge between them (in either
    direction) and a weight that is absent or a number: [add_edge]
    followed by [delete_edge] succeeds twice and gives back exactly the
    database there was before. *)
Theorem add_edge_then_delete_edge (rt : Runtime) (key1 key2 : string)
    (label weight : option scalar) (n1 n2 : node) (g : GraphDatabase) :
  nodes (db g) !! key1 = Some n1 ->
  nodes (db g) !! key2 = Some n2 ->
  key1 <> key2 ->
  edges n1 !! key2 = None ->
  edges n2 !! key1 = None ->
  (forall w, weight = Some w -> isinstance_int_float w = true) ->
  (add_edge rt key1 key2 label weight g).2 = Ok tt
  /\ (delete_edge key1 key2 (add_edge rt key1 key2 label weight g).1).2 = Ok tt
  /\ db (delete_edge key1 key2 (add_edge rt key1 key2 label weight g).1).1 = db g.
Proof.
  intros H1 H2 Hne He1 He2 Hw.
  assert (Hshape : exists p, add_edge rt key1 key2 label weight g
            = (set_db (set_nodes
                 (alter (fun n => set_edges (<[key1 := p]> (edges n)) n) key2
                    (alter (fun n => set_edges (<[key2 := p]> (edges n)) n) key1
                       (nodes (db g)))) (db g)) (snapshot g), Ok tt)).
  { unfold add_edge. rewrite H1, H2, decide_False by exact Hne.
    rewrite decide_False by (rewrite He1; intros [? ?]; discriminate).
    rewrite !snapshot_db.
    destruct weight as [w|]; [rewrite (Hw w eq_refl)|]; eauto. }
  destruct Hshape as [p ->]. simpl. split; [reflexivity|].
  destruct (write_pair_lookup (nodes (db g)) key1 key2 n1 n2 p H1 H2 Hne) as (L1 & L2 & L3).
  unfold delete_edge. simpl. rewrite L1, L2. simpl.
  rewrite lookup_insert_eq, decide_True by eauto. rewrite !snapshot_db. simpl.
  rewrite lookup_alter_ne by congruence. rewrite L2. simpl.
  rewrite lookup_insert_eq, decide_True by eauto. simpl. split; [reflexivity|].
  destruct g as [[ns ix] t h]. simpl in *. unfold set_nodes. simpl. f_equal.
  apply map_eq. intros k.
  destruct (decide (k = key2)) as [->|Hk2].
  - rewrite lookup_alter_eq, lookup_alter_ne by congruence. rewrite L2. simpl.
    unfold set_edges. simpl. rewrite delete_insert_eq, delete_id by exact He2. now destruct n2.
  - rewrite lookup_alter_ne by congruence.
    destruct (decide (k = key1)) as [->|Hk1].
    + rewrite lookup_alter_eq, L1. simpl.
      unfold set_edges. simpl. rewrite delete_insert_eq, delete_id by exact He1. now destruct n1.
    + rewrite lookup_alter_ne by congruence. now apply L3.
Qed.

Lemma add_edge_then_delete_edge_witness :
  "a" <> "c"
  /\ (add_edge plain_runtime "a" "c" (Some (VStr "likes")) (Some (VInt 2)) demo_graph).2 = Ok tt
  /\ db (delete_edge "a" "c"
           (add_edge plain_runtime "a" "c" (Some (VStr "likes")) (Some (VInt 2)) demo_graph).1).1
     = db demo_graph.
Proof.
  assert (Hne : "a" <> "c") by discriminate.
  destruct (nodes (db demo_graph) !! "a") as [n1|] eqn:H1; [|vm_compute in H1; discriminate].
  destruct (nodes (db demo_graph) !! "c") as [n2|] eqn:H2; [|vm_compute in H2; discriminate].
  assert (He1 : edges n1 !! "c" = None).
  { vm_compute in H1. injection H1 as <-. reflexivity. }
  assert (He2 : edges n2 !! "a" = None).
  { vm_compute in H2. injection H2 as <-. reflexivity. }
  split; [exact Hne|].
  destruct (add_edge_then_delete_edge plain_runtime "a" "c" (Some (VStr "likes"))
              (Some (VInt 2)) n1 n2 demo_graph H1 H2 Hne He1 He2) as (Ha & _ & Hd).
  { intros w Hw. injection Hw as <-. reflexivity. }
  split; [exact Ha|exact Hd].
Defined.

(** X9. [add_edge] takes its snapshot before it checks the weight: with
    a weight that is not a number, on two distinct vertices without an
    edge, it raises ValueError and leaves the database as it is, but in an
    active transaction one snapshot has been pushed, so that the next
    rollback restores the state before the failed call and undoes no
    earlier change. *)
Theorem add_edge_bad_weight_pushes_snapshot (rt : Runtime) (key1 key2 : string)
    (label : option scalar) (w : scalar) (n1 n2 : node) (g : GraphDatabase) :
  nodes (db g) !! key1 = Some n1 ->
  nodes (db g) !! key2 = Some n2 ->
  key1 <> key2 ->
  edges n1 !! key2 = None ->
  isinstance_int_float w = false ->
  add_edge rt key1 key2 label (Some w) g = (snapshot g, Raise ValueError)
  /\ db (snapshot g) = db g
  /\ (transaction g = Some true ->
      transaction_history (snapshot g) = transaction_history g ++ [db g]
      /\ rollback_transaction (snapshot g) = (g, Ok tt)).
Proof.
  intros H1 H2 Hne He Hw. split; [|split].
  - unfold add_edge. rewrite H1, H2, decide_False by exact Hne.
    rewrite decide_False by (rewrite He; intros [? ?]; discriminate).
    now rewrite Hw.
  - apply snapshot_db.
  - intros Ht. rewrite (snapshot_active g Ht). simpl. split; [reflexivity|].
    unfold rollback_transaction, no_transaction. simpl.
    rewrite last_snoc, removelast_last. destruct g; simpl in *. now subst.
Qed.

(** X10. In an active transaction, after two vertex or edge mutations
    that succeeded, [commit_transaction] followed by
    [rollback_transaction] restores the engine state from before the
    first of the two: the commit drops the newest snapshot, and the
    rollback then goes back one mutation further. *)
Theorem commit_then_rollback_undoes_two (rt : Runtime) (c1 c2 : command)
    (g g1 g2 : GraphDatabase) :
  is_data_mutation c1 = true -> is_data_mutation c2 = true ->
  transaction g = Some true ->
  exec rt c1 g = (g1, Ok tt) ->
  exec rt c2 g1 = (g2, Ok tt) ->
  (commit_transaction g2).2 = Ok tt
  /\ rollback_transaction (commit_transaction g2).1 = (g, Ok tt).
Proof.
  intros Hc1 Hc2 Ht H1 H2.
  destruct (data_mutation_shape rt c1 g g1 Hc1 H1) as [d1 ->].
  destruct (data_mutation_shape rt c2 _ g2 Hc2 H2) as [d2 ->].
  rewrite (snapshot_active g Ht). unfold set_db at 2. simpl.
  unfold snapshot. simpl.
  unfold commit_transaction, rollback_transaction, no_transaction. simpl.
  rewrite removelast_last, last_snoc, removelast_last.
  split; [reflexivity|]. destruct g; simpl in *. now subst.
Qed.

Lemma commit_then_rollback_undoes_two_witness :
  is_data_mutation add_d = true
  /\ is_data_mutation (DeleteNode "d") = true
  /\ transaction tx_open = Some true
  /\ rollback_transaction
       (commit_transaction
          (exec plain_runtime (DeleteNode "d") (exec plain_runtime add_d tx_open).1).1).1
     = (tx_open, Ok tt).
Proof.
  split; [reflexivity|]. split; [reflexivity|]. split; [reflexivity|].
  apply (commit_then_rollback_undoes_two plain_runtime add_d (DeleteNode "d") tx_open
           (exec plain_runtime add_d tx_open).1
           (exec plain_runtime (DeleteNode "d") (exec plain_runtime add_d tx_open).1).1);
    reflexivity.
Defined.

Lemma add_edge_bad_weight_pushes_snapshot_witness :
  "a" <> "c"
  /\ isinstance_int_float (VStr "heavy") = false
  /\ add_edge plain_runtime "a" "c" None (Some (VStr "heavy")) (begin_transaction demo_graph).1
     = (snapshot (begin_transaction demo_graph).1, Raise ValueError)
  /\ transaction_history (snapshot (begin_transaction demo_graph).1) = [db demo_graph].
Proof.
  assert (Hne : "a" <> "c") by discriminate.
  destruct (nodes (db (begin_transaction demo_graph).1) !! "a") as [n1|] eqn:H1;
    [|vm_compute in H1; discriminate].
  destruct (nodes (db (begin_transaction demo_graph).1) !! "c") as [n2|] eqn:H2;
    [|vm_compute in H2; discriminate].
  assert (He1 : edges n1 !! "c" = None).
  { vm_compute in H1. injection H1 as <-. reflexivity. }
  split; [exact Hne|]. split; [reflexivity|].
  destruct (add_edge_bad_weight_pushes_snapshot plain_runtime "a" "c" None (VStr "heavy")
              n1 n2 (begin_transaction demo_graph).1 H1 H2 Hne He1 eq_refl) as (Hr & _ & Ht).
  split; [exact Hr|]. destruct (Ht eq_refl) as [Hh _]. exact Hh.
Defined.

(** ** Vertices *)

(** X11. [update_node] merges: on a missing id it raises KeyError, on an
    empty map ValueError, both without any change. Otherwise it succeeds;
    the attribute map of the vertex is then the new map over the old one
    (attributes given are overwritten, all others kept), and the edges of
    the vertex and every other vertex are unchanged. *)
Theorem update_node_merges (rt : Runtime) (key : string) (new_value : gmap string scalar)
    (g : GraphDatabase) :
  (nodes (db g) !! key = None -> update_node rt key new_value g = (g, Raise KeyError))
  /\ (is_Some (nodes (db g) !! key) -> new_value = ∅ ->
      update_node rt key new_value g = (g, Raise ValueError))
  /\ (forall n, nodes (db g) !! key = Some n -> new_value <> ∅ ->
      (update_node rt key new_value g).2 = Ok tt
      /\ (forall a, get_value key (update_node rt key new_value g).1 !! a
                    = match new_value !! a with
                      | Some v => Some v
                      | None => value n !! a
                      end)
      /\ (forall a b, edge_at (nodes (db (update_node rt key new_value g).1)) a b
                      = edge_at (nodes (db g)) a b)
      /\ (forall id, id <> key ->
            nodes (db (update_node rt key new_value g).1) !! id = nodes (db g) !! id)).
Proof.
  split; [|split].
  - intros Hn. unfold update_node. now rewrite Hn.
  - intros [n Hn] ->. unfold update_node. rewrite Hn. now rewrite decide_True.
  - intros n Hn Hne.
    destruct (update_node_spec rt key new_value n g Hn Hne) as (Hok & Hns & _).
    split; [exact Hok|]. unfold get_value. rewrite Hns. split; [|split].
    + intros a. rewrite lookup_insert_eq. simpl. rewrite lookup_union.
      destruct (new_value !! a), (value n !! a); reflexivity.
    + intros a b. apply edge_at_insert_value. exact Hn.
    + intros id Hid. rewrite lookup_insert_ne by congruence. reflexivity.
Qed.

Lemma update_node_merges_witness :
  nodes (db indexed_ages) !! "n1" = Some {| value := {[ "age" := VInt 30 ]}; edges := ∅ |}
  /\ ({[ "name" := VStr "Eve" ]} : gmap string scalar) <> ∅
  /\ get_value "n1" (update_node plain_runtime "n1" {[ "name" := VStr "Eve" ]} indexed_ages).1
       !! "age" = Some (VInt 30).
Proof.
  assert (H1 : nodes (db indexed_ages) !! "n1"
               = Some {| value := {[ "age" := VInt 30 ]}; edges := ∅ |}) by reflexivity.
  assert (H2 : ({[ "name" := VStr "Eve" ]} : gmap string scalar) <> ∅) by apply insert_non_empty.
  split; [exact H1|]. split; [exact H2|].
  pose proof (update_node_merges plain_runtime "n1" {[ "name" := VStr "Eve" ]} indexed_ages)
    as (_ & _ & H).
  destruct (H _ H1 H2) as (_ & Hget & _). rewrite Hget. reflexivity.
Defined.

(** ** No self-loops through the engine *)

Lemma no_self_loops_write_pair (ns : gmap string node) (x y : string) (p : gmap string scalar) :
  x <> y -> (forall a, edge_at ns a a = None) ->
  forall a, edge_at (alter (fun n => set_edges (<[x := p]> (edges n)) n) y
                       (alter (fun n => set_edges (<[y := p]> (edges n)) n) x ns)) a a = None.
Proof.
  intros Hne Hs a.
  rewrite (edge_at_alter (fun es => <[x := p]> es)), lookup_alter.
  rewrite (edge_at_alter (fun es => <[y := p]> es)).
  specialize (Hs a). unfold edge_at in Hs.
  destruct (decide (a = y)) as [->|Hay].
  - rewrite decide_False by exact Hne.
    destruct (ns !! y) as [n|]; [|reflexivity]. simpl.
    rewrite lookup_insert_ne by exact Hne. exact Hs.
  - destruct (decide (a = x)) as [->|Hax]; [|exact Hs].
    destruct (ns !! x) as [n|]; [|reflexivity].
    rewrite lookup_insert_ne by congruence. exact Hs.
Qed.

Lemma loop_free_snapshot (g : GraphDatabase) : loop_free_state g -> loop_free_state (snapshot g).
Proof.
  intros [Hd Hh]. unfold snapshot.
  destruct (transaction g) as [[]|]; split; simpl; auto.
  apply Forall_app; split; auto.
Qed.

Lemma edge_at_alter_delete (k x : string) (ns : gmap string node) (a b : string) :
  edge_at ns a b = None ->
  edge_at (alter (fun n => set_edges (delete x (edges n)) n) k ns) a b = None.
Proof.
  intros H. rewrite (edge_at_alter (fun es => delete x es)).
  destruct (decide (a = k)) as [->|]; [|exact H].
  unfold edge_at in H. destruct (ns !! k) as [n|]; [|reflexivity].
  rewrite lookup_delete. destruct (decide (x = b)); [reflexivity|exact H].
Qed.

Lemma unlink_all_no_new_edge (key : string) (targets : list string) (ns : gmap string node)
    (a b : string) :
  edge_at ns a b = None -> edge_at (unlink_all key targets ns).1 a b = None.
Proof.
  revert ns. induction targets as [|t rest IH]; intros ns H; simpl; [exact H|].
  destruct (ns !! t) as [nt|] eqn:Ht; [|exact H].
  destruct (decide (is_Some (edges nt !! key))); [|exact H].
  apply IH. unfold edge_at in *. rewrite lookup_insert.
  destruct (decide (t = a)) as [->|]; [|exact H]. simpl. rewrite Ht in H.
  rewrite lookup_delete. destruct (decide (key = b)); [reflexivity|exact H].
Qed.

Lemma loop_free_exec (rt : Runtime) (c : command) (g : GraphDatabase) :
  loop_free_state g -> loop_free_state (exec rt c g).1.
Proof.
  intros Hg. destruct c; simpl.
  - unfold add_node. case_decide; [exact Hg|]. simpl.
    apply loop_free_snapshot in Hg as [Hd Hh]. split; [|exact Hh]. simpl.
    intros a. unfold edge_at. rewrite lookup_insert.
    destruct (decide (new_id = a)); [reflexivity|apply Hd].
  - unfold update_node. destruct (nodes (db g) !! key) as [n|] eqn:Hn; [|exact Hg].
    case_decide; [exact Hg|]. simpl.
    apply loop_free_snapshot in Hg as [Hd Hh]. rewrite snapshot_db in *.
    split; [|exact Hh]. simpl. intros a. rewrite (edge_at_insert_value _ _ _ _ _ _ Hn). apply Hd.
  - unfold delete_node. destruct (nodes (db g) !! key) as [nd|] eqn:Hn; [|exact Hg].
    apply loop_free_snapshot in Hg as [Hd Hh]. rewrite snapshot_db in *.
    pose proof (fun a => unlink_all_no_new_edge key (map_to_list (edges nd)).*1
                           (nodes (db g)) a a (Hd a)) as Hun.
    destruct (unlink_all key (map_to_list (edges nd)).*1 (nodes (db g))) as [ns' [[]|e]];
      simpl in *; (split; [|exact Hh]); simpl.
    + intros a. rewrite edge_at_delete. destruct (decide (a = key)); [reflexivity|apply Hun].
    + exact Hun.
  - unfold add_edge.
    destruct (nodes (db g) !! key1) as [n1|] eqn:H1; [|exact Hg].
    destruct (nodes (db g) !! key2) as [n2|] eqn:H2; [|exact Hg].
    destruct (decide (key1 = key2)) as [|Hne]; [exact Hg|]. case_decide; [exact Hg|].
    pose proof (loop_free_snapshot g Hg) as [Hd Hh].
    destruct weight as [w|]; [destruct (isinstance_int_float w)|]; simpl;
      try (split; [|exact Hh]; simpl; intros a; apply no_self_loops_write_pair;
           [congruence|exact Hd]).
    split; [exact Hd|exact Hh].
  - unfold delete_edge.
    destruct (nodes (db g) !! key1) as [n1|] eqn:H1; [|exact Hg].
    destruct (nodes (db g) !! key2) as [n2|] eqn:H2; [|exact Hg].
    case_decide; [|exact Hg].
    pose proof (loop_free_snapshot g Hg) as [Hd Hh].
    repeat case_match; simpl; (split; [|exact Hh]); simpl; intros a;
      repeat apply edge_at_alter_delete; apply Hd.
  - unfold create_index. repeat case_match; exact Hg.
  - unfold drop_index. repeat case_match; exact Hg.
  - unfold begin_transaction. destruct Hg. case_match; split; simpl; auto.
  - unfold commit_transaction. destruct Hg as [Hd Hh]. case_match; split; simpl; auto.
    destruct (transaction_history g) as [|d l] using rev_ind; [constructor|].
    rewrite removelast_last. apply Forall_app in Hh. tauto.
  - unfold rollback_transaction. destruct Hg as [Hd Hh].
    case_match; [split; auto|].
    destruct (last (transaction_history g)) as [d|] eqn:Hl; [|split; auto].
    apply last_Some in Hl as [l Hl]. rewrite Hl in *. rewrite removelast_last.
    apply Forall_app in Hh as [Hh Hlast]. inversion Hlast; subst. split; auto.
  - unfold stop_transaction. destruct Hg. case_match; split; simpl; auto.
Qed.

(** X12. Whatever sequence of engine commands is run on a new engine
    (vertex, edge, index and transaction operations, failing ones
    included, with any ids), no vertex ever lists itself as a neighbour. *)
Theorem engine_never_makes_self_loop (rt : Runtime) (cs : list command) (a : string) :
  edge_at (nodes (db (run rt cs new_GraphDatabase))) a a = None.
Proof.
  assert (H : forall g, loop_free_state g -> loop_free_state (run rt cs g)).
  { induction cs as [|c cs IH]; intros g Hg; simpl; [exact Hg|].
    apply IH. now apply loop_free_exec. }
  apply (H new_GraphDatabase). split; [|constructor]. intros x. reflexivity.
Qed.

(** A merge import does write the self-loop that its file holds. *)
Example import_merge_self_loop :
  edge_at (nodes (db (import_merge plain_runtime
                        {[ "a" := {| value := {[ "name" := VStr "Al" ]};
                                     edges := {[ "a" := ∅ ]} |} ]} ∅ new_GraphDatabase)))
    "a" "a" = Some ∅.
Proof. vm_compute. reflexivity. Qed.

(** ** Name search *)

(** X13. With an index on [name] that is exact, [find_by_name(q)] returns,
    without repetition, exactly the vertices whose name has the text
    [q.lower()]: the match is exact, and a vertex whose name contains an
    uppercase letter is never returned. *)
Theorem find_by_name_through_index (rt : Runtime) (name : string) (g : GraphDatabase) :
  is_Some (indexes (db g) !! "name") ->
  index_exact rt (db g) "name" ->
  exists l, find_by_name name g = Ok l
    /\ NoDup l
    /\ forall id, id ∈ l <-> has_text rt (nodes (db g)) "name" (lower name) id.
Proof.
  intros [idx Hidx] Hex. unfold find_by_name. rewrite Hidx.
  eexists. split; [reflexivity|]. split; [apply NoDup_elements|].
  intros id. rewrite elem_of_elements. apply (Hex idx Hidx).
Qed.

Lemma find_by_name_scan_ok (name : string) (items : list (string * node)) :
  (forall id n v, (id, n) ∈ items -> value n !! "name" = Some v -> truthy v = true ->
     isinstance_str v = true) ->
  exists l, find_by_name_scan name items = Ok l
    /\ (forall id, id ∈ l <->
          exists n s, (id, n) ∈ items /\ value n !! "name" = Some (VStr s)
                      /\ s <> EmptyString /\ str_in (lower name) (lower s) = true)
    /\ (NoDup items.*1 -> NoDup l).
Proof.
  induction items as [|[node_id data] rest IH]; intros Hall.
  - exists []. split; [reflexivity|]. split; [|constructor].
    intros id. split; [intros H; inversion H|]. intros (n & s & H & _). inversion H.
  - destruct IH as (l & Hl & Hmem & Hnd).
    { intros id n v Hin. apply (Hall id). now right. }
    assert (Hskip : forall id, id ∈ l <->
              exists n s, (id, n) ∈ rest /\ value n !! "name" = Some (VStr s)
                          /\ s <> EmptyString /\ str_in (lower name) (lower s) = true)
      by exact Hmem.
    simpl. destruct (value data !! "name") as [v|] eqn:Hv.
    + destruct (truthy v) eqn:Ht.
      * specialize (Hall node_id data v (ltac:(left)) Hv Ht).
        destruct v as [s| | |]; try discriminate. rewrite Hl. simpl.
        destruct (str_in (lower name) (lower s)) eqn:Hin.
        -- eexists. split; [reflexivity|]. split.
           ++ intros id. rewrite elem_of_cons, Hmem. split.
              ** intros [->|(n & s' & H & Hrest)].
                 --- exists data, s. split; [left|]. repeat split; auto.
                     intros ->. discriminate.
                 --- exists n, s'. split; [now right|exact Hrest].
              ** intros (n & s' & H & Hn & Hrest). apply elem_of_cons in H as [E|H].
                 --- left. now simplify_eq.
                 --- right. eauto 8.
           ++ intros Hd. simpl in Hd. apply NoDup_cons in Hd as [Hnot Hd].
              apply NoDup_cons. split; [|auto].
              intros Hc. apply Hmem in Hc as (n & s' & H & _). apply Hnot.
              apply list_elem_of_fmap. exists (node_id, n). auto.
        -- exists l. split; [reflexivity|]. split.
           ++ intros id. rewrite Hmem. split.
              ** intros (n & s' & H & Hrest). exists n, s'. split; [now right|exact Hrest].
              ** intros (n & s' & H & Hn & Hs & Hi). apply elem_of_cons in H as [E|H].
                 --- simplify_eq. congruence.
                 --- eauto 8.
           ++ intros Hd. simpl in Hd. apply NoDup_cons in Hd as [_ Hd]. auto.
      * exists l. split; [exact Hl|]. split.
        -- intros id. rewrite Hmem. split.
           ++ intros (n & s' & H & Hrest). exists n, s'. split; [now right|exact Hrest].
           ++ intros (n & s' & H & Hn & Hs & Hi). apply elem_of_cons in H as [E|H].
              ** simplify_eq. destruct s'; [contradiction|discriminate].
              ** eauto 8.
        -- intros Hd. simpl in Hd. apply NoDup_cons in Hd as [_ Hd]. auto.
    + exists l. split; [exact Hl|]. split.
      * intros id. rewrite Hmem. split.
        -- intros (n & s' & H & Hrest). exists n, s'. split; [now right|exact Hrest].
        -- intros (n & s' & H & Hn & Hrest). apply elem_of_cons in H as [E|H].
           ++ simplify_eq.
           ++ eauto 8.
      * intros Hd. simpl in Hd. apply NoDup_cons in Hd as [_ Hd]. auto.
Qed.

Lemma find_by_name_scan_raises (name : string) (items : list (string * node)) :
  (exists id n v, (id, n) ∈ items /\ value n !! "name" = Some v /\ truthy v = true
                  /\ isinstance_str v = false) ->
  find_by_name_scan name items = Raise AttributeError.
Proof.
  induction items as [|[node_id data] rest IH]; intros (id & n & v & Hin & Hv & Ht & Hs).
  - inversion Hin.
  - simpl. apply elem_of_cons in Hin as [E|Hin].
    + simplify_eq. rewrite Hv, Ht. destruct v; try discriminate; reflexivity.
    + assert (Hrest : find_by_name_scan name rest = Raise AttributeError) by (apply IH; eauto 8).
      destruct (value data !! "name") as [w|]; [|exact Hrest].
      destruct (truthy w); [|exact Hrest].
      destruct w; try reflexivity. now rewrite Hrest.
Qed.

(** X14. Without an index on [name], [find_by_name(q)] scans: when every
    name that counts as true is a string, it returns, without repetition,
    exactly the vertices whose non-empty name contains [q] as a substring,
    letter case ignored; when some vertex has a name that is true but not
    a string (a number, the boolean true), it raises AttributeError. *)
Theorem find_by_name_by_scan (name : string) (g : GraphDatabase) :
  indexes (db g) !! "name" = None ->
  ((forall id n v, nodes (db g) !! id = Some n -> value n !! "name" = Some v ->
      truthy v = true -> isinstance_str v = true) ->
   exists l, find_by_name name g = Ok l
     /\ NoDup l
     /\ forall id, id ∈ l <->
          exists n s, nodes (db g) !! id = Some n /\ value n !! "name" = Some (VStr s)
                      /\ s <> EmptyString /\ str_in (lower name) (lower s) = true)
  /\ ((exists id n v, nodes (db g) !! id = Some n /\ value n !! "name" = Some v
                      /\ truthy v = true /\ isinstance_str v = false) ->
      find_by_name name g = Raise AttributeError).
Proof.
  intros Hno. unfold find_by_name. rewrite Hno. split.
  - intros Hall.
    destruct (find_by_name_scan_ok name (map_to_list (nodes (db g)))) as (l & Hl & Hmem & Hnd).
    { intros id n v Hin. apply elem_of_map_to_list in Hin. eauto. }
    exists l. split; [exact Hl|]. split; [apply Hnd, NoDup_fst_map_to_list|].
    intros id. rewrite Hmem. split; intros (n & s & H & Hrest); exists n, s;
      (split; [now apply elem_of_map_to_list|exact Hrest]).
  - intros (id & n & v & Hn & Hrest). apply find_by_name_scan_raises.
    exists id, n, v. split; [now apply elem_of_map_to_list|exact Hrest].
Qed.

Lemma create_index_creates (rt : Runtime) (a : string) (g g' : GraphDatabase) :
  create_index rt a g = (g', Ok tt) -> is_Some (indexes (db g') !! a).
Proof.
  unfold create_index. intros H. repeat case_match; simplify_eq.
  simpl. rewrite lookup_insert_eq. eauto.
Qed.

Lemma demo_graph_indexes_exact : indexes_exact plain_runtime (db demo_graph).
Proof. intros a idx H. vm_compute in H. discriminate. Qed.

Lemma find_by_name_through_index_witness :
  is_Some (indexes (db (create_index plain_runtime "name" demo_graph).1) !! "name")
  /\ index_exact plain_runtime (db (create_index plain_runtime "name" demo_graph).1) "name"
  /\ exists l, find_by_name "Alice" (create_index plain_runtime "name" demo_graph).1 = Ok l
       /\ NoDup l
       /\ forall id, id ∈ l <->
            has_text plain_runtime (nodes (db (create_index plain_runtime "name" demo_graph).1))
              "name" (lower "Alice") id.
Proof.
  assert (H1 : is_Some (indexes (db (create_index plain_runtime "name" demo_graph).1) !! "name"))
    by (apply (create_index_creates plain_runtime "name" demo_graph); reflexivity).
  assert (H2 : index_exact plain_runtime
                 (db (create_index plain_runtime "name" demo_graph).1) "name").
  { apply (create_index_keeps_exact plain_runtime "name" demo_graph); [reflexivity|].
    exact demo_graph_indexes_exact. }
  split; [exact H1|]. split; [exact H2|].
  apply (find_by_name_through_index plain_runtime "Alice"
           (create_index plain_runtime "name" demo_graph).1 H1 H2).
Defined.

(** The vertex named Alice is found by the scan and not through the index. *)
Example find_alice :
  find_by_name "Alice" demo_graph = Ok ["a"]
  /\ find_by_name "ali" demo_graph = Ok ["a"]
  /\ find_by_name "Alice" (create_index plain_runtime "name" demo_graph).1 = Ok [].
Proof. repeat split; vm_compute; reflexivity. Qed.

(** A check that computes: every name that counts as true is a string. *)
Lemma names_check (ns : gmap string node) :
  forallb (fun kv : string * node =>
             match value kv.2 !! "name" with
             | Some v => implb (truthy v) (isinstance_str v)
             | None => true
             end) (map_to_list ns) = true ->
  forall id n v, ns !! id = Some n -> value n !! "name" = Some v ->
    truthy v = true -> isinstance_str v = true.
Proof.
  intros Hall id n v Hn Hv Ht.
  rewrite forallb_forall in Hall. specialize (Hall (id, n)). simpl in Hall.
  rewrite Hv, Ht in Hall. apply Hall.
  apply list_elem_of_In. now apply elem_of_map_to_list.
Qed.

Lemma find_by_name_by_scan_witness :
  indexes (db demo_graph) !! "name" = None
  /\ exists l, find_by_name "LI" demo_graph = Ok l
       /\ NoDup l
       /\ forall id, id ∈ l <->
            exists n s, nodes (db demo_graph) !! id = Some n
                        /\ value n !! "name" = Some (VStr s)
                        /\ s <> EmptyString /\ str_in (lower "LI") (lower s) = true.
Proof.
  assert (H1 : indexes (db demo_graph) !! "name" = None) by reflexivity.
  split; [exact H1|].
  apply (find_by_name_by_scan "LI" demo_graph H1).
  apply names_check. vm_compute. reflexivity.
Defined.

(** ** Query results *)

Lemma rows_ok_add (ns : gmap string node) (acc : acc_t) (node_id : string) (data : node) :
  rows_ok ns acc -> node_id ∉ acc.2 -> ns !! node_id = Some data ->
  rows_ok ns (acc.1 ++ [(node_id, value data)], acc.2 ∪ {[node_id]}).
Proof.
  intros (Hnd & Hseen & Hrows) Hnot Hn. split; [|split]; simpl.
  - rewrite fmap_app. simpl. apply NoDup_app. split; [exact Hnd|]. split.
    + intros x Hx Hx'. apply list_elem_of_singleton in Hx'. subst x.
      apply Hnot. now apply Hseen.
    + apply NoDup_singleton.
  - intros id. rewrite elem_of_union, elem_of_singleton, fmap_app, elem_of_app, Hseen.
    simpl. rewrite list_elem_of_singleton. reflexivity.
  - intros id row Hin. apply elem_of_app in Hin as [Hin|Hin]; [eauto|].
    apply list_elem_of_singleton in Hin. simplify_eq. eauto.
Qed.

Lemma run_scan_rows_ok (rt : Runtime) (cast cs : bool) (ns : gmap string node)
    (conditions : list condition) (items : list (string * node)) (acc acc' : acc_t) :
  (forall id data, (id, data) ∈ items -> ns !! id = Some data) ->
  rows_ok ns acc ->
  run_scan rt cast cs conditions items acc = Ok acc' -> rows_ok ns acc'.
Proof.
  revert acc. induction items as [|[node_id data] rest IH]; intros acc Hitems Hacc Hrun;
    simpl in Hrun.
  - now simplify_eq.
  - assert (Hrest : forall id d, (id, d) ∈ rest -> ns !! id = Some d)
      by (intros id d Hin; apply Hitems; now right).
    destruct (decide (node_id ∈ acc.2)) as [Hin|Hnot]; [now apply (IH acc)|].
    destruct (eval_all _ conditions) as [m|e]; [|discriminate]. simpl in Hrun.
    destruct m; [|now apply (IH acc)].
    apply (IH _ Hrest) in Hrun; [exact Hrun|].
    apply rows_ok_add; auto. apply Hitems. left.
Qed.

Lemma run_indexed_rows_ok (rt : Runtime) (cs : bool) (ns : gmap string node)
    (conditions : list condition) (cands : list string) (acc acc' : acc_t) :
  rows_ok ns acc ->
  run_indexed rt cs ns conditions cands acc = Ok acc' -> rows_ok ns acc'.
Proof.
  revert acc. induction cands as [|node_id rest IH]; intros acc Hacc Hrun; simpl in Hrun.
  - now simplify_eq.
  - destruct (decide (node_id ∈ acc.2)) as [Hin|Hnot]; [now apply (IH acc)|].
    destruct (ns !! node_id) as [data|] eqn:Hn; [|discriminate].
    destruct (eval_all _ conditions) as [m|e]; [|discriminate]. simpl in Hrun.
    destruct m; [|now apply (IH acc)].
    apply IH in Hrun; [exact Hrun|]. now apply rows_ok_add.
Qed.

Lemma run_groups_rows_ok (rt : Runtime) (cast cs : bool) (d : database)
    (or_conditions : list (list condition)) (acc acc' : acc_t) :
  rows_ok (nodes d) acc ->
  run_groups rt cast cs d or_conditions acc = Ok acc' -> rows_ok (nodes d) acc'.
Proof.
  revert acc. induction or_conditions as [|conditions rest IH]; intros acc Hacc Hrun;
    simpl in Hrun.
  - now simplify_eq.
  - destruct (plan rt cs (indexes d) conditions None) as [cands|].
    + destruct (run_indexed rt cs (nodes d) conditions (elements cands) acc) as [acc1|e] eqn:H1;
        [|discriminate].
      simpl in Hrun. apply (IH acc1); [|exact Hrun].
      now apply (run_indexed_rows_ok rt cs (nodes d) conditions (elements cands) acc).
    + destruct (run_scan rt cast cs conditions (map_to_list (nodes d)) acc) as [acc1|e] eqn:H1;
        [|discriminate].
      simpl in Hrun. apply (IH acc1); [|exact Hrun].
      apply (run_scan_rows_ok rt cast cs (nodes d) conditions (map_to_list (nodes d)) acc);
        auto.
      intros id data Hin. now apply elem_of_map_to_list.
Qed.

(** X15. A query that returns normally returns each vertex at most once,
    however many OR-groups it matches, and every row is a vertex of the
    database paired with its attribute map. *)
Theorem query_rows_are_distinct_vertices (rt : Runtime) (query_string : string)
    (cast_non_strings case_sensitive : bool) (g : GraphDatabase) (rows : list result_row) :
  query rt query_string cast_non_strings case_sensitive g = Ok rows ->
  NoDup rows.*1
  /\ forall id row, (id, row) ∈ rows -> get_value id g = row /\ is_Some (nodes (db g) !! id).
Proof.
  unfold query. intros H.
  destruct (parse_query rt query_string) as [groups|e]; [|discriminate]. simpl in H.
  destruct (run_groups rt cast_non_strings case_sensitive (db g) groups ([], ∅))
    as [acc|e] eqn:Hrun; [|discriminate].
  simpl in H. simplify_eq.
  apply run_groups_rows_ok in Hrun as (Hnd & _ & Hrows).
  - split; [exact Hnd|]. intros id row Hin. destruct (Hrows id row Hin) as (n & Hn & Hv).
    unfold get_value. rewrite Hn. eauto.
  - split; [constructor|]. split.
    + intros id. simpl. split; intros Hx; [now apply not_elem_of_empty in Hx|inversion Hx].
    + intros id row Hin. inversion Hin.
Qed.

Lemma query_rows_are_distinct_vertices_witness :
  query plain_runtime "WHERE age > 20 OR name = alice" false false demo_graph
  = Ok (match query plain_runtime "WHERE age > 20 OR name = alice" false false demo_graph with
        | Ok rows => rows
        | Raise _ => []
        end)
  /\ NoDup (match query plain_runtime "WHERE age > 20 OR name = alice" false false demo_graph with
            | Ok rows => rows
            | Raise _ => []
            end).*1.
Proof.
  assert (H : query plain_runtime "WHERE age > 20 OR name = alice" false false demo_graph
              = Ok (match query plain_runtime "WHERE age > 20 OR name = alice" false false
                            demo_graph with
                    | Ok rows => rows
                    | Raise _ => []
                    end)) by (vm_compute; reflexivity).
  split; [exact H|].
  apply (query_rows_are_distinct_vertices plain_runtime
           "WHERE age > 20 OR name = alice" false false demo_graph _ H).
Defined.

Example query_or_groups :
  result_ids (query plain_runtime "WHERE age > 20 OR name = alice" false false demo_graph)
  = Ok ["a"; "b"].
Proof. vm_compute. reflexivity. Qed.

(** ** The indexed plan *)

(** A group that is planned onto indexes holds only [=] and [IN]
    conditions on vertex attributes. *)
Lemma plan_conditions (rt : Runtime) (cs : bool) (ix : gmap string (gmap string (gset string)))
    (conditions : list condition) (candidate : option (gset string)) (cands : gset string) :
  plan rt cs ix conditions candidate = Some cands ->
  forall c, c ∈ conditions ->
    startswith (cond_key c) "edge." = false
    /\ ((exists k lit, c = CCmp k OpEq lit) \/ (exists k lits, c = CIn k lits)).
Proof.
  revert candidate.
  induction conditions as [|c rest IH]; intros candidate Hplan x Hx; [inversion Hx|].
  simpl in Hplan. destruct (startswith (cond_key c) "edge.") eqn:He; [discriminate|].
  destruct (ix !! cond_key c) as [idx|]; [|discriminate].
  assert (Hc : (exists k lit, c = CCmp k OpEq lit) \/ (exists k lits, c = CIn k lits)).
  { destruct c as [k [] lit|k lits|k lit|k p]; eauto; discriminate. }
  apply elem_of_cons in Hx as [->|Hx]; [auto|].
  destruct Hc as [(k & lit & ->)|(k & lits & ->)]; eapply IH; eauto.
Qed.

Lemma indexed_eval_is_scan_eval (rt : Runtime) (cast cs : bool) (data : node)
    (conditions : list condition) :
  (forall c, c ∈ conditions ->
     startswith (cond_key c) "edge." = false
     /\ ((exists k lit, c = CCmp k OpEq lit) \/ (exists k lits, c = CIn k lits))) ->
  eval_all (eval_indexed_cond rt cs (value data)) conditions
  = eval_all (eval_scan_cond rt cast cs data) conditions.
Proof.
  induction conditions as [|c rest IH]; intros Hall; [reflexivity|]. simpl.
  assert (Hc : eval_indexed_cond rt cs (value data) c = eval_scan_cond rt cast cs data c).
  { destruct (Hall c) as [He Hk]; [left|]. unfold eval_scan_cond. rewrite He.
    unfold eval_indexed_cond, eval_node_cond.
    destruct Hk as [(k & lit & ->)|(k & lits & ->)]; reflexivity. }
  rewrite Hc, IH; [reflexivity|]. intros x Hx. apply Hall. now right.
Qed.

(** X16. The index filters and does not prove: when an AND-group is
    planned onto indexes, every row that the indexed plan adds is a
    vertex on which the full-scan evaluation of all the conditions of the
    group gives true. *)
Theorem indexed_rows_satisfy_conditions (rt : Runtime) (cast cs : bool) (d : database)
    (conditions : list condition) (cands : gset string) (acc acc' : acc_t) :
  plan rt cs (indexes d) conditions None = Some cands ->
  run_indexed rt cs (nodes d) conditions (elements cands) acc = Ok acc' ->
  forall id row, (id, row) ∈ acc'.1 ->
    (id, row) ∈ acc.1
    \/ exists data, nodes d !! id = Some data /\ value data = row
         /\ eval_all (eval_scan_cond rt cast cs data) conditions = Ok true.
Proof.
  intros Hplan.
  pose proof (plan_conditions rt cs (indexes d) conditions None cands Hplan) as Hconds.
  generalize (elements cands). intros l. revert acc.
  induction l as [|node_id rest IH]; intros acc Hrun id row Hin; simpl in Hrun.
  - simplify_eq. now left.
  - destruct (decide (node_id ∈ acc.2)); [now apply (IH acc)|].
    destruct (nodes d !! node_id) as [data|] eqn:Hn; [|discriminate].
    destruct (eval_all (eval_indexed_cond rt cs (value data)) conditions) as [m|e] eqn:Hm;
      [|discriminate].
    simpl in Hrun. destruct m; [|now apply (IH acc)].
    destruct (IH _ Hrun id row Hin) as [Hold|Hnew]; [|now right].
    simpl in Hold. apply elem_of_app in Hold as [Hold|Hold]; [now left|].
    apply list_elem_of_singleton in Hold. simplify_eq. right. exists data.
    split; [exact Hn|]. split; [reflexivity|].
    rewrite <- (indexed_eval_is_scan_eval rt cast cs data conditions Hconds). exact Hm.
Qed.

Lemma indexed_rows_satisfy_conditions_witness :
  plan plain_runtime false (indexes (db (create_index plain_runtime "age" demo_graph).1))
    [CCmp "age" OpEq (VStr "30")] None = Some {[ "a" ]}
  /\ run_indexed plain_runtime false
       (nodes (db (create_index plain_runtime "age" demo_graph).1))
       [CCmp "age" OpEq (VStr "30")] (elements ({[ "a" ]} : gset string)) ([], ∅)
     = Ok ([("a", alice_attrs)], {[ "a" ]})
  /\ exists data,
       nodes (db (create_index plain_runtime "age" demo_graph).1) !! "a" = Some data
       /\ value data = alice_attrs
       /\ eval_all (eval_scan_cond plain_runtime false false data)
            [CCmp "age" OpEq (VStr "30")] = Ok true.
Proof.
  assert (Hplan : plan plain_runtime false
                    (indexes (db (create_index plain_runtime "age" demo_graph).1))
                    [CCmp "age" OpEq (VStr "30")] None = Some {[ "a" ]})
    by (vm_compute; reflexivity).
  assert (Hrun : run_indexed plain_runtime false
                   (nodes (db (create_index plain_runtime "age" demo_graph).1))
                   [CCmp "age" OpEq (VStr "30")] (elements ({[ "a" ]} : gset string)) ([], ∅)
                 = Ok ([("a", alice_attrs)], {[ "a" ]}))
    by (vm_compute; reflexivity).
  split; [exact Hplan|]. split; [exact Hrun|].
  destruct (indexed_rows_satisfy_conditions plain_runtime false false
              (db (create_index plain_runtime "age" demo_graph).1)
              [CCmp "age" OpEq (VStr "30")] {[ "a" ]} ([], ∅) _ Hplan Hrun "a" alice_attrs)
    as [Hold|Hnew].
  - apply list_elem_of_here.
  - inversion Hold.
  - exact Hnew.
Defined.

(** ** Paths in both directions *)

Lemma adjacent_symmetric (ns : gmap string node) (u v : string) :
  adjacency_symmetric ns -> adjacent ns u v -> adjacent ns v u.
Proof.
  intros Hs (n & Hn & Hv). specialize (Hs u v). unfold edge_at in Hs. rewrite Hn in Hs.
  destruct (ns !! v) as [m|] eqn:Hm; [|rewrite Hs in Hv; now destruct Hv].
  exists m. split; [exact Hm|]. now rewrite <- Hs.
Qed.

Lemma is_path_reverse (ns : gmap string node) (a b : string) (p : list string) :
  adjacency_symmetric ns -> is_path ns a b p -> is_path ns b a (reverse p).
Proof.
  intros Hs (Hh & Hl & Hc). split; [|split].
  - now rewrite head_reverse.
  - now rewrite last_reverse.
  - intros i x y Hx Hy.
    apply reverse_lookup_Some in Hx as [Hx Hi]. apply reverse_lookup_Some in Hy as [Hy Hi'].
    apply (adjacent_symmetric ns y x Hs). apply (Hc (length p - S (S i))); [exact Hy|].
    replace (S (length p - S (S i))) with (length p - S i) by lia. exact Hx.
Qed.

Lemma symmetric_neighbours_exist (ns : gmap string node) :
  adjacency_symmetric ns -> neighbours_exist ns.
Proof.
  intros Hs u v Hadj. destruct (adjacent_symmetric ns u v Hs Hadj) as (m & Hm & _). eauto.
Qed.

(** X17. Edges are undirected for the path search: in a database with
    symmetric adjacency and for existing vertices, [find_path(a, b)] finds
    no path exactly when [find_path(b, a)] finds none, and the paths found
    in the two directions have the same length. *)
Theorem find_path_both_directions (g : GraphDatabase) (a b : string) :
  adjacency_symmetric (nodes (db g)) ->
  is_Some (nodes (db g) !! a) -> is_Some (nodes (db g) !! b) ->
  (find_path a b g = Some (Ok None) <-> find_path b a g = Some (Ok None))
  /\ forall p q, find_path a b g = Some (Ok (Some p)) ->
                 find_path b a g = Some (Ok (Some q)) -> length p = length q.
Proof.
  intros Hs Ha Hb. pose proof (symmetric_neighbours_exist _ Hs) as Hc.
  destruct (find_path_search g a b Hc Ha Hb) as [(p & Hp & Hpath & Hmin)|[Hp Hnone]];
    destruct (find_path_search g b a Hc Hb Ha) as [(q & Hq & Hqpath & Hqmin)|[Hq Hqnone]];
    rewrite Hp, Hq.
  - split; [split; discriminate|]. intros p' q' E1 E2. simplify_eq.
    pose proof (Hmin _ (is_path_reverse _ _ _ _ Hs Hqpath)) as H1.
    pose proof (Hqmin _ (is_path_reverse _ _ _ _ Hs Hpath)) as H2.
    rewrite length_reverse in *. lia.
  - exfalso. apply (Hqnone (reverse p)). now apply is_path_reverse.
  - exfalso. apply (Hnone (reverse q)). now apply is_path_reverse.
  - split; [tauto|]. intros p' q' E. discriminate.
Qed.

Lemma find_path_both_directions_witness :
  adjacency_symmetric (nodes (db demo_graph))
  /\ (find_path "a" "c" demo_graph = Some (Ok None)
      <-> find_path "c" "a" demo_graph = Some (Ok None)).
Proof.
  assert (H : adjacency_symmetric (nodes (db demo_graph)))
    by apply (reachable_symmetric_state plain_runtime), demo_graph_reachable.
  split; [exact H|].
  apply (find_path_both_directions demo_graph "a" "c" H); vm_compute; eauto.
Defined.

(** ** Merge import *)










(** ** The query command of the shell *)

Example cli_flags_examples :
  cli_query_flags "WHERE name = Alice CASE_SENSITIVE" = Ok ("WHERE name = Alice", false, true)
  /\ cli_query_flags "where  age > 3   cast" = Ok ("where age > 3", true, false)
  /\ cli_query_flags "WHERE name CONTAINS 3 CAST CASE_SENSITIVE"
     = Ok ("WHERE name CONTAINS 3 CAST", false, true)
  /\ cli_query_flags "name = Alice" = Raise ValueError.
Proof. repeat split; vm_compute; reflexivity. Qed.

Lemma split_words_go_nonempty (s : string) :
  forall cur, cur <> EmptyString -> split_words_go s cur <> [].
Proof.
  induction s as [|c r IH]; intros cur Hcur; cbn [split_words_go].
  - destruct cur; [contradiction | discriminate].
  - destruct (is_space c).
    + destruct cur; [contradiction | discriminate].
    + apply IH. discriminate.
Qed.

(** A text that passed the [where] test has a first word, so the last
    word that the shell looks at always exists. *)
Lemma cli_query_parts_nonempty (query_str : string) :
  startswith (lower query_str) "where" = true -> reverse (split_words query_str) <> [].
Proof.
  destruct query_str as [|c r]; [discriminate|].
  intros H. cbn in H. apply andb_prop in H as [Hc _].
  assert (Hsp : is_space c = false).
  { destruct c as [[] [] [] [] [] [] [] []]; vm_compute in Hc; try discriminate; reflexivity. }
  unfold split_words. cbn [split_words_go]. rewrite Hsp.
  intros Hrev. apply (f_equal reverse) in Hrev. rewrite reverse_involutive in Hrev.
  revert Hrev. apply split_words_go_nonempty. discriminate.
Qed.

(** X19. The shell never runs a query with both flags: whatever the
    command text, when it passes a query on to [query], the flags
    [cast_non_strings] and [case_sensitive] are not both set. The branch
    for the two words [CAST CASE_SENSITIVE] comes after the test for the
    last word alone and is never taken (see [cli_flags_examples]). *)
Theorem cli_never_sets_both_flags (query_str q : string) (cast_non_strings case_sensitive : bool) :
  cli_query_flags query_str = Ok (q, cast_non_strings, case_sensitive) ->
  cast_non_strings && case_sensitive = false.
Proof.
  unfold cli_query_flags. intros H.
  destruct (negb (startswith (lower query_str) "where")); [discriminate|].
  destruct (negb (has_operator query_str)); [discriminate|].
  destruct (reverse (split_words query_str)) as [|last_word before]; [discriminate|].
  destruct (String.eqb (upper last_word) "CAST"); [now simplify_eq|].
  destruct (String.eqb (upper last_word) "CASE_SENSITIVE") eqn:Hcs; [now simplify_eq|].
  destruct before as [|second_last before2]; [now simplify_eq|].
  rewrite andb_false_r in H. now simplify_eq.
Qed.

Lemma cli_never_sets_both_flags_witness :
  cli_query_flags "WHERE name CONTAINS 3 CAST CASE_SENSITIVE"
  = Ok ("WHERE name CONTAINS 3 CAST", false, true)
  /\ false && true = false.
Proof.
  split; [vm_compute; reflexivity|].
  apply (cli_never_sets_both_flags "WHERE name CONTAINS 3 CAST CASE_SENSITIVE"
           "WHERE name CONTAINS 3 CAST" false true).
  vm_compute. reflexivity.
Defined.

(** ** The catalogue of databases *)

Lemma nonempty_file_Some (fs : gmap string string) (p text : string) :
  nonempty_file fs p = Some text <-> fs !! p = Some text /\ is_empty text = false.
Proof.
  unfold nonempty_file. destruct (fs !! p) as [t|]; [|now split; [|intros [? _]]].
  destruct (is_empty t) eqn:He; split.
  - discriminate.
  - intros [? ?]. congruence.
  - intros. now simplify_eq.
  - intros [? ?]. congruence.
Qed.

Lemma nonempty_file_reset (fs : gmap string string) (p : string) :
  nonempty_file (<[p := "{}"]> fs) p = Some "{}".
Proof. unfold nonempty_file. now rewrite lookup_insert_eq. Qed.

Lemma nonempty_file_insert_ne (fs : gmap string string) (p q text : string) :
  q <> p -> nonempty_file (<[q := text]> fs) p = nonempty_file fs p.
Proof. intros. unfold nonempty_file. now rewrite lookup_insert_ne. Qed.

Lemma GraphDatabase_init_unfold (json_ok : string -> bool) (index_shape : string -> option exn)
    (file : string) (fs : gmap string string) :
  GraphDatabase_init json_ok index_shape file fs
  = let fs1 := kept_or_reset json_ok (nodes_path file) fs in
    match nonempty_file fs1 (indexes_path file) with
    | Some text =>
        if json_ok text
        then match index_shape text with
             | Some e => (fs1, Raise e)
             | None => (fs1, Ok tt)
             end
        else (<[indexes_path file := "{}"]> fs1, Ok tt)
    | None => (<[indexes_path file := "{}"]> fs1, Ok tt)
    end.
Proof. reflexivity. Qed.

Lemma kept_or_reset_other (json_ok : string -> bool) (p q : string) (fs : gmap string string) :
  q <> p -> kept_or_reset json_ok p fs !! q = fs !! q.
Proof.
  intros. unfold kept_or_reset.
  destruct (nonempty_file fs p) as [t|]; [destruct (json_ok t)|];
    try reflexivity; now rewrite lookup_insert_ne.
Qed.

Lemma kept_or_reset_exists (json_ok : string -> bool) (p : string) (fs : gmap string string) :
  is_Some (kept_or_reset json_ok p fs !! p).
Proof.
  unfold kept_or_reset. destruct (nonempty_file fs p) as [t|] eqn:Hp.
  - apply nonempty_file_Some in Hp as [Hp _].
    destruct (json_ok t); [eauto | rewrite lookup_insert_eq; eauto].
  - rewrite lookup_insert_eq; eauto.
Qed.

Lemma kept_or_reset_mono (json_ok : string -> bool) (p q : string) (fs : gmap string string) :
  is_Some (fs !! q) -> is_Some (kept_or_reset json_ok p fs !! q).
Proof.
  intros Hq. destruct (decide (q = p)) as [->|Hne].
  - apply kept_or_reset_exists.
  - now rewrite kept_or_reset_other.
Qed.

Lemma kept_or_reset_fixed (json_ok : string -> bool) (p text : string) (fs : gmap string string) :
  nonempty_file fs p = Some text -> json_ok text = true -> kept_or_reset json_ok p fs = fs.
Proof. intros Hp Hok. unfold kept_or_reset. now rewrite Hp, Hok. Qed.

Lemma kept_or_reset_valid (json_ok : string -> bool) (p : string) (fs : gmap string string) :
  json_ok "{}" = true ->
  exists text, nonempty_file (kept_or_reset json_ok p fs) p = Some text /\ json_ok text = true.
Proof.
  intros Hok. unfold kept_or_reset. destruct (nonempty_file fs p) as [t|] eqn:Hp.
  - destruct (json_ok t) eqn:Ht; [eauto|].
    exists "{}". now rewrite nonempty_file_reset.
  - exists "{}". now rewrite nonempty_file_reset.
Qed.

Lemma kept_or_reset_absent (json_ok : string -> bool) (p : string) (fs : gmap string string) :
  fs !! p = None -> kept_or_reset json_ok p fs = <[p := "{}"]> fs.
Proof. intros Hp. unfold kept_or_reset, nonempty_file. now rewrite Hp. Qed.

(** Opening a database never removes a file, and after the constructor
    returned both store files exist. *)
Lemma GraphDatabase_init_mono (json_ok : string -> bool) (index_shape : string -> option exn)
    (file q : string) (fs : gmap string string) :
  is_Some (fs !! q) -> is_Some ((GraphDatabase_init json_ok index_shape file fs).1 !! q).
Proof.
  intros Hq. rewrite GraphDatabase_init_unfold. cbv zeta.
  pose proof (kept_or_reset_mono json_ok (nodes_path file) q fs Hq) as H1.
  assert (H2 : is_Some (<[indexes_path file := "{}"]>
                          (kept_or_reset json_ok (nodes_path file) fs) !! q)).
  { destruct (decide (indexes_path file = q)) as [->|Hne].
    - rewrite lookup_insert_eq; eauto.
    - now rewrite lookup_insert_ne. }
  destruct (nonempty_file _ _) as [t|]; [|exact H2].
  destruct (json_ok t); [|exact H2].
  destruct (index_shape t); exact H1.
Qed.

Lemma GraphDatabase_init_files (json_ok : string -> bool) (index_shape : string -> option exn)
    (file : string) (fs fs1 : gmap string string) (r : outcome unit) :
  GraphDatabase_init json_ok index_shape file fs = (fs1, r) ->
  is_Some (fs1 !! nodes_path file)
  /\ (r = Ok tt -> is_Some (fs1 !! indexes_path file)).
Proof.
  rewrite GraphDatabase_init_unfold. cbv zeta. intros H.
  pose proof (kept_or_reset_exists json_ok (nodes_path file) fs) as H1.
  assert (H2 : is_Some (<[indexes_path file := "{}"]>
                          (kept_or_reset json_ok (nodes_path file) fs) !! nodes_path file)).
  { destruct (decide (indexes_path file = nodes_path file)) as [->|Hne].
    - rewrite lookup_insert_eq; eauto.
    - now rewrite lookup_insert_ne. }
  destruct (nonempty_file _ _) as [t|] eqn:Hi.
  - apply nonempty_file_Some in Hi as [Hi _].
    destruct (json_ok t).
    + destruct (index_shape t); simplify_eq; (split; [exact H1|]); [discriminate | eauto].
    + simplify_eq. split; [exact H2|]. rewrite lookup_insert_eq; eauto.
  - simplify_eq. split; [exact H2|]. rewrite lookup_insert_eq; eauto.
Qed.

Lemma GraphDatabase_init_again (json_ok : string -> bool) (index_shape : string -> option exn)
    (file : string) (fs : gmap string string) :
  json_ok "{}" = true -> index_shape "{}" = None ->
  GraphDatabase_init json_ok index_shape file
    (GraphDatabase_init json_ok index_shape file fs).1
  = GraphDatabase_init json_ok index_shape file fs.
Proof.
  intros Hok Hsh.
  destruct (kept_or_reset_valid json_ok (nodes_path file) fs Hok) as (tn & Hn & Htn).
  rewrite (GraphDatabase_init_unfold json_ok index_shape file fs). cbv zeta.
  set (fs1 := kept_or_reset json_ok (nodes_path file) fs) in *.
  assert (Hkeep : GraphDatabase_init json_ok index_shape file fs1
                  = match nonempty_file fs1 (indexes_path file) with
                    | Some text =>
                        if json_ok text
                        then match index_shape text with
                             | Some e => (fs1, Raise e)
                             | None => (fs1, Ok tt)
                             end
                        else (<[indexes_path file := "{}"]> fs1, Ok tt)
                    | None => (<[indexes_path file := "{}"]> fs1, Ok tt)
                    end).
  { rewrite GraphDatabase_init_unfold. cbv zeta.
    now rewrite (kept_or_reset_fixed json_ok _ tn fs1 Hn Htn). }
  assert (Hreset : GraphDatabase_init json_ok index_shape file
                     (<[indexes_path file := "{}"]> fs1)
                   = (<[indexes_path file := "{}"]> fs1, Ok tt)).
  { rewrite GraphDatabase_init_unfold. cbv zeta.
    assert (Hfix : kept_or_reset json_ok (nodes_path file) (<[indexes_path file := "{}"]> fs1)
                   = <[indexes_path file := "{}"]> fs1).
    { destruct (decide (indexes_path file = nodes_path file)) as [Heq|Hne].
      - apply (kept_or_reset_fixed json_ok _ "{}"); [|exact Hok].
        rewrite <- Heq. apply nonempty_file_reset.
      - apply (kept_or_reset_fixed json_ok _ tn); [|exact Htn].
        now rewrite nonempty_file_insert_ne. }
    rewrite Hfix, nonempty_file_reset, Hok, Hsh. reflexivity. }
  destruct (nonempty_file fs1 (indexes_path file)) as [ti|] eqn:Hi.
  - destruct (json_ok ti) eqn:Hti.
    + destruct (index_shape ti) eqn:Hs; cbn [fst]; exact Hkeep.
    + cbn [fst]. exact Hreset.
  - cbn [fst]. exact Hreset.
Qed.

(** X20. Opening a database a second time changes nothing: whatever the
    files hold, the constructor leaves them in a state that a further
    call keeps as it is, with the same result. It rests on the text of
    the empty object being read back as an empty store. *)
Theorem GraphDatabase_init_idempotent (json_ok : string -> bool)
    (index_shape : string -> option exn) (file : string) (fs : gmap string string) :
  json_ok "{}" = true -> index_shape "{}" = None ->
  GraphDatabase_init json_ok index_shape file
    (GraphDatabase_init json_ok index_shape file fs).1
  = GraphDatabase_init json_ok index_shape file fs.
Proof. apply GraphDatabase_init_again. Qed.

Lemma GraphDatabase_init_idempotent_witness :
  braces_ok "{}" = true /\ no_shape_error "{}" = None
  /\ GraphDatabase_init braces_ok no_shape_error "x.json"
       (GraphDatabase_init braces_ok no_shape_error "x.json" {[ "x_nodes.json" := "nodes" ]}).1
     = GraphDatabase_init braces_ok no_shape_error "x.json" {[ "x_nodes.json" := "nodes" ]}.
Proof.
  split; [reflexivity|]. split; [reflexivity|].
  apply (GraphDatabase_init_idempotent braces_ok no_shape_error "x.json"
           {[ "x_nodes.json" := "nodes" ]}); reflexivity.
Defined.

(** X21. Right after [create_database] returned, the new database can be
    opened with [use_database], which selects it and changes no file, and
    a second [create_database] with the same name is refused with
    ValueError and changes nothing. It rests on the text of the empty
    object being read back as an empty store. *)
Theorem create_then_use (json_ok : string -> bool) (index_shape : string -> option exn)
    (dump_registry : gmap string string -> string) (db_name : string)
    (m m1 : DatabaseManager) (fs fs1 : gmap string string) :
  json_ok "{}" = true -> index_shape "{}" = None ->
  create_database json_ok index_shape dump_registry db_name m fs = (m1, fs1, Returns) ->
  use_database json_ok index_shape db_name m1 fs1
  = (set_current_db (Some db_name) m1, fs1, Returns)
  /\ create_database json_ok index_shape dump_registry db_name m1 fs1
     = (m1, fs1, Raises (Py ValueError)).
Proof.
  intros Hok Hsh. unfold create_database.
  destruct (registry m !! db_name) eqn:Hreg; [discriminate|].
  destruct (GraphDatabase_init _ _ _ _) as [fs2 r] eqn:Hinit. intros Hc.
  destruct r as [[]|e]; [|discriminate]. simplify_eq.
  pose proof (GraphDatabase_init_again json_ok index_shape (db_name ++ ".json")
                (_save_registry dump_registry
                   (set_registry (<[db_name := (db_name ++ ".json")%string]> (registry m)) m) fs)
                Hok Hsh) as Hagain.
  rewrite Hinit in Hagain. cbn [fst] in Hagain.
  unfold use_database. cbn [registry set_registry].
  rewrite lookup_insert_eq, Hagain. split; reflexivity.
Qed.

Lemma create_then_use_witness :
  braces_ok "{}" = true /\ no_shape_error "{}" = None
  /\ create_database braces_ok no_shape_error names_of "y" demo_manager demo_files
     = (set_registry (<["y" := "y.json"]> demo_registry) demo_manager,
        <["y_indexes.json" := "{}"]>
          (<["y_nodes.json" := "{}"]> (<["registry.json" := names_of (<["y" := "y.json"]> demo_registry)]> demo_files)),
        Returns)
  /\ use_database braces_ok no_shape_error "y"
       (set_registry (<["y" := "y.json"]> demo_registry) demo_manager)
       (<["y_indexes.json" := "{}"]>
          (<["y_nodes.json" := "{}"]> (<["registry.json" := names_of (<["y" := "y.json"]> demo_registry)]> demo_files)))
     = (set_current_db (Some "y")
          (set_registry (<["y" := "y.json"]> demo_registry) demo_manager),
        <["y_indexes.json" := "{}"]>
          (<["y_nodes.json" := "{}"]> (<["registry.json" := names_of (<["y" := "y.json"]> demo_registry)]> demo_files)),
        Returns).
Proof.
  assert (Hc : create_database braces_ok no_shape_error names_of "y" demo_manager demo_files
     = (set_registry (<["y" := "y.json"]> demo_registry) demo_manager,
        <["y_indexes.json" := "{}"]>
          (<["y_nodes.json" := "{}"]> (<["registry.json" := names_of (<["y" := "y.json"]> demo_registry)]> demo_files)),
        Returns)) by reflexivity.
  split; [reflexivity|]. split; [reflexivity|]. split; [exact Hc|].
  apply (create_then_use braces_ok no_shape_error names_of "y" demo_manager _ demo_files _
           eq_refl eq_refl Hc).
Defined.

(** X22. [restore_database] checks before it writes: for an unknown name,
    a missing backup or a backup file that is not JSON it raises
    [ValueError] and leaves the manager and every file as they were. *)
Theorem restore_rejects_bad_backup (json_ok : string -> bool)
    (index_shape : string -> option exn) (db_name backup_file : string)
    (m : DatabaseManager) (fs : gmap string string) :
  registry m !! db_name = None
  \/ fs !! nodes_path backup_file = None
  \/ (exists text, fs !! nodes_path backup_file = Some text /\ json_ok text = false)
  \/ (exists text, fs !! indexes_path backup_file = Some text /\ json_ok text = false) ->
  restore_database json_ok index_shape db_name backup_file m fs
  = (m, fs, Raises (Py ValueError)).
Proof.
  intros H. unfold restore_database.
  destruct (registry m !! db_name) as [db_file|] eqn:Hreg; [|reflexivity].
  destruct (fs !! nodes_path backup_file) as [tn|] eqn:Hbn; [|reflexivity].
  destruct (json_ok tn) eqn:Htn; [|reflexivity]. cbn [negb].
  destruct H as [H | [H | [(t & H & Ht) | (t & H & Ht)]]]; try congruence.
  now rewrite H, Ht.
Qed.

Lemma restore_rejects_bad_backup_witness :
  (demo_manager.(registry) !! "x" = None
   \/ <["bak_nodes.json" := "oops"]> demo_files !! nodes_path "bak.json" = None
   \/ (exists text, <["bak_nodes.json" := "oops"]> demo_files !! nodes_path "bak.json" = Some text
                    /\ braces_ok text = false)
   \/ (exists text, <["bak_nodes.json" := "oops"]> demo_files !! indexes_path "bak.json" = Some text
                    /\ braces_ok text = false))
  /\ restore_database braces_ok no_shape_error "x" "bak.json" demo_manager
       (<["bak_nodes.json" := "oops"]> demo_files)
     = (demo_manager, <["bak_nodes.json" := "oops"]> demo_files, Raises (Py ValueError)).
Proof.
  assert (H : demo_manager.(registry) !! "x" = None
   \/ <["bak_nodes.json" := "oops"]> demo_files !! nodes_path "bak.json" = None
   \/ (exists text, <["bak_nodes.json" := "oops"]> demo_files !! nodes_path "bak.json" = Some text
                    /\ braces_ok text = false)
   \/ (exists text, <["bak_nodes.json" := "oops"]> demo_files !! indexes_path "bak.json" = Some text
                    /\ braces_ok text = false)).
  { right. right. left. exists "oops". split; vm_compute; reflexivity. }
  split; [exact H|].
  apply (restore_rejects_bad_backup braces_ok no_shape_error "x" "bak.json" demo_manager _ H).
Defined.

Lemma backup_database_Ok (registry : gmap string string) (db_name backup_file : string)
    (fs fs1 : gmap string string) :
  backup_database registry db_name backup_file fs = (fs1, Ok tt) ->
  exists db_file nodes_text,
    registry !! db_name = Some db_file
    /\ fs !! nodes_path db_file = Some nodes_text
    /\ fs !! nodes_path backup_file = None
    /\ fs !! indexes_path backup_file = None
    /\ fs1 = match <[nodes_path backup_file := nodes_text]> fs !! indexes_path db_file with
             | Some indexes_text =>
                 <[indexes_path backup_file := indexes_text]>
                   (<[nodes_path backup_file := nodes_text]> fs)
             | None => <[nodes_path backup_file := nodes_text]> fs
             end.
Proof.
  unfold backup_database.
  destruct (registry !! db_name) as [db_file|]; [|discriminate].
  destruct (fs !! nodes_path db_file) as [tn|] eqn:Hn; [|discriminate].
  destruct (decide _) as [|Hfree]; [discriminate|].
  intros H. exists db_file, tn.
  assert (fs !! nodes_path backup_file = None /\ fs !! indexes_path backup_file = None) as [Hbn Hbi].
  { split; apply eq_None_not_Some; tauto. }
  do 4 (split; [done|]).
  destruct (<[nodes_path backup_file := tn]> fs !! indexes_path db_file); now simplify_eq.
Qed.

(** X23. A backup can be restored: after [backup_database] succeeded,
    whatever happens meanwhile to files other than the two backup files,
    [restore_database] on a database that is not the open one brings
    both of its store files back to what they were at the time of the
    backup (an index file that did not exist is removed again), and
    touches nothing else. The backup file name must give two different
    companion paths (it contains [.json]), the node copy must not land
    on the index file of the database, and the texts saved must be
    JSON. *)
Theorem backup_then_restore (json_ok : string -> bool) (index_shape : string -> option exn)
    (m : DatabaseManager) (db_name db_file backup_file : string)
    (fs fs1 fs2 : gmap string string) :
  registry m !! db_name = Some db_file ->
  backup_database (registry m) db_name backup_file fs = (fs1, Ok tt) ->
  nodes_path backup_file <> indexes_path backup_file ->
  indexes_path db_file <> nodes_path backup_file ->
  fs2 !! nodes_path backup_file = fs1 !! nodes_path backup_file ->
  fs2 !! indexes_path backup_file = fs1 !! indexes_path backup_file ->
  (forall p text, p = nodes_path db_file \/ p = indexes_path db_file ->
     fs !! p = Some text -> json_ok text = true) ->
  current_db m <> Some db_name ->
  exists fs3,
    restore_database json_ok index_shape db_name backup_file m fs2 = (m, fs3, Returns)
    /\ fs3 !! nodes_path db_file = fs !! nodes_path db_file
    /\ fs3 !! indexes_path db_file = fs !! indexes_path db_file
    /\ (forall p, p <> nodes_path db_file -> p <> indexes_path db_file -> fs3 !! p = fs2 !! p).
Proof.
  intros Hreg Hb Hbb Hib H2n H2i Hjson Hcur.
  apply backup_database_Ok in Hb as (db_file' & tn & Hreg' & Hn & Hbn & Hbi & ->).
  rewrite Hreg in Hreg'. injection Hreg' as <-.
  assert (Hnbn : nodes_path backup_file <> nodes_path db_file) by congruence.
  assert (Hnbi : indexes_path backup_file <> nodes_path db_file) by congruence.
  rewrite lookup_insert_ne in H2n, H2i by congruence.
  unfold restore_database. rewrite Hreg.
  destruct (fs !! indexes_path db_file) as [ti|] eqn:Hi.
  - assert (Hibi : indexes_path backup_file <> indexes_path db_file) by congruence.
    rewrite lookup_insert_ne, lookup_insert_eq in H2n by congruence.
    rewrite lookup_insert_eq in H2i.
    rewrite H2n, H2i.
    rewrite (Hjson _ tn (or_introl eq_refl) Hn), (Hjson _ ti (or_intror eq_refl) Hi).
    cbn [negb]. unfold copy2.
    destruct (decide (nodes_path backup_file = nodes_path db_file)); [contradiction|].
    rewrite H2n. rewrite lookup_insert_ne by congruence. rewrite H2i.
    destruct (decide (indexes_path backup_file = indexes_path db_file)); [contradiction|].
    destruct (decide (current_db m = Some db_name)); [contradiction|].
    eexists. split; [reflexivity|]. split; [|split].
    + destruct (decide (indexes_path db_file = nodes_path db_file)) as [Heq|Hne].
      * rewrite Heq, lookup_insert_eq. congruence.
      * rewrite lookup_insert_ne, lookup_insert_eq by congruence. now rewrite Hn.
    + now rewrite lookup_insert_eq.
    + intros p Hp1 Hp2. now rewrite !lookup_insert_ne by congruence.
  - assert (Hin : indexes_path db_file <> nodes_path db_file) by congruence.
    rewrite lookup_insert_eq in H2n.
    rewrite lookup_insert_ne in H2i by congruence.
    rewrite H2n, H2i, Hbi.
    rewrite (Hjson _ tn (or_introl eq_refl) Hn).
    cbn [negb]. unfold copy2.
    destruct (decide (nodes_path backup_file = nodes_path db_file)); [contradiction|].
    rewrite H2n. rewrite lookup_insert_ne by congruence. rewrite H2i, Hbi.
    destruct (decide (current_db m = Some db_name)); [contradiction|].
    eexists. split; [reflexivity|].
    unfold remove_if_exists.
    destruct (<[nodes_path db_file := tn]> fs2 !! indexes_path db_file) eqn:Hx.
    + split; [|split].
      * rewrite lookup_delete_ne, lookup_insert_eq by congruence. now rewrite Hn.
      * now rewrite lookup_delete_eq.
      * intros p Hp1 Hp2. now rewrite lookup_delete_ne, lookup_insert_ne by congruence.
    + split; [|split].
      * rewrite lookup_insert_eq. now rewrite Hn.
      * exact Hx.
      * intros p Hp1 Hp2. now rewrite lookup_insert_ne by congruence.
Qed.

Lemma backup_then_restore_witness :
  exists fs3,
    restore_database braces_ok no_shape_error "x" "new.json" demo_manager
      (<["x_nodes.json" := "{changed}"]>
         (backup_database demo_registry "x" "new.json" demo_files).1)
    = (demo_manager, fs3, Returns)
    /\ fs3 !! nodes_path "x.json" = demo_files !! nodes_path "x.json"
    /\ fs3 !! indexes_path "x.json" = demo_files !! indexes_path "x.json"
    /\ (forall p, p <> nodes_path "x.json" -> p <> indexes_path "x.json" ->
          fs3 !! p = <["x_nodes.json" := "{changed}"]>
                       (backup_database demo_registry "x" "new.json" demo_files).1 !! p).
Proof.
  apply (backup_then_restore braces_ok no_shape_error demo_manager "x" "x.json" "new.json"
           demo_files (backup_database demo_registry "x" "new.json" demo_files).1).
  - reflexivity.
  - reflexivity.
  - intros H. vm_compute in H. discriminate.
  - intros H. vm_compute in H. discriminate.
  - reflexivity.
  - reflexivity.
  - intros p text [-> | ->] H; vm_compute in H; injection H as <-; reflexivity.
  - discriminate.
Defined.

(** A backup file name without [.json] gives the same path for both
    companion files: the copy of the index file replaces the copy of the
    node file, and a restore writes the index text into the node file. *)
Example backup_without_extension :
  let files := <["x_nodes.json" := "{nodes}"]> (<["x_indexes.json" := "{indexes}"]> ∅) in
  let saved := (backup_database demo_registry "x" "copy" files).1 in
  (backup_database demo_registry "x" "copy" files).2 = Ok tt
  /\ saved !! "copy" = Some "{indexes}"
  /\ (restore_database braces_ok no_shape_error "x" "copy" demo_manager saved).1.2
       !! "x_nodes.json" = Some "{indexes}".
Proof. repeat split; vm_compute; reflexivity. Qed.

(** ** Deleting and creating again *)

Lemma remove_if_exists_lookup (p q : string) (fs : gmap string string) :
  remove_if_exists p fs !! q = if decide (p = q) then None else fs !! q.
Proof.
  unfold remove_if_exists. destruct (fs !! p) eqn:Hp.
  - destruct (decide (p = q)) as [->|Hne].
    + apply lookup_delete_eq.
    + now apply lookup_delete_ne.
  - destruct (decide (p = q)) as [<-|Hne]; [exact Hp | reflexivity].
Qed.

(** X24. A deleted database does not come back: after [delete_database]
    its name is free, and creating it again gives two store files that
    hold the empty object, whatever they held before. The database file
    is the one [create_database] chooses, and the registry file is not
    one of the store files. *)
Theorem delete_then_create (json_ok : string -> bool) (index_shape : string -> option exn)
    (dump_registry : gmap string string -> string) (db_name : string)
    (m : DatabaseManager) (fs : gmap string string) :
  registry m !! db_name = Some (db_name ++ ".json")%string ->
  registry_file m <> nodes_path (db_name ++ ".json") ->
  registry_file m <> indexes_path (db_name ++ ".json") ->
  json_ok "{}" = true -> index_shape "{}" = None ->
  exists m1 fs1 m2 fs2,
    delete_database dump_registry db_name m fs = (m1, fs1, Returns)
    /\ registry m1 !! db_name = None
    /\ fs1 !! nodes_path (db_name ++ ".json") = None
    /\ fs1 !! indexes_path (db_name ++ ".json") = None
    /\ create_database json_ok index_shape dump_registry db_name m1 fs1 = (m2, fs2, Returns)
    /\ registry m2 = registry m
    /\ fs2 !! nodes_path (db_name ++ ".json") = Some "{}"
    /\ fs2 !! indexes_path (db_name ++ ".json") = Some "{}".
Proof.
  intros Hreg Hrn Hri Hok Hsh.
  set (file := (db_name ++ ".json")%string) in *.
  set (m0 := set_registry (delete db_name (registry m)) m).
  set (m1 := if decide (current_db m = Some db_name) then set_current_db None m0 else m0).
  set (fs1 := _save_registry dump_registry m0
                (remove_if_exists (indexes_path file) (remove_if_exists (nodes_path file) fs))).
  assert (Hr1 : registry m1 = delete db_name (registry m)).
  { unfold m1. now destruct (decide _). }
  assert (Hf1 : registry_file m1 = registry_file m).
  { unfold m1. now destruct (decide _). }
  assert (Hn1 : fs1 !! nodes_path file = None).
  { unfold fs1, _save_registry. rewrite lookup_insert_ne by exact Hrn.
    rewrite !remove_if_exists_lookup.
    destruct (decide (indexes_path file = nodes_path file)); [reflexivity|].
    now destruct (decide (nodes_path file = nodes_path file)). }
  assert (Hi1 : fs1 !! indexes_path file = None).
  { unfold fs1, _save_registry. rewrite lookup_insert_ne by exact Hri.
    rewrite remove_if_exists_lookup.
    now destruct (decide (indexes_path file = indexes_path file)). }
  set (m2 := set_registry (<[db_name := file]> (registry m1)) m1).
  set (fs1' := _save_registry dump_registry m2 fs1).
  assert (Hn2 : fs1' !! nodes_path file = None).
  { unfold fs1', _save_registry. cbn [registry_file m2 set_registry].
    rewrite lookup_insert_ne by congruence. exact Hn1. }
  assert (Hi2 : fs1' !! indexes_path file = None).
  { unfold fs1', _save_registry. cbn [registry_file m2 set_registry].
    rewrite lookup_insert_ne by congruence. exact Hi1. }
  assert (Hinit : GraphDatabase_init json_ok index_shape file fs1'
                  = (<[indexes_path file := "{}"]> (<[nodes_path file := "{}"]> fs1'), Ok tt)
                  \/ (indexes_path file = nodes_path file
                      /\ GraphDatabase_init json_ok index_shape file fs1'
                         = (<[nodes_path file := "{}"]> fs1', Ok tt))).
  { rewrite GraphDatabase_init_unfold. cbv zeta.
    rewrite (kept_or_reset_absent _ _ _ Hn2).
    destruct (decide (indexes_path file = nodes_path file)) as [Heq|Hne].
    - right. split; [exact Heq|].
      rewrite Heq, nonempty_file_reset, Hok, Hsh. reflexivity.
    - left. rewrite nonempty_file_insert_ne by congruence.
      unfold nonempty_file. now rewrite Hi2. }
  exists m1, fs1.
  destruct Hinit as [Hinit | [Heq Hinit]].
  - exists m2, (<[indexes_path file := "{}"]> (<[nodes_path file := "{}"]> fs1')).
    split; [unfold delete_database; now rewrite Hreg|].
    split; [rewrite Hr1; apply lookup_delete_eq|].
    do 2 (split; [assumption|]).
    split.
    { unfold create_database. rewrite Hr1, lookup_delete_eq.
      fold file. rewrite <- Hr1. fold m2. fold fs1'. now rewrite Hinit. }
    split.
    { unfold m2. cbn [registry set_registry]. rewrite Hr1.
      rewrite insert_delete_eq. now apply insert_id. }
    split.
    + destruct (decide (indexes_path file = nodes_path file)) as [Heq|Hne].
      * rewrite Heq. now rewrite lookup_insert_eq.
      * rewrite lookup_insert_ne, lookup_insert_eq by congruence. reflexivity.
    + now rewrite lookup_insert_eq.
  - exists m2, (<[nodes_path file := "{}"]> fs1').
    split; [unfold delete_database; now rewrite Hreg|].
    split; [rewrite Hr1; apply lookup_delete_eq|].
    do 2 (split; [assumption|]).
    split.
    { unfold create_database. rewrite Hr1, lookup_delete_eq.
      fold file. rewrite <- Hr1. fold m2. fold fs1'. now rewrite Hinit. }
    split.
    { unfold m2. cbn [registry set_registry]. rewrite Hr1.
      rewrite insert_delete_eq. now apply insert_id. }
    split.
    + now rewrite lookup_insert_eq.
    + rewrite Heq. now rewrite lookup_insert_eq.
Qed.

Lemma delete_then_create_witness :
  exists m1 fs1 m2 fs2,
    delete_database names_of "x" demo_manager demo_files = (m1, fs1, Returns)
    /\ registry m1 !! "x" = None
    /\ fs1 !! nodes_path ("x" ++ ".json") = None
    /\ fs1 !! indexes_path ("x" ++ ".json") = None
    /\ create_database braces_ok no_shape_error names_of "x" m1 fs1 = (m2, fs2, Returns)
    /\ registry m2 = registry demo_manager
    /\ fs2 !! nodes_path ("x" ++ ".json") = Some "{}"
    /\ fs2 !! indexes_path ("x" ++ ".json") = Some "{}".
Proof.
  apply (delete_then_create braces_ok no_shape_error names_of "x" demo_manager demo_files).
  - reflexivity.
  - intros H. vm_compute in H. discriminate.
  - intros H. vm_compute in H. discriminate.
  - reflexivity.
  - reflexivity.
Defined.

(** ** Files that backup and export leave alone *)

(** X25. Whether they succeed or fail, [backup_database] and
    [export_database] change no file that exists and create no file
    other than the two companion files of the destination. In particular
    the files of the database itself are never modified. *)
Theorem backup_export_touch_only_destination (reformat : string -> option string)
    (registry : gmap string string) (db_name dest p : string) (fs : gmap string string) :
  is_Some (fs !! p) \/ (p <> nodes_path dest /\ p <> indexes_path dest) ->
  (backup_database registry db_name dest fs).1 !! p = fs !! p
  /\ (export_database reformat registry db_name dest fs).1 !! p = fs !! p.
Proof.
  intros Hp. unfold backup_database, export_database.
  destruct (registry !! db_name) as [db_file|]; [|auto].
  destruct (fs !! nodes_path db_file) as [tn|]; [|auto].
  destruct (decide _) as [|Hfree]; [auto|].
  assert (p <> nodes_path dest /\ p <> indexes_path dest) as [Hn Hi].
  { destruct Hp as [Hp|Hp]; [|exact Hp].
    split; intros ->; apply Hfree; auto. }
  split.
  - destruct (_ !! indexes_path db_file); cbn [fst];
      now rewrite ?lookup_insert_ne by congruence.
  - destruct (reformat tn); [|reflexivity].
    destruct (_ !! indexes_path db_file) as [ti|];
      [destruct (reformat ti)|]; cbn [fst];
      now rewrite ?lookup_insert_ne by congruence.
Qed.

Lemma backup_export_touch_only_destination_witness :
  (is_Some (demo_files !! "x_nodes.json")
   \/ ("x_nodes.json" <> nodes_path "new.json" /\ "x_nodes.json" <> indexes_path "new.json"))
  /\ (backup_database demo_registry "x" "new.json" demo_files).1 !! "x_nodes.json"
     = demo_files !! "x_nodes.json"
  /\ (export_database Some demo_registry "x" "new.json" demo_files).1 !! "x_nodes.json"
     = demo_files !! "x_nodes.json".
Proof.
  assert (H : is_Some (demo_files !! "x_nodes.json")
   \/ ("x_nodes.json" <> nodes_path "new.json" /\ "x_nodes.json" <> indexes_path "new.json")).
  { left. vm_compute. eauto. }
  split; [exact H|].
  apply (backup_export_touch_only_destination Some demo_registry "x" "new.json"
           "x_nodes.json" demo_files H).
Defined.

(** ** Starting the manager *)

Lemma validate_databases_spec (json_ok : string -> bool) (index_shape : string -> option exn)
    (items : list (string * string)) :
  forall (fs fs1 : gmap string string) (invalid_dbs : list string),
  validate_databases json_ok index_shape items fs = (fs1, Ok invalid_dbs) ->
  (forall p, is_Some (fs !! p) -> is_Some (fs1 !! p))
  /\ (forall db_name db_file, (db_name, db_file) ∈ items -> db_name ∉ invalid_dbs ->
        is_Some (fs1 !! nodes_path db_file) /\ is_Some (fs1 !! indexes_path db_file))
  /\ (forall db_name, db_name ∈ invalid_dbs -> db_name ∈ items.*1).
Proof.
  induction items as [|[name file] rest IH]; intros fs fs1 inv H.
  - cbn in H. simplify_eq. split; [auto|]. split.
    + intros ? ? Hin. now apply elem_of_nil in Hin.
    + intros ? Hin. now apply elem_of_nil in Hin.
  - cbn [validate_databases] in H.
    destruct (decide _) as [Hex|Hno].
    + destruct (GraphDatabase_init json_ok index_shape file fs) as [fs0 r] eqn:Hinit.
      pose proof (GraphDatabase_init_mono json_ok index_shape file) as Hmono.
      pose proof (GraphDatabase_init_files json_ok index_shape file fs fs0 r Hinit) as [Hn Hi].
      destruct r as [[]|e].
      * destruct (IH _ _ _ H) as (IH1 & IH2 & IH3).
        split; [|split].
        -- intros p Hp. apply IH1. specialize (Hmono p fs Hp). now rewrite Hinit in Hmono.
        -- intros n f Hin Hnot. apply elem_of_cons in Hin as [Heq|Hin]; [|eauto].
           simplify_eq. split; apply IH1; auto.
        -- intros n Hin. rewrite fmap_cons. apply elem_of_cons. right. auto.
      * destruct e; try discriminate.
        destruct (validate_databases json_ok index_shape rest fs0) as [fs2 r2] eqn:Hrest.
        destruct r2 as [inv2|]; [|discriminate]. cbn in H. simplify_eq.
        destruct (IH _ _ _ Hrest) as (IH1 & IH2 & IH3).
        split; [|split].
        -- intros p Hp. apply IH1. specialize (Hmono p fs Hp). now rewrite Hinit in Hmono.
        -- intros n f Hin Hnot. apply not_elem_of_cons in Hnot as [Hne Hnot].
           apply elem_of_cons in Hin as [Heq|Hin]; [simplify_eq|eauto].
        -- intros n Hin. rewrite fmap_cons. apply elem_of_cons in Hin as [->|Hin].
           ++ apply elem_of_cons. now left.
           ++ apply elem_of_cons. right. auto.
    + destruct (validate_databases json_ok index_shape rest fs) as [fs2 r2] eqn:Hrest.
      destruct r2 as [inv2|]; [|discriminate]. cbn in H. simplify_eq.
      destruct (IH _ _ _ Hrest) as (IH1 & IH2 & IH3).
      split; [exact IH1|]. split.
      * intros n f Hin Hnot. apply not_elem_of_cons in Hnot as [Hne Hnot].
        apply elem_of_cons in Hin as [Heq|Hin]; [simplify_eq|eauto].
      * intros n Hin. rewrite fmap_cons. apply elem_of_cons in Hin as [->|Hin].
        -- apply elem_of_cons. now left.
        -- apply elem_of_cons. right. auto.
Qed.

Lemma lookup_foldr_delete (r : gmap string string) (l : list string) (k : string) :
  foldr delete r l !! k = if decide (k ∈ l) then None else r !! k.
Proof.
  induction l as [|x l IH]; cbn [foldr].
  - destruct (decide _) as [Hin|]; [now apply elem_of_nil in Hin | reflexivity].
  - destruct (decide (x = k)) as [->|Hne].
    + rewrite lookup_delete_eq. destruct (decide (k ∈ k :: l)) as [|Hnot]; [reflexivity|].
      exfalso. apply Hnot. apply elem_of_cons. now left.
    + rewrite lookup_delete_ne by exact Hne. rewrite IH.
      destruct (decide (k ∈ l)) as [Hin|Hnot]; destruct (decide (k ∈ x :: l)) as [Hin'|Hnot'];
        try reflexivity.
      * exfalso. apply Hnot'. apply elem_of_cons. now right.
      * apply elem_of_cons in Hin' as [->|Hin']; [congruence | contradiction].
Qed.

(** X26. When the manager has started, no database is selected, every
    database left in its registry was listed in the registry file and
    has both of its store files on disk, and starting has removed no
    file. (A listed name with neither file is dropped: see
    [manager_start_prunes].) *)
Theorem manager_start_keeps_databases_with_files (json_ok : string -> bool)
    (index_shape : string -> option exn) (dump_registry : gmap string string -> string)
    (load_registry : string -> option (list (string * string)))
    (file : string) (fs fs1 : gmap string string) (m : DatabaseManager) :
  DatabaseManager_init json_ok index_shape dump_registry load_registry file fs = (fs1, Ok m) ->
  registry_file m = file /\ current_db m = None
  /\ (forall p, is_Some (fs !! p) -> is_Some (fs1 !! p))
  /\ (forall db_name db_file, registry m !! db_name = Some db_file ->
        (db_name, db_file) ∈ _load_registry load_registry file fs
        /\ is_Some (fs1 !! nodes_path db_file) /\ is_Some (fs1 !! indexes_path db_file)).
Proof.
  unfold DatabaseManager_init.
  destruct (validate_databases _ _ _ _) as [fs0 r] eqn:Hval.
  destruct r as [inv|e]; [|discriminate].
  destruct (validate_databases_spec _ _ _ _ _ _ Hval) as (H1 & H2 & H3).
  set (m0 := {| registry_file := file;
                registry := foldr delete (list_to_map (_load_registry load_registry file fs)) inv;
                current_db := None |}).
  assert (Hsave : forall p, is_Some (fs0 !! p) ->
                    is_Some (match inv with
                             | [] => fs0
                             | _ :: _ => _save_registry dump_registry m0 fs0
                             end !! p)).
  { intros p Hp. destruct inv; [exact Hp|]. unfold _save_registry.
    destruct (decide (registry_file m0 = p)) as [->|Hne].
    - rewrite lookup_insert_eq. eauto.
    - now rewrite lookup_insert_ne. }
  intros H.
  assert (m = m0 /\ fs1 = match inv with
                          | [] => fs0
                          | _ :: _ => _save_registry dump_registry m0 fs0
                          end) as [-> ->].
  { destruct inv; now simplify_eq. }
  split; [reflexivity|]. split; [reflexivity|]. split; [auto|].
  intros n f Hnf. cbn [registry m0] in Hnf. rewrite lookup_foldr_delete in Hnf.
  destruct (decide (n ∈ inv)) as [|Hnot]; [discriminate|].
  apply elem_of_list_to_map_2 in Hnf.
  destruct (H2 n f Hnf Hnot) as [Hn Hi]. auto.
Qed.

Lemma manager_start_keeps_databases_with_files_witness :
  registry_file demo_manager = "registry.json" /\ current_db demo_manager = None
  /\ (forall p, is_Some (<["registry.json" := "{x,y}"]> demo_files !! p) ->
        is_Some ((DatabaseManager_init braces_ok no_shape_error names_of two_names
                    "registry.json" (<["registry.json" := "{x,y}"]> demo_files)).1 !! p))
  /\ (forall db_name db_file, registry demo_manager !! db_name = Some db_file ->
        (db_name, db_file) ∈ _load_registry two_names "registry.json"
                               (<["registry.json" := "{x,y}"]> demo_files)
        /\ is_Some ((DatabaseManager_init braces_ok no_shape_error names_of two_names
                       "registry.json" (<["registry.json" := "{x,y}"]> demo_files)).1
                    !! nodes_path db_file)
        /\ is_Some ((DatabaseManager_init braces_ok no_shape_error names_of two_names
                       "registry.json" (<["registry.json" := "{x,y}"]> demo_files)).1
                    !! indexes_path db_file)).
Proof.
  apply (manager_start_keeps_databases_with_files braces_ok no_shape_error names_of two_names
           "registry.json" (<["registry.json" := "{x,y}"]> demo_files)).
  reflexivity.
Defined.

(** The name [y] is listed but has no file: it is dropped and the
    registry file is written again. *)
Example manager_start_prunes :
  let start := DatabaseManager_init braces_ok no_shape_error names_of two_names
                 "registry.json" (<["registry.json" := "{x,y}"]> demo_files) in
  start.2 = Ok demo_manager /\ start.1 !! "registry.json" = Some "{x}"
  /\ start.1 !! "y_nodes.json" = None.
Proof. repeat split; vm_compute; reflexivity. Qed.
